(** * Debt-report cleaning pipeline: a shallow embedding and its properties

    This development embeds [02_Local_Debt_Analysis/debt_cleaning_pipeline.py]
    in Rocq and proves properties of its table consolidation, logical-column
    layout, anchor pairing, extended-field extraction, forward fill and
    checkpointed main loop.

    Modelling conventions.
    - A Python [str] is the list of its Unicode code points ([list N]).
    - A cell value is the closed variant [None | nan | int | str]; other
      spreadsheet values (floats, dates) are outside the model.
    - An openpyxl worksheet is a record: its [max_row], [max_column], a total
      cell function and the list of merged ranges.  Rows and columns are
      1-based naturals, as in openpyxl.
    - A Python [dict] whose key order is observable (a record that becomes a
      data-frame row) is an association list with Python's update semantics;
      a [dict] used only as a map ([anchor_map], [name_counts]) is a [gmap].
    - A workbook that openpyxl saves and loads again is the same worksheet.
      The cumulative output file is the data frame and the log last written
      to it; what [pd.read_excel] makes of the data frame when it reads it
      back is a parameter [read_excel] of the functions that read it, since
      pandas types the cells anew.  Reading and writing files never fail.
    - Iterating a worksheet with [iter_rows] creates the cells it yields:
      the title scan can leave a sheet with more rows than it had. *)

From Stdlib Require Import ZArith NArith Lia String Ascii Decimal Sorted.
From stdpp Require Import base option list gmap.
From Equations Require Import Equations.

Local Open Scope nat_scope.

(* ===================================================================== *)
(** * Part I: the program                                                 *)
(* ===================================================================== *)

(* --------------------------------------------------------------------- *)
(** ** Python values and strings *)
(* --------------------------------------------------------------------- *)

Module Py.

(** A string is a sequence of code points. *)
Abbreviation str := (list N).

(** Source literals are written as UTF-8 text and decoded to code points. *)
Fixpoint utf8_decode (bs : list N) : list N :=
  match bs with
  | [] => []
  | b0 :: r0 =>
    if (b0 <? 0x80)%N then b0 :: utf8_decode r0
    else if (b0 <? 0xE0)%N then
      match r0 with
      | b1 :: r1 =>
        N.lor (N.shiftl (N.land b0 0x1F) 6) (N.land b1 0x3F) :: utf8_decode r1
      | _ => []
      end
    else if (b0 <? 0xF0)%N then
      match r0 with
      | b1 :: b2 :: r2 =>
        N.lor (N.shiftl (N.land b0 0x0F) 12)
          (N.lor (N.shiftl (N.land b1 0x3F) 6) (N.land b2 0x3F))
        :: utf8_decode r2
      | _ => []
      end
    else
      match r0 with
      | b1 :: b2 :: b3 :: r3 =>
        N.lor (N.shiftl (N.land b0 0x07) 18)
          (N.lor (N.shiftl (N.land b1 0x3F) 12)
             (N.lor (N.shiftl (N.land b2 0x3F) 6) (N.land b3 0x3F)))
        :: utf8_decode r3
      | _ => []
      end
  end.

Definition lit (s : string) : str :=
  utf8_decode (map N_of_ascii (list_ascii_of_string s)).

(** Cell values: [None], the float [nan], an integer, or text. *)
Inductive value : Type :=
| VNone
| VNaN
| VInt (z : Z)
| VStr (s : str).

#[global] Instance value_eq_dec : EqDecision value.
Proof. solve_decision. Defined.

(** [x is None]. *)
Definition is_None (v : value) : bool :=
  match v with VNone => true | _ => false end.

(** [pd.isna(x)] on a scalar. *)
Definition isna (v : value) : bool :=
  match v with VNone | VNaN => true | _ => false end.

(** Truth value of an object, as tested by [if x] and [x and ...]. *)
Definition truthy (v : value) : bool :=
  match v with
  | VNone => false
  | VNaN => true
  | VInt z => negb (z =? 0)%Z
  | VStr s => match s with [] => false | _ => true end
  end.

Fixpoint uint_codes (d : Decimal.uint) : str :=
  match d with
  | Nil => []
  | D0 d => 48%N :: uint_codes d
  | D1 d => 49%N :: uint_codes d
  | D2 d => 50%N :: uint_codes d
  | D3 d => 51%N :: uint_codes d
  | D4 d => 52%N :: uint_codes d
  | D5 d => 53%N :: uint_codes d
  | D6 d => 54%N :: uint_codes d
  | D7 d => 55%N :: uint_codes d
  | D8 d => 56%N :: uint_codes d
  | D9 d => 57%N :: uint_codes d
  end.

(** [str(x)]. *)
Definition to_str (v : value) : str :=
  match v with
  | VNone => lit "None"
  | VNaN => lit "nan"
  | VInt z =>
    match Z.to_int z with
    | Decimal.Pos d => uint_codes d
    | Decimal.Neg d => 45%N :: uint_codes d
    end
  | VStr s => s
  end.

(** The characters matched by [\s] in a [str] pattern. *)
Definition is_space (c : N) : bool :=
  ((0x09 <=? c) && (c <=? 0x0D) || (0x1C <=? c) && (c <=? 0x20)
   || (c =? 0x85) || (c =? 0xA0) || (c =? 0x1680)
   || (0x2000 <=? c) && (c <=? 0x200A)
   || (c =? 0x2028) || (c =? 0x2029) || (c =? 0x202F) || (c =? 0x205F)
   || (c =? 0x3000))%N.

(** The characters matched by the class [[一-龥]]. *)
Definition is_cjk (c : N) : bool := ((0x4E00 <=? c) && (c <=? 0x9FA5))%N.

Definition str_eqb (a b : str) : bool := bool_decide (a = b).

Fixpoint starts_with (pat s : str) : bool :=
  match pat, s with
  | [], _ => true
  | p :: pat', c :: s' => (p =? c)%N && starts_with pat' s'
  | _ :: _, [] => false
  end.

(** [pat in s] for strings. *)
Fixpoint contains (pat s : str) : bool :=
  starts_with pat s || match s with [] => false | _ :: s' => contains pat s' end.

(** *** Insertion-ordered dictionaries with string keys *)

Abbreviation dict := (list (list N * value)).

Fixpoint dict_get (d : dict) (k : str) : option value :=
  match d with
  | [] => None
  | (k', v) :: d' => if str_eqb k' k then Some v else dict_get d' k
  end.

(** [d[k] = v]: an existing key keeps its position. *)
Fixpoint dict_set (d : dict) (k : str) (v : value) : dict :=
  match d with
  | [] => [(k, v)]
  | (k', v') :: d' =>
    if str_eqb k' k then (k', v) :: d' else (k', v') :: dict_set d' k v
  end.

(** [d.update(e)]. *)
Definition dict_update (d e : dict) : dict :=
  fold_left (fun acc kv => dict_set acc kv.1 kv.2) e d.

(** [if k in d: del d[k]]. *)
Definition dict_del (d : dict) (k : str) : dict :=
  List.filter (fun kv => negb (str_eqb kv.1 k)) d.

(** [{key: None for key in keys}]. *)
Definition dict_fromkeys_None (keys : list str) : dict :=
  fold_left (fun acc k => dict_set acc k VNone) keys [].

End Py.

Import Py.

(* --------------------------------------------------------------------- *)
(** ** Configuration constants *)
(* --------------------------------------------------------------------- *)

Definition SCAN_ROW_LIMIT : Z := 3.

(** [COLS_TO_FIND_BY_HEADER]: final column name and header text to look up. *)
Definition COLS_TO_FIND_BY_HEADER : list (Py.str * Py.str) :=
  [ (lit "债券名称", lit "债券名称");
    (lit "发行规模", lit "发行规模") ].

Definition HEADERS_TO_FIND : list Py.str :=
  [ lit "项目名称"; lit "项目单位"; lit "主管部门" ].

Definition DATA_COL_NAMES : list Py.str :=
  [ lit "总值"; lit "财政安排"; lit "债券融资" ].

Definition SPECIAL_COL_NAME : Py.str := lit "预期总收益".

Definition EXTENDED_VAR_NAMES : list Py.str :=
  [ lit "项目类型"; lit "专项债券中用于该项目的金额";
    lit "其中：用于符合条件的重大项目资本金的金额";
    lit "简要描述"; lit "建设期"; lit "运营期"; lit "债券存续期内项目总投资";
    lit "其中：不含专项债券的项目资本金"; lit "专项债券融资"; lit "其他债务融资" ].

Definition ADDITIONAL_VAR_NAME : Py.str := lit "债券存续期内项目总收益".

Definition FINAL_COLUMN_ORDER : list Py.str :=
  map fst COLS_TO_FIND_BY_HEADER
  ++ HEADERS_TO_FIND
  ++ DATA_COL_NAMES
  ++ [SPECIAL_COL_NAME]
  ++ EXTENDED_VAR_NAMES
  ++ [ADDITIONAL_VAR_NAME]
  ++ [lit "年份"; lit "地区"; lit "数据来源"].

(** The label of an anchor key cell, and the record key holding the name. *)
Definition PROJECT_NAME_KEY : Py.str := lit "项目名称".

Definition OCCURRENCE_KEY : Py.str := lit "_occurrence_index".

(** [re.compile(PATTERN_TO_FIND, re.IGNORECASE).search]: the year group is
    optional and [.{0,3}] may match nothing, so the search succeeds exactly
    when the literal tail of the pattern occurs in the text. *)
Definition PATTERN_TO_FIND_search (s : Py.str) : bool :=
  contains (lit "专项债券项目信息") s.

(* --------------------------------------------------------------------- *)
(** ** Helper functions *)
(* --------------------------------------------------------------------- *)

(** [clean_cell]: drop every whitespace character. *)
Definition clean_cell (cell_value : value) : Py.str :=
  if isna cell_value then []
  else List.filter (fun c => negb (is_space c)) (to_str cell_value).

(** [clean_for_matching]: keep only the Chinese characters. *)
Definition clean_for_matching (cell_value : value) : Py.str :=
  if isna cell_value then []
  else List.filter is_cjk (to_str cell_value).

(* --------------------------------------------------------------------- *)
(** ** Worksheets *)
(* --------------------------------------------------------------------- *)

(** The line styles a border side can carry. *)
Inductive side_style : Type :=
| thin | medium | thick | dashed | dotted | double | hair
| dashDot | dashDotDot | mediumDashed | mediumDashDot | mediumDashDotDot
| slantDashDot.

(** A [Border]: the [style] of its four [Side]s ([None] when unset). *)
Record Border : Type := {
  border_left : option side_style;
  border_right : option side_style;
  border_top : option side_style;
  border_bottom : option side_style
}.

Definition no_border : Border :=
  {| border_left := None; border_right := None;
     border_top := None; border_bottom := None |}.

Record Cell : Type := {
  value_of : value;
  has_style : bool;
  border : Border
}.

(** A cell that was never written. *)
Definition blank_cell : Cell :=
  {| value_of := VNone; has_style := false; border := no_border |}.

(** A [CellRange], as in [sheet.merged_cells.ranges] and in the rectangle
    denoted by a range string such as [B2:F10]. *)
Record CellRange : Type := {
  min_row : nat;
  max_row : nat;
  min_col : nat;
  max_col : nat
}.

Record Worksheet : Type := {
  sheet_max_row : nat;
  sheet_max_column : nat;
  sheet_cells : nat -> nat -> Cell;
  merged_cells : list CellRange
}.

(** [sheet.cell(row=r, column=c)]: cells outside the used area are blank. *)
Definition cell (sheet : Worksheet) (r c : nat) : Cell :=
  if (1 <=? r) && (r <=? sheet_max_row sheet)
     && (1 <=? c) && (c <=? sheet_max_column sheet)
  then sheet_cells sheet r c
  else blank_cell.

(** [side and side.style]. *)
Definition side_styled (s : option side_style) : bool :=
  match s with Some _ => true | None => false end.

(** [has_border]: the cell is styled and one of its four sides has a style. *)
Definition has_border (c : Cell) : bool :=
  if negb (has_style c) then false
  else
    side_styled (border_left (border c)) || side_styled (border_right (border c))
    || side_styled (border_top (border c)) || side_styled (border_bottom (border c)).

(** [sheet.iter_rows()]: the coordinates of the used area, row by row. *)
Definition iter_rows (sheet : Worksheet) : list (nat * nat) :=
  r ← seq 1 (sheet_max_row sheet);
  c ← seq 1 (sheet_max_column sheet);
  [(r, c)].

(* --------------------------------------------------------------------- *)
(** ** Forward fill *)
(* --------------------------------------------------------------------- *)

(** [grid[r][c]] with 0-based indices. *)
Definition grid_get (grid : list (list value)) (r c : nat) : value :=
  default VNone (grid !! r ≫= (.!! c)).

(** [grid[r][c] = v]. *)
Definition grid_set (grid : list (list value)) (r c : nat) (v : value)
  : list (list value) :=
  alter (<[c := v]>) r grid.

(** [while len(row) < num_cols: row.append(None)]. *)
Definition pad_row (num_cols : nat) (row : list value) : list value :=
  row ++ replicate (num_cols - length row) VNone.

(** The test [x is not None and clean_cell(x) != ''] of [manual_ffill]. *)
Definition is_filled (x : value) : bool :=
  negb (is_None x) && negb (bool_decide (clean_cell x = [])).

(** One iteration of the inner loop over [r], for the column [c]; the state
    is [last_val] and the grid being filled. *)
Definition ffill_step (c : nat) (st : value * list (list value)) (r : nat)
  : value * list (list value) :=
  let '(last_val, filled_data) := st in
  let x := grid_get filled_data r c in
  if is_filled x then (x, filled_data)
  else if negb (is_None last_val) then (last_val, grid_set filled_data r c last_val)
  else (last_val, filled_data).

(** The inner loop: one column, top to bottom, [last_val] starting at [None]. *)
Definition ffill_column (filled_data : list (list value)) (c : nat)
  : list (list value) :=
  (fold_left (ffill_step c) (seq 0 (length filled_data)) (VNone, filled_data)).2.

Definition manual_ffill (data : list (list value)) : list (list value) :=
  match data with
  | [] => []
  | _ =>
    let num_cols := max_list (map length data) in
    let filled_data := map (pad_row num_cols) data in
    fold_left ffill_column (seq 0 num_cols) filled_data
  end.

(* --------------------------------------------------------------------- *)
(** ** Border regions and consolidation *)
(* --------------------------------------------------------------------- *)

(** The running bounds of [find_border_range_in_sheet]; [None] is the
    initial state [(inf, inf, 0, 0)] with [found_any_border = False]. *)
Definition extend_range (acc : option CellRange) (r c : nat) : option CellRange :=
  match acc with
  | None => Some {| min_row := r; max_row := r; min_col := c; max_col := c |}
  | Some b =>
    Some {| min_row := min (min_row b) r; max_row := max (max_row b) r;
            min_col := min (min_col b) c; max_col := max (max_col b) c |}
  end.

(** The bounding rectangle of the bordered cells; the source formats it as a
    range string, which [range_boundaries] reads back as the same bounds. *)
Definition find_border_range_in_sheet (sheet : Worksheet) : option CellRange :=
  fold_left
    (fun acc rc => if has_border (cell sheet rc.1 rc.2)
                   then extend_range acc rc.1 rc.2 else acc)
    (iter_rows sheet) None.

(** The number of columns and of rows that [iter_rows] yields between the
    bounds of [range], which is [range(min, max + 1)] on each axis: none when
    the bounds are reversed, and [max - min + 1] when they are in order, as
    those of a border range are. *)
Definition column_count (range : CellRange) : nat :=
  max_col range + 1 - min_col range.

Definition row_count (range : CellRange) : nat :=
  max_row range + 1 - min_row range.

(** The widths [max_col - min_col + 1] are compared as integers. *)
Definition are_tables_similar (sheet1 : Worksheet) (range1 : CellRange)
    (sheet2 : Worksheet) (range2 : CellRange) : bool :=
  (Z.of_nat (max_col range1) - Z.of_nat (min_col range1) + 1
   =? Z.of_nat (max_col range2) - Z.of_nat (min_col range2) + 1)%Z.

(** [dest_sheet.cell(row=r, column=c)] followed by the assignments [x]. *)
Definition set_cell (sheet : Worksheet) (r c : nat) (x : Cell) : Worksheet :=
  {| sheet_max_row := max (sheet_max_row sheet) r;
     sheet_max_column := max (sheet_max_column sheet) c;
     sheet_cells := fun r' c' =>
       if (r' =? r) && (c' =? c) then x else cell sheet r' c';
     merged_cells := merged_cells sheet |}.

(** The value and, for a styled source cell, the border of [src] written
    over the destination cell [dst]. *)
Definition copy_cell (src dst : Cell) : Cell :=
  if has_style src then
    {| value_of := value_of src;
       has_style := true;
       border := {| border_left := border_left (border src);
                    border_right := border_right (border src);
                    border_top := border_top (border src);
                    border_bottom := border_bottom (border src) |} |}
  else
    {| value_of := value_of src; has_style := has_style dst; border := border dst |}.

Definition range_contains (outer inner : CellRange) : bool :=
  (min_row outer <=? min_row inner) && (max_row inner <=? max_row outer)
  && (min_col outer <=? min_col inner) && (max_col inner <=? max_col outer).

(** [dest_sheet.merge_cells(...)]: a loaded source sheet has its merged
    areas already normalised, so the copied cells stay as they are. *)
Definition merge_cells (sheet : Worksheet) (range : CellRange) : Worksheet :=
  {| sheet_max_row := sheet_max_row sheet;
     sheet_max_column := sheet_max_column sheet;
     sheet_cells := sheet_cells sheet;
     merged_cells := merged_cells sheet ++ [range] |}.

Definition copy_range (source_sheet dest_sheet : Worksheet) (range : CellRange)
    (dest_start_row dest_start_col : nat) : Worksheet :=
  let copied :=
    fold_left
      (fun dest rc =>
         let r_idx := rc.1 in
         let c_idx := rc.2 in
         let src := cell source_sheet (min_row range + r_idx) (min_col range + c_idx) in
         let r := dest_start_row + r_idx in
         let c := dest_start_col + c_idx in
         set_cell dest r c (copy_cell src (cell dest r c)))
      (r_idx ← seq 0 (row_count range);
       c_idx ← seq 0 (column_count range);
       [(r_idx, c_idx)])
      dest_sheet in
  fold_left
    (fun dest merged_cell_range =>
       if range_contains range merged_cell_range then
         merge_cells dest
           {| min_row := dest_start_row + min_row merged_cell_range - min_row range;
              max_row := dest_start_row + max_row merged_cell_range - min_row range;
              min_col := dest_start_col + min_col merged_cell_range - min_col range;
              max_col := dest_start_col + max_col merged_cell_range - min_col range |}
       else dest)
    (merged_cells source_sheet) copied.

(** The active sheet of a new [Workbook]. *)
Definition new_sheet : Worksheet :=
  {| sheet_max_row := 1; sheet_max_column := 1;
     sheet_cells := fun _ _ => blank_cell; merged_cells := [] |}.

(** Step 1 of [consolidate_tables_from_group], per sheet: some cell of the
    scanned rows is truthy and its cleaned text matches the pattern. *)
Definition sheet_has_title (compiled_regex : Py.str -> bool) (scan_row_limit : Z)
    (sheet : Worksheet) : bool :=
  let rows_to_scan :=
    if (0 <? scan_row_limit)%Z then seq 1 (Z.to_nat scan_row_limit)
    else seq 1 (sheet_max_row sheet) in
  existsb
    (fun r =>
       existsb
         (fun c =>
            let v := value_of (cell sheet r c) in
            truthy v && compiled_regex (clean_cell v))
         (seq 1 (sheet_max_column sheet)))
    rows_to_scan.

(** The number of rows the title scan takes from [rows_to_scan]: the scan
    stops after the first row with a title and takes every row otherwise. *)
Definition rows_yielded (compiled_regex : Py.str -> bool) (scan_row_limit : Z)
    (sheet : Worksheet) : nat :=
  let rows_to_scan :=
    if (0 <? scan_row_limit)%Z then seq 1 (Z.to_nat scan_row_limit)
    else seq 1 (sheet_max_row sheet) in
  let has_title r :=
    existsb
      (fun c =>
         let v := value_of (cell sheet r c) in
         truthy v && compiled_regex (clean_cell v))
      (seq 1 (sheet_max_column sheet)) in
  match List.find has_title rows_to_scan with
  | Some r => r
  | None => length rows_to_scan
  end.

(** [iter_rows] creates the cells of every row it yields: a sheet with
    fewer than [n] rows has [n] rows afterwards, the new ones blank. *)
Definition touch_rows (sheet : Worksheet) (n : nat) : Worksheet :=
  if n <=? sheet_max_row sheet then sheet
  else {| sheet_max_row := n;
          sheet_max_column := sheet_max_column sheet;
          sheet_cells := cell sheet;
          merged_cells := merged_cells sheet |}.

(** The sheet as the title scan leaves it. *)
Definition scanned_sheet (compiled_regex : Py.str -> bool) (scan_row_limit : Z)
    (sheet : Worksheet) : Worksheet :=
  touch_rows sheet (rows_yielded compiled_regex scan_row_limit sheet).

(** [matched_sheets_info]: the matching sheets, as the scan leaves them,
    with their indices. *)
Fixpoint match_sheets (compiled_regex : Py.str -> bool) (scan_row_limit : Z)
    (index : nat) (sheets : list Worksheet) : list (Worksheet * nat) :=
  match sheets with
  | [] => []
  | sheet :: rest =>
    (if sheet_has_title compiled_regex scan_row_limit sheet
     then [(scanned_sheet compiled_regex scan_row_limit sheet, index)] else [])
    ++ match_sheets compiled_regex scan_row_limit (S index) rest
  end.

(** The [while next_sheet_index < len(all_sheets_in_group)] loop; [following]
    are the sheets from [next_sheet_index = last_sheet_index + 1] on. *)
Fixpoint continuation_walk (sheet : Worksheet) (border_range : CellRange)
    (last_sheet_index : nat) (following : list Worksheet)
  : list (Worksheet * CellRange) * nat :=
  match following with
  | [] => ([], last_sheet_index)
  | next_sheet :: rest =>
    match find_border_range_in_sheet next_sheet with
    | Some next_range =>
      if are_tables_similar sheet border_range next_sheet next_range then
        let '(tables, last) :=
          continuation_walk next_sheet next_range (S last_sheet_index) rest in
        ((next_sheet, next_range) :: tables, last)
      else ([], last_sheet_index)
    | None => ([], last_sheet_index)
    end
  end.

(** Step 2: the [for info in matched_sheets_info] loop, which skips matched
    sheets without a border range and stops after the first one with one. *)
Fixpoint select_tables (all_sheets_in_group : list Worksheet)
    (matched_sheets_info : list (Worksheet * nat))
  : list (Worksheet * CellRange) * Z :=
  match matched_sheets_info with
  | [] => ([], (-1)%Z)
  | (sheet, index) :: rest =>
    match find_border_range_in_sheet sheet with
    | None => select_tables all_sheets_in_group rest
    | Some border_range =>
      let '(tables, last) :=
        continuation_walk sheet border_range index
          (drop (S index) all_sheets_in_group) in
      ((sheet, border_range) :: tables, Z.of_nat last)
    end
  end.

(** Step 3: the regions are written one below the other from row 1.  The
    regions are border ranges, whose bounds are in order, so the step
    [max_row - min_row + 1] is their [row_count]. *)
Definition write_tables (final_tables : list (Worksheet * CellRange)) : Worksheet :=
  (fold_left
     (fun st table_info =>
        let '(dest_sheet, next_row_to_write) := st in
        (copy_range table_info.1 dest_sheet table_info.2 next_row_to_write 1,
         next_row_to_write + row_count table_info.2))
     final_tables (new_sheet, 1)).1.

(** [openpyxl.load_workbook] on each file of the group ([None]: the file
    cannot be read), all worksheets in file order. *)
Fixpoint load_group (file_group : list (option (list Worksheet)))
  : option (list Worksheet) :=
  match file_group with
  | [] => Some []
  | None :: _ => None
  | Some worksheets :: rest =>
    match load_group rest with
    | Some more => Some (worksheets ++ more)
    | None => None
    end
  end.

(** The result [(path, all_sheets, last_sheet_index)]; the consolidated
    workbook stands for the path it is saved under, and a failure is
    [(None, [], -1)].  The title scan runs over every loaded sheet, so the
    sheets of [all_sheets_in_group] are from then on the scanned ones. *)
Definition consolidate_tables_from_group
    (file_group : list (option (list Worksheet)))
    (compiled_regex : Py.str -> bool) (scan_row_limit : Z)
  : option Worksheet * list Worksheet * Z :=
  match load_group file_group with
  | None => (None, [], (-1)%Z)
  | Some loaded_sheets =>
    let matched_sheets_info :=
      match_sheets compiled_regex scan_row_limit 0 loaded_sheets in
    let all_sheets_in_group :=
      map (scanned_sheet compiled_regex scan_row_limit) loaded_sheets in
    match matched_sheets_info with
    | [] => (None, [], (-1)%Z)
    | _ =>
      let '(final_tables, last_sheet_index) :=
        select_tables all_sheets_in_group matched_sheets_info in
      match final_tables with
      | [] => (None, [], (-1)%Z)
      | _ => (Some (write_tables final_tables), all_sheets_in_group, last_sheet_index)
      end
    end
  end.

(* --------------------------------------------------------------------- *)
(** ** Logical columns *)
(* --------------------------------------------------------------------- *)

(** Keeps the equation of a scrutinee available to termination proofs. *)
Definition inspect {A : Type} (a : A) : {b : A | a = b} := exist _ a eq_refl.

(** The test on [merged_range] in [get_logical_starts_for_row]. *)
Definition covers (row_num col : nat) (merged_range : CellRange) : bool :=
  (min_row merged_range <=? row_num) && (row_num <=? max_row merged_range)
  && (min_col merged_range <=? col) && (col <=? max_col merged_range).

(** The [while col <= sheet.max_column] loop, started at [col]. *)
Equations? scan_logical_starts (sheet : Worksheet) (row_num col : nat) : list nat
  by wf (S (sheet_max_column sheet) - col) lt :=
scan_logical_starts sheet row_num col with inspect (col <=? sheet_max_column sheet) := {
  | exist _ false _ => [];
  | exist _ true Hcol
      with inspect (List.find (covers row_num col) (merged_cells sheet)) := {
      | exist _ (Some merged_range) Hfind =>
        col :: scan_logical_starts sheet row_num (max_col merged_range + 1);
      | exist _ None _ =>
        col :: scan_logical_starts sheet row_num (col + 1) } }.
Proof.
  - apply find_some in Hfind as [_ Hc]. unfold covers in Hc.
    apply Nat.leb_le in Hcol.
    repeat (apply andb_prop in Hc as [Hc ?]).
    repeat match goal with H : (_ <=? _) = true |- _ => apply Nat.leb_le in H end.
    lia.
  - apply Nat.leb_le in Hcol. lia.
Qed.

(** The layout of a row, as computed on a cache miss. *)
Definition get_logical_starts_for_row (sheet : Worksheet) (row_num : nat) : list nat :=
  scan_logical_starts sheet row_num 1.

(** The function with its memo table [sheet._row_logical_starts_cache]
    passed explicitly. *)
Definition get_logical_starts_for_row_cached (cache : gmap nat (list nat))
    (sheet : Worksheet) (row_num : nat) : list nat * gmap nat (list nat) :=
  match cache !! row_num with
  | Some starts => (starts, cache)
  | None =>
    let starts := scan_logical_starts sheet row_num 1 in
    (starts, <[row_num := starts]> cache)
  end.

Definition get_absolute_col_from_logical_index_for_row (sheet : Worksheet)
    (row_num logical_index : nat) : option nat :=
  let logical_starts := get_logical_starts_for_row sheet row_num in
  if (1 <=? logical_index) && (logical_index <=? length logical_starts)
  then logical_starts !! (logical_index - 1)
  else None.

(* --------------------------------------------------------------------- *)
(** ** Anchors and extended fields *)
(* --------------------------------------------------------------------- *)

(** The body of the row loop of [build_anchor_map]. *)
Definition anchor_row (sheet : Worksheet) (current_absolute_idx : nat)
    (anchor_map : gmap (list N) (list (nat * nat * nat))) (r_idx : nat)
  : gmap (list N) (list (nat * nat * nat)) :=
  match get_absolute_col_from_logical_index_for_row sheet r_idx 1,
        get_absolute_col_from_logical_index_for_row sheet r_idx 2 with
  | Some key_col, Some value_col =>
    let key_cell_value := value_of (cell sheet r_idx key_col) in
    if str_eqb (clean_for_matching key_cell_value) PROJECT_NAME_KEY then
      let value_cell_value := value_of (cell sheet r_idx value_col) in
      let project_name := clean_for_matching value_cell_value in
      match project_name with
      | [] => anchor_map
      | _ =>
        let location := (current_absolute_idx, r_idx, 2) in
        <[project_name := default [] (anchor_map !! project_name) ++ [location]]>
          anchor_map
      end
    else anchor_map
  | _, _ => anchor_map
  end.

(** The loop over [enumerate(sheets_to_scan)], with
    [current_absolute_idx = start_sheet_idx + sheet_idx_offset]. *)
Fixpoint scan_sheets (current_absolute_idx : nat) (sheets_to_scan : list Worksheet)
    (anchor_map : gmap (list N) (list (nat * nat * nat)))
  : gmap (list N) (list (nat * nat * nat)) :=
  match sheets_to_scan with
  | [] => anchor_map
  | sheet :: rest =>
    scan_sheets (S current_absolute_idx) rest
      (fold_left (anchor_row sheet current_absolute_idx)
         (seq 1 (sheet_max_row sheet)) anchor_map)
  end.

Definition build_anchor_map (original_sheets : list Worksheet) (start_sheet_idx : nat)
  : gmap (list N) (list (nat * nat * nat)) :=
  scan_sheets start_sheet_idx (drop start_sheet_idx original_sheets) ∅.

(** What is left to walk from the cursor [(s_idx, r)]: a bound on the number
    of iterations of the search loop. *)
Definition walk_measure (original_sheets : list Worksheet) (s_idx r : nat) : nat :=
  match original_sheets !! s_idx with
  | None => 0
  | Some sheet =>
    (S (sheet_max_row sheet) - r) + 1
    + sum_list (map (fun sh => sheet_max_row sh + 2) (drop (S s_idx) original_sheets))
  end.

(** The [while not found and current_s_idx < len(original_sheets)] loop for
    one field: the value found, if any, and the cursor left behind. *)
Equations? next_bordered (original_sheets : list Worksheet) (value_logical_index : nat)
    (current_s_idx current_r : nat) : option value * nat * nat
  by wf (walk_measure original_sheets current_s_idx current_r) lt :=
next_bordered original_sheets value_logical_index current_s_idx current_r
  with inspect (original_sheets !! current_s_idx) := {
  | exist _ None _ => (None, current_s_idx, current_r);
  | exist _ (Some current_sheet) Hsheet
      with inspect (sheet_max_row current_sheet <? current_r) := {
      | exist _ true Hrow =>
        next_bordered original_sheets value_logical_index (S current_s_idx) 1;
      | exist _ false Hrow
          with get_absolute_col_from_logical_index_for_row
                 current_sheet current_r value_logical_index := {
          | None =>
            next_bordered original_sheets value_logical_index
              current_s_idx (S current_r);
          | Some absolute_col
              with has_border (cell current_sheet current_r absolute_col) := {
              | true =>
                (Some (value_of (cell current_sheet current_r absolute_col)),
                 current_s_idx, S current_r);
              | false =>
                next_bordered original_sheets value_logical_index
                  current_s_idx (S current_r) } } } }.
Proof.
  - unfold walk_measure. rewrite Hsheet.
    destruct (original_sheets !! S current_s_idx) as [next|] eqn:Hnext; [|lia].
    rewrite (drop_S _ _ _ Hnext). simpl. lia.
  - unfold walk_measure. rewrite Hsheet.
    apply Nat.ltb_ge in Hrow. lia.
  - unfold walk_measure. rewrite Hsheet.
    apply Nat.ltb_ge in Hrow. lia.
Qed.

(** The [for var_name in EXTENDED_VAR_NAMES] loop; the state is the
    dictionary being filled and the cursor. *)
Definition extract_fields (original_sheets : list Worksheet)
    (value_logical_index : nat) (var_names : list Py.str)
    (st : Py.dict * nat * nat) : Py.dict * nat * nat :=
  fold_left
    (fun st var_name =>
       let '(extracted_vars, current_s_idx, current_r) := st in
       let '(found, s_idx', r') :=
         next_bordered original_sheets value_logical_index current_s_idx current_r in
       (dict_set extracted_vars var_name (default VNone found), s_idx', r'))
    var_names st.

(** The [for _ in range(search_limit)] loop looking for the additional
    label; it stops at the first bordered value next to that label. *)
Fixpoint scan_additional (search_limit : nat) (original_sheets : list Worksheet)
    (current_s_idx current_r : nat) (extracted_vars : Py.dict) : Py.dict :=
  match search_limit with
  | 0 => extracted_vars
  | S remaining =>
    match original_sheets !! current_s_idx with
    | None => extracted_vars
    | Some current_sheet =>
      if sheet_max_row current_sheet <? current_r then
        scan_additional remaining original_sheets (S current_s_idx) 1 extracted_vars
      else
        match get_absolute_col_from_logical_index_for_row current_sheet current_r 1,
              get_absolute_col_from_logical_index_for_row current_sheet current_r 2 with
        | Some key_col, Some value_col =>
          let key_cell := cell current_sheet current_r key_col in
          let value_cell := cell current_sheet current_r value_col in
          if str_eqb (clean_cell (value_of key_cell)) ADDITIONAL_VAR_NAME
             && has_border value_cell
          then dict_set extracted_vars ADDITIONAL_VAR_NAME (value_of value_cell)
          else scan_additional remaining original_sheets
                 current_s_idx (S current_r) extracted_vars
        | _, _ =>
          scan_additional remaining original_sheets
            current_s_idx (S current_r) extracted_vars
        end
    end
  end.

Definition extract_vars_from_anchor (anchor_location : option (nat * nat * nat))
    (original_sheets : list Worksheet) : Py.dict :=
  match anchor_location with
  | None => dict_fromkeys_None EXTENDED_VAR_NAMES
  | Some (start_s_idx, start_r, value_logical_index) =>
    let '(extracted_vars, current_s_idx, current_r) :=
      extract_fields original_sheets value_logical_index EXTENDED_VAR_NAMES
        ([], start_s_idx, start_r + 1) in
    scan_additional 10 original_sheets current_s_idx current_r
      (dict_set extracted_vars ADDITIONAL_VAR_NAME VNone)
  end.

(* --------------------------------------------------------------------- *)
(** ** Base rows and enrichment *)
(* --------------------------------------------------------------------- *)

(** [[[cell.value for cell in row] for row in sheet.iter_rows()]]. *)
Definition sheet_values (sheet : Worksheet) : list (list value) :=
  map (fun r => map (fun c => value_of (cell sheet r c))
                    (seq 1 (sheet_max_column sheet)))
      (seq 1 (sheet_max_row sheet)).

(** [cleaned_row_slice == HEADERS_TO_FIND] at [(r_idx, c_idx)]. *)
Definition header_at (data_filled : list (list value)) (r_idx c_idx : nat) : bool :=
  bool_decide
    (map (fun i => clean_cell (grid_get data_filled r_idx (c_idx + i)))
         (seq 0 (length HEADERS_TO_FIND))
     = HEADERS_TO_FIND).

(** The header search: first match, top row first, leftmost column first. *)
Definition find_header (data_filled : list (list value)) : option (nat * nat) :=
  List.find (fun rc => header_at data_filled rc.1 rc.2)
    (r_idx ← seq 0 (min 5 (length data_filled));
     c_idx ← seq 0 (length (default [] (data_filled !! r_idx)) + 1
                    - length HEADERS_TO_FIND);
     [(r_idx, c_idx)]).

(** [l.index(x)], or [None] where Python raises [ValueError]. *)
Fixpoint index_of (x : Py.str) (l : list Py.str) : option nat :=
  match l with
  | [] => None
  | y :: l' => if str_eqb y x then Some 0 else S <$> index_of x l'
  end.

(** [found_cols_map]: the looked-up headers that occur in the header row. *)
Definition find_cols (header_row_values : list Py.str) : list (Py.str * nat) :=
  omap (fun entry =>
          (fun col_index => (entry.1, col_index))
            <$> index_of entry.2 header_row_values)
       COLS_TO_FIND_BY_HEADER.

(** The right-to-left scan for [expected_return] over the columns [cols]. *)
Fixpoint scan_expected_return (sheet : Worksheet) (row : nat) (cols : list nat) : value :=
  match cols with
  | [] => VNone
  | c_idx :: rest =>
    let x := cell sheet row c_idx in
    if has_border x && negb (is_None (value_of x)) then value_of x
    else scan_expected_return sheet row rest
  end.

(** [range(sheet.max_column, 0, -1)]. *)
Definition columns_right_to_left (sheet : Worksheet) : list nat :=
  rev (seq 1 (sheet_max_column sheet)).

(** The body of the data-row loop for the 0-based row [i]: [None] when the
    row is skipped for want of a project name. *)
Definition base_row (sheet : Worksheet) (data_original data_filled : list (list value))
    (header_col_start_idx : nat) (found_cols_map : list (Py.str * nat)) (i : nat)
  : option Py.dict :=
  let proj_name := clean_cell (grid_get data_filled i header_col_start_idx) in
  match proj_name with
  | [] => None
  | _ =>
    let row_dict :=
      fold_left
        (fun d entry =>
           dict_set d entry.1
             (if entry.2 <? length (default [] (data_filled !! i))
              then grid_get data_filled i entry.2 else VNone))
        found_cols_map [] in
    let row_dict :=
      fold_left
        (fun d entry =>
           dict_set d entry.2 (grid_get data_filled i (header_col_start_idx + entry.1)))
        (imap pair HEADERS_TO_FIND) row_dict in
    let row_dict :=
      fold_left
        (fun d entry =>
           let col_idx := header_col_start_idx + length HEADERS_TO_FIND + entry.1 in
           dict_set d entry.2
             (if col_idx <? length (default [] (data_original !! i))
              then grid_get data_original i col_idx else VNone))
        (imap pair DATA_COL_NAMES) row_dict in
    let expected_return :=
      scan_expected_return sheet (i + 1) (columns_right_to_left sheet) in
    Some (dict_set row_dict SPECIAL_COL_NAME expected_return)
  end.

(** [base_extracted_data]; empty when the header row is not found. *)
Definition extract_base_data (sheet : Worksheet) : list Py.dict :=
  let data_original := sheet_values sheet in
  let data_filled := manual_ffill data_original in
  match find_header data_filled with
  | None => []
  | Some (header_row_idx, header_col_start_idx) =>
    let header_row_values :=
      map clean_cell (default [] (data_filled !! header_row_idx)) in
    let found_cols_map := find_cols header_row_values in
    omap (base_row sheet data_original data_filled header_col_start_idx found_cols_map)
         (seq (header_row_idx + 1) (sheet_max_row sheet - (header_row_idx + 1)))
  end.

(** [record.get(key)]. *)
Definition record_get (record : Py.dict) (key : Py.str) : value :=
  default VNone (dict_get record key).

(** The numbering loop: [name_counts] is threaded through the records. *)
Fixpoint number_occurrences (name_counts : gmap (list N) nat) (records : list Py.dict)
  : list Py.dict :=
  match records with
  | [] => []
  | record :: rest =>
    let cleaned_name := clean_for_matching (record_get record PROJECT_NAME_KEY) in
    match cleaned_name with
    | [] => record :: number_occurrences name_counts rest
    | _ =>
      let current_count := default 0 (name_counts !! cleaned_name) + 1 in
      dict_set record OCCURRENCE_KEY (VInt (Z.of_nat current_count))
      :: number_occurrences (<[cleaned_name := current_count]> name_counts) rest
    end
  end.

(** [record.get('_occurrence_index', -1)]; the key only ever holds the
    integer written by the numbering loop. *)
Definition occurrence_index_of (record : Py.dict) : Z :=
  match dict_get record OCCURRENCE_KEY with
  | Some (VInt z) => z
  | _ => (-1)%Z
  end.

(** The extended variables of a record without a usable anchor. *)
Definition absent_extended_vars : Py.dict :=
  dict_set (dict_fromkeys_None EXTENDED_VAR_NAMES) ADDITIONAL_VAR_NAME VNone.

(** The body of the enrichment loop. *)
Definition enrich_record (anchor_map : gmap (list N) (list (nat * nat * nat)))
    (original_sheets : list Worksheet) (metadata : Py.dict) (record : Py.dict)
  : Py.dict :=
  let project_name := record_get record PROJECT_NAME_KEY in
  let cleaned_project_name := clean_for_matching project_name in
  let occurrence_index := occurrence_index_of record in
  let anchor_locations := default [] (anchor_map !! cleaned_project_name) in
  let extended_vars :=
    if ((1 <=? occurrence_index)%Z
        && (occurrence_index <=? Z.of_nat (length anchor_locations))%Z)
    then extract_vars_from_anchor
           (anchor_locations !! Z.to_nat (occurrence_index - 1)) original_sheets
    else absent_extended_vars in
  dict_update (dict_del (dict_update record extended_vars) OCCURRENCE_KEY) metadata.

Definition extract_data_with_extended_vars (consolidated : Worksheet)
    (original_sheets : list Worksheet) (last_sheet_idx : Z) (metadata : Py.dict)
  : list Py.dict :=
  let base_extracted_data := extract_base_data consolidated in
  match base_extracted_data with
  | [] => []
  | _ =>
    let numbered := number_occurrences ∅ base_extracted_data in
    let anchor_map :=
      build_anchor_map original_sheets (Z.to_nat (last_sheet_idx + 1)) in
    map (enrich_record anchor_map original_sheets metadata) numbered
  end.

(* --------------------------------------------------------------------- *)
(** ** Output tables and the main loop *)
(* --------------------------------------------------------------------- *)

(** A data frame: its column labels and its rows, one value per column. *)
Record DataFrame : Type := {
  columns : list Py.str;
  rows : list (list value)
}.

(** [pd.DataFrame()]. *)
Definition empty_frame : DataFrame := {| columns := []; rows := [] |}.

(** The value of a row of [df] under the label [col]; [nan] without it. *)
Definition frame_value (df : DataFrame) (row : list value) (col : Py.str) : value :=
  default VNaN (index_of col (columns df) ≫= (row !!.)).

(** [pd.DataFrame(records)]: the keys in order of first appearance; a key a
    record lacks is [nan] in its row. *)
Definition frame_of_records (records : list Py.dict) : DataFrame :=
  let cols :=
    fold_left
      (fun cols record =>
         fold_left (fun cols kv =>
                      if bool_decide (kv.1 ∈ cols) then cols else cols ++ [kv.1])
                   record cols)
      records [] in
  {| columns := cols;
     rows := map (fun record => map (fun c => default VNaN (dict_get record c)) cols)
                 records |}.

(** [if col not in df.columns: df[col] = None]. *)
Definition ensure_column (df : DataFrame) (col : Py.str) : DataFrame :=
  if bool_decide (col ∈ columns df) then df
  else {| columns := columns df ++ [col];
          rows := map (fun row => row ++ [VNone]) (rows df) |}.

(** [df[cols]]. *)
Definition select_columns (df : DataFrame) (cols : list Py.str) : DataFrame :=
  {| columns := cols;
     rows := map (fun row => map (frame_value df row) cols) (rows df) |}.

(** [pd.concat([df1, df2], ignore_index=True)]. *)
Definition concat (df1 df2 : DataFrame) : DataFrame :=
  let cols :=
    columns df1
    ++ List.filter (fun c => negb (bool_decide (c ∈ columns df1))) (columns df2) in
  {| columns := cols;
     rows := map (fun row => map (frame_value df1 row) cols) (rows df1)
             ++ map (fun row => map (frame_value df2 row) cols) (rows df2) |}.

(** The cumulative output file: the frame last written to its data sheet
    and the identifiers in its log sheet.  The identifiers are paths of
    workbook files, which read back as the text that was written. *)
Record PanelFile : Type := {
  Panel_Data : DataFrame;
  processing_log : list Py.str
}.

(** [load_processed_log_from_excel]; [None] is a file that does not exist. *)
Definition load_processed_log_from_excel (file : option PanelFile) : gset (list N) :=
  match file with
  | None => ∅
  | Some f => list_to_set (processing_log f)
  end.

(** [append_data_and_log_to_excel] on a file system that reads and writes
    without error.  [read_excel] is [pd.read_excel] on the data sheet as
    [to_excel] wrote it: the frame that comes back need not be the frame
    that was written, since the cells are typed anew when they are read (a
    text made of digits comes back as a number, the text [NA] as a missing
    value). *)
Definition append_data_and_log_to_excel (read_excel : DataFrame -> DataFrame)
    (file : option PanelFile)
    (new_data_df : DataFrame) (group_identifier : Py.str) : option PanelFile :=
  let existing_data_df :=
    match file with Some f => read_excel (Panel_Data f) | None => empty_frame end in
  let existing_log_df :=
    match file with Some f => processing_log f | None => [] end in
  Some {| Panel_Data := concat existing_data_df new_data_df;
          processing_log := existing_log_df ++ [group_identifier] |}.

(** A discovered file group: the path of its first file, its files as they
    load, and the metadata read off that path. *)
Record FileGroup : Type := {
  group_identifier : Py.str;
  group_files : list (option (list Worksheet));
  group_year : Py.str;
  group_region : Py.str;
  group_source : Py.str
}.

Definition metadata_of (file_group : FileGroup) : Py.dict :=
  [ (lit "年份", VStr (group_year file_group));
    (lit "地区", VStr (group_region file_group));
    (lit "数据来源", VStr (group_source file_group)) ].

(** Step 3 of the loop body: the frame that is appended. *)
Definition frame_to_append (enriched_data : list Py.dict) : DataFrame :=
  select_columns
    (fold_left ensure_column FINAL_COLUMN_ORDER (frame_of_records enriched_data))
    FINAL_COLUMN_ORDER.

(** Steps 1 and 2 of the loop body: the records of a group, [[]] when
    consolidation fails or nothing is extracted. *)
Definition records_of_group (file_group : FileGroup) : list Py.dict :=
  match consolidate_tables_from_group (group_files file_group)
          PATTERN_TO_FIND_search SCAN_ROW_LIMIT with
  | (None, _, _) => []
  | (Some consolidated, original_sheets, last_sheet_idx) =>
    extract_data_with_extended_vars consolidated original_sheets last_sheet_idx
      (metadata_of file_group)
  end.

(** The body of the loop over the file groups. *)
Definition process_group (read_excel : DataFrame -> DataFrame)
    (processed_groups : gset (list N))
    (file : option PanelFile) (file_group : FileGroup) : option PanelFile :=
  if bool_decide (group_identifier file_group ∈ processed_groups) then file
  else
    match records_of_group file_group with
    | [] => file
    | enriched_data =>
      append_data_and_log_to_excel read_excel file (frame_to_append enriched_data)
        (group_identifier file_group)
    end.

(** [main], from the state of the output file to its state afterwards; the
    log is read once, before the loop. *)
Definition main (read_excel : DataFrame -> DataFrame) (file : option PanelFile)
    (excel_file_groups : list FileGroup) : option PanelFile :=
  let processed_groups := load_processed_log_from_excel file in
  fold_left (process_group read_excel processed_groups) excel_file_groups file.

(* --------------------------------------------------------------------- *)
(** ** Sample workbooks *)
(* --------------------------------------------------------------------- *)

(** A cell without style, and a cell with a thin border on its four sides. *)
Definition plain (v : value) : Cell :=
  {| value_of := v; has_style := false; border := no_border |}.

Definition boxed (v : value) : Cell :=
  {| value_of := v; has_style := true;
     border := {| border_left := Some thin; border_right := Some thin;
                  border_top := Some thin; border_bottom := Some thin |} |}.

(** A worksheet given by the rows of its used area and its merged ranges. *)
Definition sheet_of_rows (cells : list (list Cell)) (merged : list CellRange)
  : Worksheet :=
  {| sheet_max_row := max 1 (length cells);
     sheet_max_column := max 1 (max_list (map length cells));
     sheet_cells := fun r c => default blank_cell (cells !! (r - 1) ≫= (.!! (c - 1)));
     merged_cells := merged |}.

Definition text (s : string) : value := VStr (lit s).

(** A titled page with a bordered table of two rows for the same project;
    the last bordered cell of the second row is empty. *)
Definition sample_table : Worksheet :=
  sheet_of_rows
    [ [plain (text "2020年 专项债券项目信息")];
      [boxed (text "债券名称"); boxed (text "项目名称"); boxed (text "项目单位");
       boxed (text "主管部门"); boxed (text "总值"); boxed (text "财政安排");
       boxed (text "债券融资")];
      [boxed (text "一期债券"); boxed (text "公路 A"); boxed (text "交通局");
       boxed (text "交通厅"); boxed (VInt 10); boxed (VInt 4); boxed (VInt 6)];
      [boxed VNone; boxed (text "公路 A"); boxed (text "交通局");
       boxed (text "交通厅"); boxed (VInt 20); boxed (VInt 5); boxed VNone] ]
    [].

(** A page of notes with two anchors for that project. *)
Definition sample_notes : Worksheet :=
  sheet_of_rows
    [ [plain (text "项目名称"); plain (text "公路A")];
      [plain (text "项目类型"); boxed (text "交通")];
      [plain (text "金额"); boxed (VInt 6)];
      [plain (text "项目名称"); plain (text "公路 A")];
      [plain (text "项目类型"); boxed (text "市政")];
      [plain (text "债券存续期内项目总收益"); boxed (VInt 99)] ]
    [].

(** A page with a bordered table of two columns. *)
Definition sample_narrow : Worksheet :=
  sheet_of_rows [ [boxed (text "合计"); boxed (VInt 30)] ] [].

(** A titled page without any border. *)
Definition sample_cover : Worksheet :=
  sheet_of_rows [ [plain (text "2021年专项债券项目信息")] ] [].

Definition sample_group : FileGroup :=
  {| group_identifier := lit "data/A/2020/r__01.xlsx";
     group_files := [Some [sample_table]; Some [sample_notes]];
     group_year := lit "2020"; group_region := lit "A";
     group_source := lit "r__01.xlsx" |}.

(** A group whose first titled sheet has no border. *)
Definition sample_cover_group : FileGroup :=
  {| group_identifier := lit "data/A/2021/c__01.xlsx";
     group_files := [Some [sample_cover; sample_table]];
     group_year := lit "2021"; group_region := lit "A";
     group_source := lit "c__01.xlsx" |}.

(** A group without a titled sheet. *)
Definition sample_untitled_group : FileGroup :=
  {| group_identifier := lit "data/A/2020/n.xlsx";
     group_files := [Some [sample_notes]];
     group_year := lit "2020"; group_region := lit "A";
     group_source := lit "n.xlsx" |}.

(** A row of five cells in which columns 2 to 3 are merged. *)
Definition sample_merged_row : Worksheet :=
  sheet_of_rows [ replicate 5 (plain VNone) ]
    [ {| min_row := 1; max_row := 1; min_col := 2; max_col := 3 |} ].

(** A row of three cells with the overlapping merged ranges A1:B1 and B1:C1. *)
Definition sample_overlap_row : Worksheet :=
  sheet_of_rows [ replicate 3 (plain VNone) ]
    [ {| min_row := 1; max_row := 1; min_col := 1; max_col := 2 |};
      {| min_row := 1; max_row := 1; min_col := 2; max_col := 3 |} ].

(** A grid with blanks below and above values. *)
Definition sample_grid : list (list value) :=
  [ [VNone; text "a"];
    [text "x"; text " "];
    [VNone; VNone];
    [text "y"; text "b"] ].

(** The sheets of [sample_group] and the table consolidated from them. *)
Definition sample_sheets : list Worksheet := [sample_table; sample_notes].

Definition sample_consolidated : Worksheet :=
  default new_sheet
    (consolidate_tables_from_group (group_files sample_group)
       PATTERN_TO_FIND_search SCAN_ROW_LIMIT).1.1.

(** A reading back of the data sheet that types the cells anew: the text
    [NA] comes back as a missing value. *)
Definition sample_read_excel (df : DataFrame) : DataFrame :=
  {| columns := columns df;
     rows := map (map (fun v =>
                         match v with
                         | VStr s => if bool_decide (s = lit "NA") then VNaN else v
                         | _ => v
                         end))
                 (rows df) |}.

(* --------------------------------------------------------------------- *)
(** ** Vocabulary of the properties *)
(* --------------------------------------------------------------------- *)

(** The memo table never changes what the function returns: once every
    entry of the table is the layout of its row, a call returns the layout
    and leaves the table in that state. *)
Definition cache_coherent (sheet : Worksheet) (cache : gmap nat (list nat)) : Prop :=
  ∀ row_num starts,
    cache !! row_num = Some starts →
    starts = get_logical_starts_for_row sheet row_num.

(** A column lies inside a merge region of the row that started at an
    earlier column: some merged range covers, in that row, both the column
    and a column before it. *)
Definition inside_earlier_merge (sheet : Worksheet) (row_num c : nat) : Prop :=
  ∃ m c0, m ∈ merged_cells sheet ∧ 1 ≤ c0 < c
          ∧ covers row_num c0 m = true ∧ covers row_num c m = true.

(** The logical slots of a row are exactly the columns of the sheet that do
    not lie inside a merge region started at an earlier column. *)
Definition layout_characterised (sheet : Worksheet) (row_num : nat) : Prop :=
  ∀ c, c ∈ get_logical_starts_for_row sheet row_num ↔
       (1 ≤ c ≤ sheet_max_column sheet ∧ ¬ inside_earlier_merge sheet row_num c).

(** No two distinct merged ranges share a cell of the row. *)
Definition row_merges_disjoint (sheet : Worksheet) (row_num : nat) : Prop :=
  ∀ m1 m2 c, m1 ∈ merged_cells sheet → m2 ∈ merged_cells sheet →
             covers row_num c m1 = true → covers row_num c m2 = true → m1 = m2.

(** The merged range [m] has cells in the row. *)
Definition meets_row (row_num : nat) (m : CellRange) : Prop :=
  min_row m ≤ row_num ≤ max_row m.

(** The value carried into row [k] of column [c]: the last filled cell of
    the column among the rows above [k], [None] when there is none. *)
Fixpoint carry (grid : list (list value)) (c k : nat) : value :=
  match k with
  | 0 => VNone
  | S k' =>
    if is_filled (grid_get grid k' c) then grid_get grid k' c
    else carry grid c k'
  end.

(** What forward fill leaves in the cell [(r, c)]. *)
Definition filled_value (grid : list (list value)) (c r : nat) : value :=
  if is_filled (grid_get grid r c) then grid_get grid r c
  else if negb (is_None (carry grid c r)) then carry grid c r
  else grid_get grid r c.

(** Every row of the grid has [n] cells. *)
Definition rectangular (n : nat) (grid : list (list value)) : Prop :=
  Forall (fun row => length row = n) grid.

(** The cell counts for the right-to-left scan: bordered, with a value. *)
Definition bordered_with_value (x : Cell) : bool :=
  has_border x && negb (is_None (value_of x)).

(** The special field as a literal reading of the specification has it: the
    value of the first bordered cell met from the right, whatever it holds. *)
Definition spec_last_bordered_value (sheet : Worksheet) (row : nat) : value :=
  default VNone
    (value_of <$> List.find has_border
                    (map (cell sheet row) (columns_right_to_left sheet))).

(** All rows of the sheets [sheets], the first of which has index [idx], in
    the order the walk visits them. *)
Fixpoint sheet_rows (idx : nat) (sheets : list Worksheet) : list (nat * nat) :=
  match sheets with
  | [] => []
  | sh :: rest =>
    map (pair idx) (seq 1 (sheet_max_row sh)) ++ sheet_rows (S idx) rest
  end.

(** The rows the walk has still to visit from the cursor [(s, r)]. *)
Definition rows_from (sheets : list Worksheet) (s r : nat) : list (nat * nat) :=
  match sheets !! s with
  | None => []
  | Some sh =>
    map (pair s) (seq r (S (sheet_max_row sh) - r))
    ++ sheet_rows (S s) (drop (S s) sheets)
  end.

(** The value the walk takes at a row: that of the cell in the logical
    column [k], when the row has that column and the cell is bordered. *)
Definition bordered_value_at (sheets : list Worksheet) (k : nat) (pos : nat * nat)
  : option value :=
  sh ← sheets !! pos.1;
  c ← get_absolute_col_from_logical_index_for_row sh pos.2 k;
  if has_border (cell sh pos.2 c) then Some (value_of (cell sh pos.2 c)) else None.

(** The bordered values below the cursor, in walk order. *)
Definition bordered_values_from (sheets : list Worksheet) (k s r : nat) : list value :=
  omap (bordered_value_at sheets k) (rows_from sheets s r).

(** The entity name a row contributes to the anchor map, if it is an anchor
    row: its first logical cell is the name label and its second logical
    cell has a name left after strict normalisation. *)
Definition anchor_name_at (sheet : Worksheet) (r_idx : nat) : option Py.str :=
  match get_absolute_col_from_logical_index_for_row sheet r_idx 1,
        get_absolute_col_from_logical_index_for_row sheet r_idx 2 with
  | Some key_col, Some value_col =>
    if str_eqb (clean_for_matching (value_of (cell sheet r_idx key_col)))
               PROJECT_NAME_KEY
    then match clean_for_matching (value_of (cell sheet r_idx value_col)) with
         | [] => None
         | name => Some name
         end
    else None
  | _, _ => None
  end.

(** The anchor locations of [name] among the rows [rows] of a sheet. *)
Definition anchors_in_sheet (sheet : Worksheet) (idx : nat) (name : Py.str)
    (rows : list nat) : list (nat * nat * nat) :=
  map (fun r => (idx, r, 2))
      (List.filter (fun r => bool_decide (anchor_name_at sheet r = Some name)) rows).

(** The anchor locations of [name] in scan order: sheet after sheet from
    the index [idx] of the first one, rows ascending within a sheet. *)
Fixpoint anchors_from (idx : nat) (sheets : list Worksheet) (name : Py.str)
  : list (nat * nat * nat) :=
  match sheets with
  | [] => []
  | sheet :: rest =>
    anchors_in_sheet sheet idx name (seq 1 (sheet_max_row sheet))
    ++ anchors_from (S idx) rest name
  end.

Definition anchors_in_scan_order (original_sheets : list Worksheet)
    (start_sheet_idx : nat) (name : Py.str) : list (nat * nat * nat) :=
  anchors_from start_sheet_idx (drop start_sheet_idx original_sheets) name.

(** The strictly-normalised project name of a record. *)
Definition cleaned_name (record : Py.dict) : Py.str :=
  clean_for_matching (record_get record PROJECT_NAME_KEY).

(** How many of the records bear the name [name]. *)
Definition count_named (name : Py.str) (records : list Py.dict) : nat :=
  length (List.filter (fun record => bool_decide (cleaned_name record = name)) records).

(** The record as the numbering loop leaves it. *)
Definition with_occurrence (record : Py.dict) (k : nat) : Py.dict :=
  match cleaned_name record with
  | [] => record
  | _ => dict_set record OCCURRENCE_KEY (VInt (Z.of_nat k))
  end.

(** The extended variables given to a record that is the [k]-th of its name
    when [anchors] are the anchors of that name. *)
Definition paired_extended_vars (anchors : list (nat * nat * nat)) (k : nat)
    (original_sheets : list Worksheet) : Py.dict :=
  match anchors !! (k - 1) with
  | Some location => extract_vars_from_anchor (Some location) original_sheets
  | None => absent_extended_vars
  end.

(** A range whose bounds are in order on both axes. *)
Definition ordered (range : CellRange) : Prop :=
  min_row range ≤ max_row range ∧ min_col range ≤ max_col range.

(** The width of a range as [are_tables_similar] computes it. *)
Definition range_width (range : CellRange) : Z :=
  Z.of_nat (max_col range) - Z.of_nat (min_col range) + 1.

(** The number of rows written before the [j]-th region. *)
Definition region_offset (tables : list (Worksheet * CellRange)) (j : nat) : nat :=
  sum_list (map (fun table_info => max_row table_info.2 + 1 - min_row table_info.2)
                (take j tables)).

(** The body of the loop of step 3. *)
Definition write_step (st : Worksheet * nat) (table_info : Worksheet * CellRange)
  : Worksheet * nat :=
  let '(dest_sheet, next_row_to_write) := st in
  (copy_range table_info.1 dest_sheet table_info.2 next_row_to_write 1,
   next_row_to_write + row_count table_info.2).

(** A frame whose cells are a function of the record and the label. *)
Definition frame_by (cols : list Py.str) (records : list Py.dict)
    (g : Py.dict → Py.str → value) : DataFrame :=
  {| columns := cols; rows := map (fun record => map (g record) cols) records |}.

(** The labels of [pd.DataFrame(records)]. *)
Definition record_keys (records : list Py.dict) : list Py.str :=
  columns (frame_of_records records).

Definition add_key (cols : list Py.str) (kv : Py.str * value) : list Py.str :=
  if bool_decide (kv.1 ∈ cols) then cols else cols ++ [kv.1].

(** The cell committed for [record] under the label [col], when the group
    gave the records [enriched_data]: the value of the key, or a missing
    value when the record lacks the key. *)
Definition committed_value (enriched_data : list Py.dict) (record : Py.dict)
    (col : Py.str) : value :=
  match dict_get record col with
  | Some v => v
  | None => if bool_decide (col ∈ record_keys enriched_data) then VNaN else VNone
  end.

(** A frame with the full schema: the fixed labels and one cell per label. *)
Definition schema_frame (df : DataFrame) : Prop :=
  columns df = FINAL_COLUMN_ORDER
  ∧ ∀ row, row ∈ rows df → length row = length FINAL_COLUMN_ORDER.

(** The data rows and the log of an output file that may not exist yet. *)
Definition rows_of (file : option PanelFile) : list (list value) :=
  match file with Some f => rows (Panel_Data f) | None => [] end.

Definition log_of (file : option PanelFile) : list Py.str :=
  match file with Some f => processing_log f | None => [] end.

Definition schema_file (file : option PanelFile) : Prop :=
  match file with Some f => schema_frame (Panel_Data f) | None => True end.

(** The row committed for a record of the group [file_group]. *)
Definition committed_row (file_group : FileGroup) (record : Py.dict) : list value :=
  map (committed_value (records_of_group file_group) record) FINAL_COLUMN_ORDER.

(** Reading the data sheet back keeps the full schema. *)
Definition keeps_schema (read_excel : DataFrame → DataFrame) : Prop :=
  ∀ df, schema_frame df → schema_frame (read_excel df).

(** The data rows of an output file as they are read back. *)
Definition reread_rows (read_excel : DataFrame → DataFrame) (file : option PanelFile)
  : list (list value) :=
  match file with Some f => rows (read_excel (Panel_Data f)) | None => [] end.

(** A sequence of calls of [get_logical_starts_for_row] on a sheet, the memo
    table being passed from each call to the next. *)
Definition layouts_with_cache (sheet : Worksheet) (row_nums : list nat)
    (cache : gmap nat (list nat)) : list (list nat) * gmap nat (list nat) :=
  fold_left
    (fun st row_num =>
       let '(starts, cache') := get_logical_starts_for_row_cached st.2 sheet row_num in
       (st.1 ++ [starts], cache'))
    row_nums ([], cache).

(** [range] is the smallest rectangle around the cells that satisfy [seen]. *)
Definition bounding_box (seen : nat → nat → Prop) (range : CellRange) : Prop :=
  (∀ r c, seen r c →
     (min_row range ≤ r ≤ max_row range) ∧ (min_col range ≤ c ≤ max_col range))
  ∧ (∃ c, seen (min_row range) c)
  ∧ (∃ c, seen (max_row range) c)
  ∧ (∃ r, seen r (min_col range))
  ∧ (∃ r, seen r (max_col range)).

(** The state of the scan for the bordered cells [seen] so far. *)
Definition scan_state (seen : nat → nat → Prop) (acc : option CellRange) : Prop :=
  match acc with
  | None => ∀ r c, ¬ seen r c
  | Some range => bounding_box seen range
  end.

(** The range a merged range of the source becomes in the destination. *)
Definition moved_range (range : CellRange) (dest_start_row dest_start_col : nat)
    (merged_cell_range : CellRange) : CellRange :=
  {| min_row := dest_start_row + min_row merged_cell_range - min_row range;
     max_row := dest_start_row + max_row merged_cell_range - min_row range;
     min_col := dest_start_col + min_col merged_cell_range - min_col range;
     max_col := dest_start_col + max_col merged_cell_range - min_col range |}.

(** The test of [main] for a group to be committed: it is not in the log
    read at the start and it gives records. *)
Definition to_commit (processed_groups : gset (list N)) (file_group : FileGroup)
  : bool :=
  negb (bool_decide (group_identifier file_group ∈ processed_groups))
  && match records_of_group file_group with [] => false | _ :: _ => true end.

(** The keys after a loop of assignments: each new key is added at the end. *)
Definition add_name (keys : list Py.str) (name : Py.str) : list Py.str :=
  if bool_decide (name ∈ keys) then keys else keys ++ [name].

(** The three name headers stand side by side from [(r, c)] on. *)
Definition headers_at (data_filled : list (list value)) (r c : nat) : Prop :=
  clean_cell (grid_get data_filled r c) = lit "项目名称"
  ∧ clean_cell (grid_get data_filled r (c + 1)) = lit "项目单位"
  ∧ clean_cell (grid_get data_filled r (c + 2)) = lit "主管部门".

(* ===================================================================== *)
(** * Part II: properties                                                 *)
(* ===================================================================== *)

(* --------------------------------------------------------------------- *)
(** ** Logical columns *)
(* --------------------------------------------------------------------- *)

(** The loop of [get_logical_starts_for_row], one iteration unfolded. *)
Lemma scan_logical_starts_step sheet row_num col :
  scan_logical_starts sheet row_num col =
  if col <=? sheet_max_column sheet then
    col :: scan_logical_starts sheet row_num
             (match List.find (covers row_num col) (merged_cells sheet) with
              | Some merged_range => max_col merged_range + 1
              | None => col + 1
              end)
  else [].
Proof.
  funelim (scan_logical_starts sheet row_num col); clear Heqcall;
    repeat match goal with
           | E : ?x = _ |- context [?x] => rewrite E
           end; reflexivity.
Qed.

Lemma covers_spec row_num col m :
  covers row_num col m = true ↔
  (min_row m ≤ row_num ≤ max_row m) ∧ (min_col m ≤ col ≤ max_col m).
Proof.
  unfold covers. rewrite !andb_true_iff, !Nat.leb_le. lia.
Qed.

Section Layout.

Variable sheet : Worksheet.
Variable row_num : nat.

(** The column the scan visits after [col]. *)
Definition next_col (col : nat) : nat :=
  match List.find (covers row_num col) (merged_cells sheet) with
  | Some merged_range => max_col merged_range + 1
  | None => col + 1
  end.

Lemma next_col_gt col : col < next_col col.
Proof.
  unfold next_col.
  destruct (List.find _ _) as [m|] eqn:Hfind; [|lia].
  apply find_some in Hfind as [_ Hc]. apply covers_spec in Hc. lia.
Qed.

(** Induction along the scan: downwards from the last column. *)
Lemma scan_induction (P : nat → Prop) :
  (∀ col, sheet_max_column sheet < col → P col) →
  (∀ col, col ≤ sheet_max_column sheet →
          (∀ col', col < col' → P col') → P col) →
  ∀ col, P col.
Proof.
  intros Hout Hstep col.
  remember (S (sheet_max_column sheet) - col) as n eqn:Hn.
  revert col Hn. induction n as [n IH] using lt_wf_ind. intros col ->.
  destruct (le_lt_dec col (sheet_max_column sheet)) as [Hle|Hgt].
  - apply Hstep; [done|]. intros col' Hlt.
    apply (IH (S (sheet_max_column sheet) - col')); lia.
  - by apply Hout.
Qed.

Lemma scan_bounds col :
  Forall (fun c => col ≤ c ≤ sheet_max_column sheet)
         (scan_logical_starts sheet row_num col).
Proof.
  induction col as [col Hgt|col Hle IH] using scan_induction;
    rewrite scan_logical_starts_step.
  - destruct (Nat.leb_spec col (sheet_max_column sheet)); [lia|constructor].
  - destruct (Nat.leb_spec col (sheet_max_column sheet)); [|lia].
    fold (next_col col). pose proof (next_col_gt col) as Hnext.
    constructor; [lia|].
    eapply Forall_impl; [apply (IH _ Hnext)|]. simpl. lia.
Qed.

Lemma scan_sorted col :
  StronglySorted lt (scan_logical_starts sheet row_num col).
Proof.
  induction col as [col Hgt|col Hle IH] using scan_induction;
    rewrite scan_logical_starts_step.
  - destruct (Nat.leb_spec col (sheet_max_column sheet)); [lia|constructor].
  - destruct (Nat.leb_spec col (sheet_max_column sheet)); [|lia].
    fold (next_col col). pose proof (next_col_gt col) as Hnext.
    constructor; [by apply IH|].
    eapply Forall_impl; [apply scan_bounds|]. simpl. lia.
Qed.


End Layout.



Lemma absolute_col_of_lookup sheet row_num k c :
  get_logical_starts_for_row sheet row_num !! k = Some c →
  get_absolute_col_from_logical_index_for_row sheet row_num (S k) = Some c.
Proof.
  intros Hk. unfold get_absolute_col_from_logical_index_for_row.
  pose proof (lookup_lt_Some _ _ _ Hk) as Hlt.
  destruct (Nat.leb_spec 1 (S k)); [|lia].
  destruct (Nat.leb_spec (S k) (length (get_logical_starts_for_row sheet row_num)));
    [|lia].
  simpl. by rewrite Nat.sub_0_r.
Qed.

Lemma cache_coherent_empty sheet : cache_coherent sheet ∅.
Proof. intros r s. by rewrite lookup_empty. Qed.

Lemma get_logical_starts_for_row_cached_spec cache sheet row_num :
  cache_coherent sheet cache →
  (get_logical_starts_for_row_cached cache sheet row_num).1
    = get_logical_starts_for_row sheet row_num
  ∧ cache_coherent sheet (get_logical_starts_for_row_cached cache sheet row_num).2.
Proof.
  intros Hc. unfold get_logical_starts_for_row_cached.
  destruct (cache !! row_num) as [starts|] eqn:Hlook; simpl.
  - split; [by apply Hc|done].
  - split; [done|]. intros r s. rewrite lookup_insert.
    case_decide; [by intros [= <-]; subst|apply Hc].
Qed.


Lemma find_covers_Some sheet row_num col m :
  List.find (covers row_num col) (merged_cells sheet) = Some m →
  m ∈ merged_cells sheet ∧ covers row_num col m = true.
Proof.
  intros Hfind. apply find_some in Hfind as [Hin Hc].
  split; [by apply list_elem_of_In|done].
Qed.

Lemma find_covers_None sheet row_num col m :
  List.find (covers row_num col) (merged_cells sheet) = None →
  m ∈ merged_cells sheet → covers row_num col m = false.
Proof.
  intros Hfind Hin. eapply find_none; [done|]. by apply list_elem_of_In.
Qed.

Lemma next_col_not_inside sheet row_num col :
  row_merges_disjoint sheet row_num →
  ¬ inside_earlier_merge sheet row_num (next_col sheet row_num col).
Proof.
  intros Hdisj (m' & c0 & Hin' & Hc0 & Hcov0 & Hcov). unfold next_col in *.
  destruct (List.find _ _) as [m|] eqn:Hfind.
  - apply find_covers_Some in Hfind as [Hin Hm].
    assert (covers row_num (max_col m) m = true) as H1.
    { apply covers_spec. apply covers_spec in Hm. lia. }
    assert (covers row_num (max_col m) m' = true) as H2.
    { apply covers_spec. apply covers_spec in Hcov0, Hcov. lia. }
    pose proof (Hdisj _ _ _ Hin Hin' H1 H2) as <-.
    apply covers_spec in Hcov. lia.
  - assert (covers row_num col m' = true) as H2.
    { apply covers_spec. apply covers_spec in Hcov0, Hcov. lia. }
    by rewrite (find_covers_None _ _ _ _ Hfind Hin') in H2.
Qed.

Lemma skipped_inside sheet row_num col c :
  1 ≤ col → col < c < next_col sheet row_num col →
  inside_earlier_merge sheet row_num c.
Proof.
  intros Hcol Hc. unfold next_col in Hc.
  destruct (List.find _ _) as [m|] eqn:Hfind; [|lia].
  apply find_covers_Some in Hfind as [Hin Hm].
  exists m, col. split_and!; [done|lia|lia|done|].
  apply covers_spec. apply covers_spec in Hm. lia.
Qed.

Lemma scan_characterised sheet row_num :
  row_merges_disjoint sheet row_num →
  ∀ col, 1 ≤ col → ¬ inside_earlier_merge sheet row_num col →
  ∀ c, col ≤ c →
       (c ∈ scan_logical_starts sheet row_num col ↔
        c ≤ sheet_max_column sheet ∧ ¬ inside_earlier_merge sheet row_num c).
Proof.
  intros Hdisj col.
  induction col as [col Hgt|col Hle IH] using (scan_induction sheet);
    intros Hcol Hstart c Hc; rewrite scan_logical_starts_step.
  - destruct (Nat.leb_spec col (sheet_max_column sheet)); [lia|].
    rewrite elem_of_nil. lia.
  - destruct (Nat.leb_spec col (sheet_max_column sheet)); [|lia].
    fold (next_col sheet row_num col).
    pose proof (next_col_gt sheet row_num col) as Hnext.
    rewrite elem_of_cons.
    destruct (decide (c = col)) as [->|Hne]; [tauto|].
    destruct (le_lt_dec (next_col sheet row_num col) c) as [Hge|Hlt].
    + rewrite (IH _ Hnext ltac:(lia) (next_col_not_inside _ _ _ Hdisj) c Hge).
      tauto.
    + split.
      * intros [?|Hin]; [done|].
        pose proof (scan_bounds sheet row_num (next_col sheet row_num col)) as Hb.
        rewrite Forall_forall in Hb. apply Hb in Hin. lia.
      * intros [_ Hnot]. destruct Hnot.
        apply (skipped_inside _ _ col); lia.
Qed.

Lemma layout_of_disjoint_merges sheet row_num :
  row_merges_disjoint sheet row_num → layout_characterised sheet row_num.
Proof.
  intros Hdisj c. unfold get_logical_starts_for_row. split.
  - intros Hin.
    pose proof (scan_bounds sheet row_num 1) as Hb.
    rewrite Forall_forall in Hb. pose proof (Hb _ Hin) as Hc.
    split; [done|].
    apply (scan_characterised _ _ Hdisj 1); [lia| |lia|done].
    intros (m & c0 & _ & ? & _). lia.
  - intros [Hc Hnot].
    apply (scan_characterised _ _ Hdisj 1); [lia| |lia|split; [lia|done]].
    intros (m & c0 & _ & ? & _). lia.
Qed.

(** A row whose merged ranges all span columns 2 to 3. *)
Lemma layout_of_merge_2_3 sheet row_num :
  (∃ m, m ∈ merged_cells sheet ∧ meets_row row_num m) →
  (∀ m, m ∈ merged_cells sheet → meets_row row_num m →
        min_col m = 2 ∧ max_col m = 3) →
  4 ≤ sheet_max_column sheet →
  take 3 (get_logical_starts_for_row sheet row_num) = [1; 2; 4].
Proof.
  intros (m0 & Hin0 & Hrow0) Hall Hwide. unfold get_logical_starts_for_row.
  assert (∀ col m, List.find (covers row_num col) (merged_cells sheet) = Some m →
                   2 ≤ col ≤ 3 ∧ max_col m = 3) as Hsome.
  { intros col m Hf. apply find_covers_Some in Hf as [Hin Hc].
    apply covers_spec in Hc as [Hr Hc].
    destruct (Hall m Hin Hr). lia. }
  rewrite scan_logical_starts_step.
  destruct (Nat.leb_spec 1 (sheet_max_column sheet)); [|lia].
  destruct (List.find (covers row_num 1) _) as [m|] eqn:H1.
  { apply Hsome in H1. lia. }
  simpl. rewrite scan_logical_starts_step.
  destruct (Nat.leb_spec 2 (sheet_max_column sheet)); [|lia].
  destruct (List.find (covers row_num 2) _) as [m|] eqn:H2.
  - apply Hsome in H2 as [_ ->]. simpl.
    rewrite scan_logical_starts_step.
    by destruct (Nat.leb_spec 4 (sheet_max_column sheet)); [|lia].
  - assert (covers row_num 2 m0 = true) as Hc.
    { apply covers_spec. destruct (Hall m0 Hin0 Hrow0). unfold meets_row in *. lia. }
    by rewrite (find_covers_None _ _ _ _ H2 Hin0) in Hc.
Qed.

(** On a row where no two merged ranges overlap, a column is a logical
    slot exactly when it does not lie inside a merge region of that row
    started at an earlier column.  On any row whose merges all span columns
    2 to 3, in a sheet at least 4 columns wide, the logical starts begin
    [1; 2; 4]. *)
Theorem logical_starts_layout (sheet : Worksheet) (row_num : nat) :
  (row_merges_disjoint sheet row_num → layout_characterised sheet row_num)
  ∧ ((∃ m, m ∈ merged_cells sheet ∧ meets_row row_num m) →
     (∀ m, m ∈ merged_cells sheet → meets_row row_num m →
           min_col m = 2 ∧ max_col m = 3) →
     4 ≤ sheet_max_column sheet →
     take 3 (get_logical_starts_for_row sheet row_num) = [1; 2; 4]).
Proof.
  split.
  - apply layout_of_disjoint_merges.
  - apply layout_of_merge_2_3.
Qed.

(* --------------------------------------------------------------------- *)
(** ** Forward fill *)
(* --------------------------------------------------------------------- *)

Lemma lookup_map {A B} (f : A → B) (l : list A) i :
  map f l !! i = f <$> l !! i.
Proof. revert i. induction l as [|x l IH]; intros [|i]; simpl; auto. Qed.

Lemma is_filled_spec x : is_filled x = true ↔ clean_cell x ≠ [].
Proof.
  unfold is_filled. rewrite andb_true_iff, !negb_true_iff, bool_decide_eq_false.
  split; [tauto|]. intros Hx. split; [|done]. by destruct x.
Qed.

Lemma carry_ext g g' c k :
  (∀ r, grid_get g r c = grid_get g' r c) → carry g c k = carry g' c k.
Proof. intros Heq. induction k as [|k IH]; simpl; [done|]. by rewrite Heq, IH. Qed.

Lemma filled_value_ext g g' c r :
  (∀ r, grid_get g r c = grid_get g' r c) → filled_value g c r = filled_value g' c r.
Proof.
  intros Heq. unfold filled_value. by rewrite Heq, (carry_ext _ _ _ _ Heq).
Qed.

(** The carried value is the nearest filled cell above. *)
Lemma carry_nearest g c k :
  (is_None (carry g c k) = false ∧
   ∃ r', r' < k ∧ is_filled (grid_get g r' c) = true
         ∧ (∀ r'', r' < r'' < k → is_filled (grid_get g r'' c) = false)
         ∧ carry g c k = grid_get g r' c)
  ∨ (is_None (carry g c k) = true
     ∧ ∀ r', r' < k → is_filled (grid_get g r' c) = false).
Proof.
  induction k as [|k IH]; simpl.
  - right. split; [done|]. lia.
  - destruct (is_filled (grid_get g k c)) eqn:Hk.
    + left. split.
      { unfold is_filled in Hk. apply andb_true_iff in Hk as [Hk _].
        by apply negb_true_iff in Hk. }
      exists k. split_and!; [lia|done| |done]. lia.
    + destruct IH as [[Hn (r' & Hr' & Hf & Hbetween & Heq)]|[Hn Hall]].
      * left. split; [done|]. exists r'. split_and!; [lia|done| |done].
        intros r'' Hr''. destruct (decide (r'' = k)) as [->|]; [done|].
        apply Hbetween. lia.
      * right. split; [done|]. intros r' Hr'.
        destruct (decide (r' = k)) as [->|]; [done|]. apply Hall. lia.
Qed.

Lemma grid_get_set grid n r c v r' c' :
  rectangular n grid → r < length grid → c < n →
  grid_get (grid_set grid r c v) r' c'
  = if decide (r' = r ∧ c' = c) then v else grid_get grid r' c'.
Proof.
  intros Hrect Hr Hc. unfold grid_get, grid_set.
  destruct (decide (r' = r)) as [->|Hne].
  - rewrite list_lookup_alter_eq.
    destruct (lookup_lt_is_Some_2 grid r Hr) as [row Hrow]. rewrite Hrow. simpl.
    assert (length row = n) as Hlen.
    { unfold rectangular in Hrect. rewrite Forall_forall in Hrect.
      apply Hrect. by eapply list_elem_of_lookup_2. }
    destruct (decide (c' = c)) as [->|Hnc].
    + rewrite list_lookup_insert_eq by lia.
      by destruct (decide _) as [|[]].
    + rewrite list_lookup_insert_ne by done.
      destruct (decide _) as [[_ ?]|]; [done|done].
  - rewrite list_lookup_alter_ne by done.
    destruct (decide _) as [[? _]|]; [done|done].
Qed.

Lemma grid_set_rectangular grid n r c v :
  rectangular n grid → rectangular n (grid_set grid r c v).
Proof.
  intros Hrect. unfold rectangular, grid_set.
  apply Forall_alter; [done|]. intros row Hrow. by rewrite length_insert.
Qed.

Lemma grid_set_length grid r c v : length (grid_set grid r c v) = length grid.
Proof. apply length_alter. Qed.

Ltac grid_cases :=
  repeat case_decide; destruct_and?; subst;
  try done; try lia; try (exfalso; lia).

(** The state of the inner loop after the rows below [k] have been done. *)
Lemma ffill_rows_spec grid n c k :
  rectangular n grid → c < n → k ≤ length grid →
  ∃ out,
    fold_left (ffill_step c) (seq 0 k) (VNone, grid) = (carry grid c k, out)
    ∧ rectangular n out ∧ length out = length grid
    ∧ ∀ r c', grid_get out r c'
              = if decide (c' = c ∧ r < k) then filled_value grid c r
                else grid_get grid r c'.
Proof.
  intros Hrect Hc. induction k as [|k IH]; intros Hk.
  - exists grid. split_and!; [done..|]. intros r c'. grid_cases.
  - destruct IH as (out & Hfold & Hrout & Hlen & Hget); [lia|].
    rewrite seq_S, fold_left_app, Hfold. simpl.
    assert (grid_get out k c = grid_get grid k c) as Hcur.
    { rewrite Hget. grid_cases. }
    rewrite Hcur.
    destruct (is_filled (grid_get grid k c)) eqn:Hfill.
    + exists out. split_and!; [done..|]. intros r c'. rewrite Hget.
      grid_cases. assert (r = k) as -> by lia.
      unfold filled_value. by rewrite Hfill.
    + destruct (is_None (carry grid c k)) eqn:Hnone; simpl.
      * exists out. split_and!; [done..|]. intros r c'. rewrite Hget.
        grid_cases. assert (r = k) as -> by lia.
        unfold filled_value. by rewrite Hfill, Hnone.
      * exists (grid_set out k c (carry grid c k)).
        split_and!; [done|by apply grid_set_rectangular
                    |by rewrite grid_set_length|].
        intros r c'. rewrite (grid_get_set _ n) by (done || lia).
        rewrite Hget. grid_cases.
        unfold filled_value. by rewrite Hfill, Hnone.
Qed.

Lemma ffill_column_spec grid n c :
  rectangular n grid → c < n →
  rectangular n (ffill_column grid c)
  ∧ length (ffill_column grid c) = length grid
  ∧ ∀ r c', grid_get (ffill_column grid c) r c'
            = if decide (c' = c ∧ r < length grid) then filled_value grid c r
              else grid_get grid r c'.
Proof.
  intros Hrect Hc. unfold ffill_column.
  by destruct (ffill_rows_spec grid n c (length grid) Hrect Hc)
    as (out & -> & Hrout & Hlen & Hget).
Qed.

(** The state of the outer loop after the columns below [j] have been done. *)
Lemma ffill_columns_spec grid n j :
  rectangular n grid → j ≤ n →
  rectangular n (fold_left ffill_column (seq 0 j) grid)
  ∧ length (fold_left ffill_column (seq 0 j) grid) = length grid
  ∧ ∀ r c, grid_get (fold_left ffill_column (seq 0 j) grid) r c
           = if decide (c < j ∧ r < length grid) then filled_value grid c r
             else grid_get grid r c.
Proof.
  intros Hrect. induction j as [|j IH]; intros Hj.
  - split_and!; [done..|]. intros r c. grid_cases.
  - destruct IH as (Hr & Hlen & Hget); [lia|].
    rewrite seq_S, fold_left_app. simpl.
    destruct (ffill_column_spec _ n j Hr ltac:(lia)) as (Hr' & Hlen' & Hget').
    split_and!; [done|congruence|]. intros r c. rewrite Hget', Hlen, Hget.
    grid_cases. apply filled_value_ext. intros r'. rewrite Hget. grid_cases.
Qed.

Lemma pad_row_length n row : length row ≤ n → length (pad_row n row) = n.
Proof. intros. unfold pad_row. rewrite length_app, length_replicate. lia. Qed.

Lemma max_list_ge (l : list nat) x : x ∈ l → x ≤ max_list l.
Proof.
  induction l as [|y l IH]; [by rewrite elem_of_nil|].
  rewrite elem_of_cons. simpl. intros [->|Hin]; [lia|]. apply IH in Hin. lia.
Qed.

Lemma padded_rectangular data :
  rectangular (max_list (map length data))
              (map (pad_row (max_list (map length data))) data).
Proof.
  unfold rectangular. rewrite Forall_forall. intros row Hrow.
  apply list_elem_of_In, in_map_iff in Hrow as (row0 & <- & Hin).
  apply pad_row_length, max_list_ge, list_elem_of_In, in_map. done.
Qed.

(** Padding a short row adds cells holding [None], which is also what an
    absent cell reads as. *)
Lemma grid_get_padded n data r c :
  grid_get (map (pad_row n) data) r c = grid_get data r c.
Proof.
  unfold grid_get. rewrite lookup_map.
  destruct (data !! r) as [row|]; simpl; [|done]. unfold pad_row.
  destruct (le_lt_dec (length row) c) as [Hge|Hlt].
  - rewrite lookup_app_r by done. rewrite (lookup_ge_None_2 row c Hge). simpl.
    destruct (replicate _ _ !! _) as [x|] eqn:Hx; simpl; [|done].
    by apply lookup_replicate_1 in Hx as [-> _].
  - by rewrite lookup_app_l.
Qed.

Lemma grid_get_outside_columns data r c :
  max_list (map length data) ≤ c → grid_get data r c = VNone.
Proof.
  intros Hc. unfold grid_get.
  destruct (data !! r) as [row|] eqn:Hrow; simpl; [|done].
  rewrite lookup_ge_None_2; [done|].
  assert (length row ≤ max_list (map length data)); [|lia].
  apply max_list_ge, list_elem_of_In, in_map, list_elem_of_In.
  by eapply list_elem_of_lookup_2.
Qed.

Lemma carry_blank_column g c k :
  (∀ r, grid_get g r c = VNone) → carry g c k = VNone.
Proof. intros Hall. induction k as [|k IH]; simpl; [done|]. by rewrite Hall. Qed.

(** What [manual_ffill] returns, cell by cell. *)
Lemma manual_ffill_spec data r c :
  length (manual_ffill data) = length data
  ∧ grid_get (manual_ffill data) r c
    = if decide (r < length data) then filled_value data c r
      else grid_get data r c.
Proof.
  destruct data as [|row0 data']; [split; [done|simpl; grid_cases]|].
  unfold manual_ffill. set (data := row0 :: data').
  set (n := max_list (map length data)).
  destruct (ffill_columns_spec _ n n (padded_rectangular data) (le_n _))
    as (_ & Hlen & Hget).
  rewrite length_map in Hlen, Hget. split; [done|].
  rewrite Hget, grid_get_padded.
  rewrite (filled_value_ext _ data) by (intros; apply grid_get_padded).
  grid_cases.
  unfold filled_value.
  assert (∀ r', grid_get data r' c = VNone) as Hcol.
  { intros r'. apply grid_get_outside_columns. fold n. lia. }
  by rewrite Hcol, (carry_blank_column _ _ _ Hcol).
Qed.

(** C7: after forward fill, a cell that was not blank is unchanged, and a
    cell that was blank (empty once whitespace is stripped) equals the
    nearest non-blank cell above it in its column, or is left as it was when
    no cell above it is non-blank. *)
Theorem manual_ffill_nearest_above (data : list (list value)) (r c : nat) :
  r < length data →
  (clean_cell (grid_get data r c) ≠ [] →
   grid_get (manual_ffill data) r c = grid_get data r c)
  ∧ (clean_cell (grid_get data r c) = [] →
     (∃ r', r' < r
            ∧ clean_cell (grid_get data r' c) ≠ []
            ∧ (∀ r'', r' < r'' < r → clean_cell (grid_get data r'' c) = [])
            ∧ grid_get (manual_ffill data) r c = grid_get data r' c)
     ∨ ((∀ r', r' < r → clean_cell (grid_get data r' c) = [])
        ∧ grid_get (manual_ffill data) r c = grid_get data r c)).
Proof.
  intros Hr. destruct (manual_ffill_spec data r c) as [_ Hget].
  rewrite Hget. destruct (decide _) as [_|]; [|lia]. clear Hget.
  unfold filled_value. split.
  - intros Hfilled. apply is_filled_spec in Hfilled. by rewrite Hfilled.
  - intros Hblank.
    assert (is_filled (grid_get data r c) = false) as ->.
    { apply not_true_is_false. by intros Hf%is_filled_spec. }
    destruct (carry_nearest data c r)
      as [[Hn (r' & Hr' & Hf & Hbetween & Heq)]|[Hn Hall]]; rewrite Hn; simpl.
    + left. exists r'. split_and!; [done|by apply is_filled_spec| |done].
      intros r'' Hr''. specialize (Hbetween r'' Hr'').
      destruct (decide (clean_cell (grid_get data r'' c) = [])) as [|Hne]; [done|].
      apply is_filled_spec in Hne. congruence.
    + right. split; [|done]. intros r' Hr'. specialize (Hall r' Hr').
      destruct (decide (clean_cell (grid_get data r' c) = [])) as [|Hne]; [done|].
      apply is_filled_spec in Hne. congruence.
Qed.

(* --------------------------------------------------------------------- *)
(** ** Dictionaries *)
(* --------------------------------------------------------------------- *)

Ltac literals_differ :=
  match goal with
  | |- ?P => apply (bool_decide_unpack P); vm_compute; exact I
  end.

Lemma str_eqb_eq a b : str_eqb a b = true ↔ a = b.
Proof. unfold str_eqb. apply bool_decide_eq_true. Qed.

Lemma str_eqb_refl a : str_eqb a a = true.
Proof. by apply str_eqb_eq. Qed.

Lemma str_eqb_ne a b : a ≠ b → str_eqb a b = false.
Proof. intros. unfold str_eqb. by apply bool_decide_eq_false. Qed.

Lemma dict_get_set d k v k' :
  dict_get (dict_set d k v) k' = if decide (k = k') then Some v else dict_get d k'.
Proof.
  induction d as [|[k0 v0] d IH]; simpl.
  - destruct (decide (k = k')) as [->|Hne];
      [by rewrite str_eqb_refl|by rewrite str_eqb_ne].
  - destruct (str_eqb k0 k) eqn:Hk0; simpl.
    + apply str_eqb_eq in Hk0 as ->.
      destruct (decide (k = k')) as [->|Hne];
        [by rewrite str_eqb_refl|by rewrite str_eqb_ne].
    + rewrite IH. destruct (str_eqb k0 k') eqn:Hk0'; [|done].
      apply str_eqb_eq in Hk0' as ->.
      destruct (decide (k = k')) as [->|Hne]; [|done].
      by rewrite str_eqb_refl in Hk0.
Qed.

Lemma dict_get_set_eq d k v : dict_get (dict_set d k v) k = Some v.
Proof. rewrite dict_get_set. by destruct (decide (k = k)). Qed.

Lemma dict_get_set_ne d k v k' :
  k ≠ k' → dict_get (dict_set d k v) k' = dict_get d k'.
Proof. intros. rewrite dict_get_set. by destruct (decide (k = k')). Qed.

Lemma dict_get_del d k k' :
  dict_get (dict_del d k) k' = if decide (k = k') then None else dict_get d k'.
Proof.
  induction d as [|[k0 v0] d IH]; simpl; [by destruct (decide _)|].
  destruct (str_eqb k0 k) eqn:Hk0; simpl.
  - apply str_eqb_eq in Hk0 as ->. rewrite IH.
    destruct (decide (k = k')) as [->|Hne]; [done|by rewrite str_eqb_ne].
  - rewrite IH. destruct (str_eqb k0 k') eqn:Hk0'; [|done].
    apply str_eqb_eq in Hk0' as ->.
    destruct (decide (k = k')) as [->|Hne]; [|done].
    by rewrite str_eqb_refl in Hk0.
Qed.

(** [d.update(e)] reads as [e] where [e] has the key and as [d] elsewhere. *)
Lemma dict_get_update d e k :
  dict_get (dict_update d e) k
  = match dict_get (dict_update [] e) k with
    | Some v => Some v
    | None => dict_get d k
    end.
Proof.
  unfold dict_update. revert d.
  induction e as [|[k0 v0] e IH] using rev_ind; intros d; [done|].
  rewrite !fold_left_app. simpl. rewrite !dict_get_set.
  destruct (decide (k0 = k)); [done|]. apply IH.
Qed.

(* --------------------------------------------------------------------- *)
(** ** The special field of a base row *)
(* --------------------------------------------------------------------- *)

Lemma rev_seq_S n : rev (seq 1 (S n)) = S n :: rev (seq 1 n).
Proof. by rewrite seq_S, rev_app_distr. Qed.

Lemma scan_expected_return_spec sheet row n :
  (∃ c, 1 ≤ c ≤ n
        ∧ bordered_with_value (cell sheet row c) = true
        ∧ (∀ c', c < c' ≤ n → bordered_with_value (cell sheet row c') = false)
        ∧ scan_expected_return sheet row (rev (seq 1 n)) = value_of (cell sheet row c))
  ∨ ((∀ c, 1 ≤ c ≤ n → bordered_with_value (cell sheet row c) = false)
     ∧ scan_expected_return sheet row (rev (seq 1 n)) = VNone).
Proof.
  induction n as [|n IH].
  - right. split; [lia|done].
  - rewrite rev_seq_S. simpl. fold (bordered_with_value (cell sheet row (S n))).
    destruct (bordered_with_value (cell sheet row (S n))) eqn:Hlast.
    + left. exists (S n). split_and!; [lia|lia|done|lia|done].
    + destruct IH as [(c & Hc & Hgood & Hafter & Heq)|[Hnone Heq]].
      * left. exists c. split_and!; [lia|lia|done| |done].
        intros c' Hc'. destruct (decide (c' = S n)) as [->|]; [done|].
        apply Hafter. lia.
      * right. split; [|done]. intros c Hc.
        destruct (decide (c = S n)) as [->|]; [done|]. apply Hnone. lia.
Qed.

Lemma base_row_special sheet data_original data_filled start cols i record :
  base_row sheet data_original data_filled start cols i = Some record →
  dict_get record SPECIAL_COL_NAME
  = Some (scan_expected_return sheet (i + 1) (columns_right_to_left sheet)).
Proof.
  unfold base_row. destruct (clean_cell _); [done|].
  intros [= <-]. apply dict_get_set_eq.
Qed.

Lemma elem_of_omap_seq {A} (f : nat → option A) (x : A) start len :
  x ∈ omap f (seq start len) → ∃ i, start ≤ i < start + len ∧ f i = Some x.
Proof.
  intros Hin. apply list_elem_of_omap in Hin as (i & Hi & Hf).
  exists i. split; [|done]. apply list_elem_of_In, in_seq in Hi. lia.
Qed.

(** The data rows behind the records of [extract_base_data]. *)
Lemma extract_base_data_rows sheet record :
  record ∈ extract_base_data sheet →
  ∃ data_filled start cols i,
    1 ≤ i < sheet_max_row sheet
    ∧ base_row sheet (sheet_values sheet) data_filled start cols i = Some record.
Proof.
  unfold extract_base_data.
  destruct (find_header _) as [[header_row_idx header_col_start_idx]|];
    [|by rewrite elem_of_nil].
  intros (i & Hi & Hrow)%elem_of_omap_seq.
  eexists _, _, _, i. split; [lia|done].
Qed.

(** *** The fields of a base row *)

Lemma assign_keys_get {E} (key : E → Py.str) (val : E → value) (l : list E)
    (d : Py.dict) (k : Py.str) :
  k ∉ map key l →
  dict_get (fold_left (fun d e => dict_set d (key e) (val e)) l d) k = dict_get d k.
Proof.
  revert d. induction l as [|e l IH]; intros d Hk; cbn [fold_left]; [done|].
  cbn [map] in Hk. apply not_elem_of_cons in Hk as [Hne Hk].
  rewrite IH by done. by rewrite dict_get_set_ne.
Qed.

Lemma assign_keys_present {E} (key : E → Py.str) (val : E → value) (l : list E)
    (d : Py.dict) (k : Py.str) :
  k ∈ map key l ∨ is_Some (dict_get d k) →
  is_Some (dict_get (fold_left (fun d e => dict_set d (key e) (val e)) l d) k).
Proof.
  revert d. induction l as [|e l IH]; intros d Hk; cbn [fold_left].
  { destruct Hk as [Hk|Hk]; [by apply elem_of_nil in Hk|done]. }
  apply IH. cbn [map] in Hk. rewrite dict_get_set.
  destruct (decide (key e = k)) as [Heq|Hne]; [right; by eexists|].
  destruct Hk as [[?|?]%elem_of_cons|?]; [congruence|by left|by right].
Qed.

Lemma headers_with_offsets :
  imap pair HEADERS_TO_FIND
  = [(0, PROJECT_NAME_KEY); (1, lit "项目单位"); (2, lit "主管部门")].
Proof. vm_compute. reflexivity. Qed.

Lemma data_names_with_offsets :
  map snd (imap pair DATA_COL_NAMES) = DATA_COL_NAMES.
Proof. vm_compute. reflexivity. Qed.

(** The name of a base record is the name cell of its row, which is not
    blank, and the record has the name-block, data and special keys. *)
Lemma base_row_fields sheet data_original data_filled start cols i record :
  base_row sheet data_original data_filled start cols i = Some record →
  dict_get record PROJECT_NAME_KEY = Some (grid_get data_filled i start)
  ∧ clean_cell (grid_get data_filled i start) ≠ []
  ∧ ∀ key, key ∈ HEADERS_TO_FIND ++ DATA_COL_NAMES ++ [SPECIAL_COL_NAME] →
           is_Some (dict_get record key).
Proof.
  unfold base_row.
  destruct (clean_cell (grid_get data_filled i start)) as [|ch name] eqn:Hname;
    [done|].
  intros Hrecord%(inj Some). subst record. rewrite headers_with_offsets.
  set (found := fold_left _ cols []).
  set (with_data := fold_left _ (imap pair DATA_COL_NAMES) _).
  assert (∀ key, key ∈ HEADERS_TO_FIND ++ DATA_COL_NAMES →
            is_Some (dict_get with_data key)) as Hkeys.
  { intros key Hkey. subst with_data.
    apply (assign_keys_present
             (@snd nat Py.str)
             (fun entry : nat * Py.str =>
                let col_idx := start + length HEADERS_TO_FIND + entry.1 in
                if col_idx <? length (default [] (data_original !! i))
                then grid_get data_original i col_idx else VNone)).
    apply elem_of_app in Hkey as [Hkey|Hkey].
    - right.
      apply (assign_keys_present
               (@snd nat Py.str)
               (fun entry : nat * Py.str => grid_get data_filled i (start + entry.1))).
      left. exact Hkey.
    - left. rewrite data_names_with_offsets. exact Hkey. }
  split_and!.
  - rewrite dict_get_set_ne by literals_differ. subst with_data.
    rewrite (assign_keys_get
               (@snd nat Py.str)
               (fun entry : nat * Py.str =>
                  let col_idx := start + length HEADERS_TO_FIND + entry.1 in
                  if col_idx <? length (default [] (data_original !! i))
                  then grid_get data_original i col_idx else VNone)).
    + cbn [fold_left fst snd].
      rewrite dict_get_set_ne by literals_differ.
      rewrite dict_get_set_ne by literals_differ.
      rewrite Nat.add_0_r. apply dict_get_set_eq.
    + rewrite data_names_with_offsets. literals_differ.
  - done.
  - intros key Hkey. rewrite app_assoc in Hkey.
    apply elem_of_app in Hkey as [Hkey|Hkey%list_elem_of_singleton].
    + rewrite dict_get_set. destruct (decide _); [by eexists|by apply Hkeys].
    + subst key. rewrite dict_get_set_eq. by eexists.
Qed.

(** C8 (amended): the base records are the records of the rows below the
    header row that have a project name, in the order of the rows.  The
    record of a row takes its name from that row, and its special field is
    the value of the first cell, scanning that same row from the sheet's
    last column to the left, that has a border and holds a value; the
    special field is [None] when the row has no such cell. *)
Theorem special_field_last_bordered_value (sheet : Worksheet)
    (header_row_idx header_col_start_idx : nat) :
  let data_original := sheet_values sheet in
  let data_filled := manual_ffill data_original in
  let found_cols_map :=
    find_cols (map clean_cell (default [] (data_filled !! header_row_idx))) in
  let row_record :=
    base_row sheet data_original data_filled header_col_start_idx found_cols_map in
  find_header data_filled = Some (header_row_idx, header_col_start_idx) →
  extract_base_data sheet
  = omap row_record
      (seq (header_row_idx + 1) (sheet_max_row sheet - (header_row_idx + 1)))
  ∧ ∀ i record,
      row_record i = Some record →
      dict_get record PROJECT_NAME_KEY
      = Some (grid_get data_filled i header_col_start_idx)
      ∧ let row := i + 1 in
        (∃ c, 1 ≤ c ≤ sheet_max_column sheet
              ∧ has_border (cell sheet row c) = true
              ∧ value_of (cell sheet row c) ≠ VNone
              ∧ (∀ c', c < c' ≤ sheet_max_column sheet →
                       has_border (cell sheet row c') = true →
                       value_of (cell sheet row c') = VNone)
              ∧ dict_get record SPECIAL_COL_NAME
                = Some (value_of (cell sheet row c)))
        ∨ ((∀ c, 1 ≤ c ≤ sheet_max_column sheet →
                 has_border (cell sheet row c) = true →
                 value_of (cell sheet row c) = VNone)
           ∧ dict_get record SPECIAL_COL_NAME = Some VNone).
Proof.
  intros data_original data_filled found_cols_map row_record Hheader. split.
  { unfold extract_base_data. fold data_original. cbv zeta. fold data_filled.
    rewrite Hheader. reflexivity. }
  intros i record Hrow. subst row_record. cbv beta in Hrow.
  destruct (base_row_fields _ _ _ _ _ _ _ Hrow) as (Hname & _ & _).
  split; [exact Hname|]. cbv zeta.
  rewrite (base_row_special _ _ _ _ _ _ _ Hrow). unfold columns_right_to_left.
  assert (∀ x, bordered_with_value x = false →
               has_border x = true → value_of x = VNone) as Hbad.
  { unfold bordered_with_value. intros x Hx Hb. rewrite Hb in Hx. simpl in Hx.
    apply negb_false_iff in Hx. by destruct (value_of x). }
  destruct (scan_expected_return_spec sheet (i + 1) (sheet_max_column sheet))
    as [(c & Hc & Hgood & Hafter & ->)|[Hnone ->]].
  - left. exists c. unfold bordered_with_value in Hgood.
    apply andb_true_iff in Hgood as [Hb Hv]. apply negb_true_iff in Hv.
    split_and!; [lia|lia|done| | |done].
    + intros Heq. by rewrite Heq in Hv.
    + intros c' Hc'. apply Hbad. by apply Hafter.
  - right. split; [|done]. intros c Hc. apply Hbad. by apply Hnone.
Qed.

(* --------------------------------------------------------------------- *)
(** ** The forward walk from an anchor *)
(* --------------------------------------------------------------------- *)

Lemma next_bordered_step sheets k s r :
  next_bordered sheets k s r =
  match sheets !! s with
  | None => (None, s, r)
  | Some sh =>
    if sheet_max_row sh <? r then next_bordered sheets k (S s) 1
    else
      match get_absolute_col_from_logical_index_for_row sh r k with
      | None => next_bordered sheets k s (S r)
      | Some c =>
        if has_border (cell sh r c)
        then (Some (value_of (cell sh r c)), s, S r)
        else next_bordered sheets k s (S r)
      end
  end.
Proof.
  funelim (next_bordered sheets k s r); clear Heqcall;
    repeat match goal with
           | E : ?x = _ |- context [?x] => rewrite E
           end; reflexivity.
Qed.

Lemma rows_from_end sheets s r :
  sheets !! s = None → rows_from sheets s r = [].
Proof. intros H. unfold rows_from. by rewrite H. Qed.

Lemma rows_from_next_sheet sheets s r sh :
  sheets !! s = Some sh → sheet_max_row sh < r →
  rows_from sheets s r = rows_from sheets (S s) 1.
Proof.
  intros Hs Hr. unfold rows_from. rewrite Hs.
  replace (S (sheet_max_row sh) - r) with 0 by lia. simpl.
  destruct (sheets !! S s) as [sh'|] eqn:Hs'.
  - rewrite (drop_S _ _ _ Hs'). simpl. by rewrite Nat.sub_0_r.
  - by rewrite drop_ge by (by apply lookup_ge_None).
Qed.

Lemma rows_from_next_row sheets s r sh :
  sheets !! s = Some sh → r ≤ sheet_max_row sh →
  rows_from sheets s r = (s, r) :: rows_from sheets s (S r).
Proof.
  intros Hs Hr. unfold rows_from. rewrite Hs.
  replace (S (sheet_max_row sh) - r) with (S (S (sheet_max_row sh) - S r)) by lia.
  done.
Qed.

Lemma omap_cons {A B} (f : A → option B) x l :
  omap f (x :: l)
  = match f x with Some y => y :: omap f l | None => omap f l end.
Proof. done. Qed.

Lemma bordered_value_at_row sheets k s r sh :
  sheets !! s = Some sh →
  bordered_value_at sheets k (s, r)
  = match get_absolute_col_from_logical_index_for_row sh r k with
    | Some c =>
      if has_border (cell sh r c) then Some (value_of (cell sh r c)) else None
    | None => None
    end.
Proof. intros Hs. unfold bordered_value_at. simpl. by rewrite Hs. Qed.

(** Induction along the walk. *)
Lemma walk_induction (sheets : list Worksheet) (P : nat → nat → Prop) :
  (∀ s r, sheets !! s = None → P s r) →
  (∀ s r sh, sheets !! s = Some sh → sheet_max_row sh < r → P (S s) 1 → P s r) →
  (∀ s r sh, sheets !! s = Some sh → r ≤ sheet_max_row sh → P s (S r) → P s r) →
  ∀ s r, P s r.
Proof.
  intros Hend Hsheet Hrow s r.
  remember (walk_measure sheets s r) as n eqn:Hn.
  revert s r Hn. induction n as [n IH] using lt_wf_ind. intros s r ->.
  destruct (sheets !! s) as [sh|] eqn:Hs; [|by apply Hend].
  destruct (le_lt_dec r (sheet_max_row sh)) as [Hle|Hgt].
  - apply (Hrow _ _ sh); [done..|].
    apply (IH (walk_measure sheets s (S r))); [|done].
    unfold walk_measure. rewrite Hs. lia.
  - apply (Hsheet _ _ sh); [done..|].
    apply (IH (walk_measure sheets (S s) 1)); [|done].
    unfold walk_measure. rewrite Hs.
    destruct (sheets !! S s) as [sh'|] eqn:Hs'; [|lia].
    rewrite (drop_S _ _ _ Hs'). simpl. lia.
Qed.

(** One search of the walk: it returns the first bordered value below the
    cursor and leaves the cursor just after it, or returns nothing with the
    sheet sequence exhausted when there is none. *)
Lemma next_bordered_spec sheets k s r :
  ∃ s' r',
    next_bordered sheets k s r = (head (bordered_values_from sheets k s r), s', r')
    ∧ bordered_values_from sheets k s' r' = tail (bordered_values_from sheets k s r).
Proof.
  unfold bordered_values_from. revert s r.
  apply (walk_induction sheets);
    [intros s r Hs|intros s r sh Hs Hr IH|intros s r sh Hs Hr IH];
    rewrite next_bordered_step, Hs.
  - exists s, r. by rewrite rows_from_end.
  - destruct (Nat.ltb_spec (sheet_max_row sh) r); [|lia].
    by rewrite (rows_from_next_sheet _ _ _ _ Hs Hr).
  - destruct (Nat.ltb_spec (sheet_max_row sh) r); [lia|].
    rewrite (rows_from_next_row _ _ _ _ Hs Hr), omap_cons.
    rewrite (bordered_value_at_row _ _ _ _ _ Hs).
    destruct (get_absolute_col_from_logical_index_for_row sh r k) as [c|];
      [|exact IH].
    destruct (has_border (cell sh r c)); [|exact IH].
    by exists s, (S r).
Qed.

(** The loop over the field names: the [i]-th name is given the [i]-th
    bordered value below the cursor, or [None] when there are fewer. *)
Lemma extract_fields_spec sheets k names :
  NoDup names →
  ∀ d s r, ∃ d' s' r',
    extract_fields sheets k names (d, s, r) = (d', s', r')
    ∧ (∀ i name, names !! i = Some name →
         dict_get d' name
         = Some (default VNone (bordered_values_from sheets k s r !! i)))
    ∧ (∀ key, key ∉ names → dict_get d' key = dict_get d key).
Proof.
  unfold extract_fields.
  induction names as [|name names IH]; intros Hnd d s r.
  - exists d, s, r. split_and!; [done| |done]. intros i name. by rewrite lookup_nil.
  - apply NoDup_cons in Hnd as [Hnotin Hnd]. simpl.
    destruct (next_bordered_spec sheets k s r) as (s1 & r1 & -> & Htail).
    destruct (IH Hnd (dict_set d name
                (default VNone (head (bordered_values_from sheets k s r)))) s1 r1)
      as (d' & s' & r' & Hfold & Hnames & Hother).
    exists d', s', r'. split_and!; [done| |].
    + intros [|i] name' Hi; simpl in Hi.
      * injection Hi as <-. rewrite (Hother _ Hnotin), dict_get_set_eq.
        by rewrite head_lookup.
      * rewrite (Hnames _ _ Hi), Htail. by rewrite lookup_tail.
    + intros key Hkey. apply not_elem_of_cons in Hkey as [Hne Hkey].
      by rewrite (Hother _ Hkey), dict_get_set_ne.
Qed.

(** The bounded scan for the additional label touches no other key. *)
Lemma scan_additional_other n sheets s r d key :
  key ≠ ADDITIONAL_VAR_NAME →
  dict_get (scan_additional n sheets s r d) key = dict_get d key.
Proof.
  intros Hne. revert s r. induction n as [|n IH]; intros s r; simpl; [done|].
  destruct (sheets !! s) as [sh|]; [|done].
  destruct (_ <? _); [apply IH|].
  destruct (get_absolute_col_from_logical_index_for_row sh r 1); [|apply IH].
  destruct (get_absolute_col_from_logical_index_for_row sh r 2); [|apply IH].
  destruct (_ && _); [|apply IH].
  by rewrite dict_get_set_ne.
Qed.

Lemma scan_additional_present n sheets s r d :
  is_Some (dict_get d ADDITIONAL_VAR_NAME) →
  is_Some (dict_get (scan_additional n sheets s r d) ADDITIONAL_VAR_NAME).
Proof.
  intros Hd. revert s r. induction n as [|n IH]; intros s r; simpl; [done|].
  destruct (sheets !! s) as [sh|]; [|done].
  destruct (_ <? _); [apply IH|].
  destruct (get_absolute_col_from_logical_index_for_row sh r 1); [|apply IH].
  destruct (get_absolute_col_from_logical_index_for_row sh r 2); [|apply IH].
  destruct (_ && _); [|apply IH].
  rewrite dict_get_set_eq. by eexists.
Qed.

Lemma EXTENDED_VAR_NAMES_NoDup : NoDup EXTENDED_VAR_NAMES.
Proof. apply (bool_decide_unpack (NoDup EXTENDED_VAR_NAMES)). by vm_compute. Qed.

Lemma ADDITIONAL_not_EXTENDED : ADDITIONAL_VAR_NAME ∉ EXTENDED_VAR_NAMES.
Proof.
  apply (bool_decide_unpack (ADDITIONAL_VAR_NAME ∉ EXTENDED_VAR_NAMES)).
  by vm_compute.
Qed.

(** C9: extraction from an anchor always returns; each extended field is
    the next bordered value of the walk, and a field for which the walk
    runs out of sheets before a bordered value cell is found (fewer than
    [i + 1] such cells lie below the anchor, in walk order) is recorded as
    [None]; the additional field is always present in the result. *)
Theorem exhausted_fields_absent (sheets : list Worksheet)
    (start_s_idx start_r value_logical_index i : nat) (var_name : Py.str) :
  EXTENDED_VAR_NAMES !! i = Some var_name →
  let found :=
    bordered_values_from sheets value_logical_index start_s_idx (start_r + 1) in
  let extracted_vars :=
    extract_vars_from_anchor
      (Some (start_s_idx, start_r, value_logical_index)) sheets in
  dict_get extracted_vars var_name = Some (default VNone (found !! i))
  ∧ (length found ≤ i → dict_get extracted_vars var_name = Some VNone)
  ∧ is_Some (dict_get extracted_vars ADDITIONAL_VAR_NAME).
Proof.
  intros Hi found extracted_vars. subst extracted_vars. unfold extract_vars_from_anchor.
  destruct (extract_fields_spec sheets value_logical_index _
              EXTENDED_VAR_NAMES_NoDup [] start_s_idx (start_r + 1))
    as (d' & s' & r' & -> & Hnames & _).
  assert (var_name ≠ ADDITIONAL_VAR_NAME) as Hne.
  { intros ->. apply ADDITIONAL_not_EXTENDED. by eapply list_elem_of_lookup_2. }
  assert (dict_get (scan_additional 10 sheets s' r'
                      (dict_set d' ADDITIONAL_VAR_NAME VNone)) var_name
          = Some (default VNone (found !! i))) as Hget.
  { rewrite scan_additional_other by done.
    rewrite dict_get_set_ne by done. by apply Hnames. }
  split_and!; [done| |].
  - intros Hlen. rewrite Hget. by rewrite (lookup_ge_None_2 found i Hlen).
  - apply scan_additional_present. rewrite dict_get_set_eq. by eexists.
Qed.

(* --------------------------------------------------------------------- *)
(** ** Anchors in scan order *)
(* --------------------------------------------------------------------- *)

Lemma anchor_row_alt (sheet : Worksheet) (idx : nat)
    (m : gmap (list N) (list (nat * nat * nat))) (r : nat) :
  anchor_row sheet idx m r
  = match anchor_name_at sheet r with
    | Some name => <[name := default [] (m !! name) ++ [(idx, r, 2)]]> m
    | None => m
    end.
Proof.
  unfold anchor_row, anchor_name_at.
  destruct (get_absolute_col_from_logical_index_for_row sheet r 1); [|done].
  destruct (get_absolute_col_from_logical_index_for_row sheet r 2); [|done].
  destruct (str_eqb _ _); [|done].
  by destruct (clean_for_matching _).
Qed.

Lemma anchor_name_at_nonempty sheet r : anchor_name_at sheet r ≠ Some [].
Proof.
  unfold anchor_name_at.
  destruct (get_absolute_col_from_logical_index_for_row sheet r 1); [|done].
  destruct (get_absolute_col_from_logical_index_for_row sheet r 2); [|done].
  destruct (str_eqb _ _); [|done].
  by destruct (clean_for_matching _).
Qed.

Lemma anchor_rows_lookup (sheet : Worksheet) (idx : nat) (rows : list nat)
    (m : gmap (list N) (list (nat * nat * nat))) (name : Py.str) :
  default [] (fold_left (anchor_row sheet idx) rows m !! name)
  = default [] (m !! name) ++ anchors_in_sheet sheet idx name rows.
Proof.
  revert m. unfold anchors_in_sheet.
  induction rows as [|r rows IH]; intros m; simpl.
  - by rewrite app_nil_r.
  - rewrite IH, anchor_row_alt.
    destruct (anchor_name_at sheet r) as [found|] eqn:Hname.
    + destruct (decide (found = name)) as [->|Hne].
      * rewrite lookup_insert_eq, bool_decide_true by done. simpl.
        by rewrite <- app_assoc.
      * rewrite lookup_insert_ne by done.
        rewrite bool_decide_false; [done|]. by intros [= ->].
    + by rewrite bool_decide_false.
Qed.

Lemma scan_sheets_lookup (idx : nat) (sheets : list Worksheet)
    (m : gmap (list N) (list (nat * nat * nat))) (name : Py.str) :
  default [] (scan_sheets idx sheets m !! name)
  = default [] (m !! name) ++ anchors_from idx sheets name.
Proof.
  revert idx m. induction sheets as [|sheet rest IH]; intros idx m; simpl.
  - by rewrite app_nil_r.
  - by rewrite IH, anchor_rows_lookup, <- app_assoc.
Qed.

(** The anchor map lists, under each name, its anchors in scan order. *)
Lemma build_anchor_map_lookup original_sheets start_sheet_idx name :
  default [] (build_anchor_map original_sheets start_sheet_idx !! name)
  = anchors_in_scan_order original_sheets start_sheet_idx name.
Proof.
  unfold build_anchor_map, anchors_in_scan_order.
  by rewrite scan_sheets_lookup, lookup_empty.
Qed.

Lemma anchors_from_empty_name idx sheets : anchors_from idx sheets [] = [].
Proof.
  revert idx. induction sheets as [|sheet rest IH]; intros idx; simpl; [done|].
  rewrite IH, app_nil_r. unfold anchors_in_sheet.
  induction (seq 1 (sheet_max_row sheet)) as [|r rows IHr]; simpl; [done|].
  rewrite bool_decide_false; [done|]. apply anchor_name_at_nonempty.
Qed.

(* --------------------------------------------------------------------- *)
(** ** Pairing records with anchors *)
(* --------------------------------------------------------------------- *)

Lemma count_named_cons name record records :
  count_named name (record :: records)
  = (if bool_decide (cleaned_name record = name) then 1 else 0)
    + count_named name records.
Proof. unfold count_named. simpl. by destruct (bool_decide _). Qed.

Lemma count_named_take_le name records n :
  count_named name (take n records) ≤ count_named name records.
Proof.
  revert n. induction records as [|record records IH]; intros [|n]; simpl;
    rewrite ?count_named_cons; try (unfold count_named; simpl; lia).
  specialize (IH n). lia.
Qed.

Lemma number_occurrences_lookup (name_counts : gmap (list N) nat)
    (records : list Py.dict) (i : nat) (record : Py.dict) :
  records !! i = Some record →
  number_occurrences name_counts records !! i
  = Some (with_occurrence record
            (default 0 (name_counts !! cleaned_name record)
             + count_named (cleaned_name record) (take (S i) records))).
Proof.
  revert name_counts i.
  induction records as [|first rest IH]; intros name_counts i Hi; [done|].
  simpl. fold (cleaned_name first).
  destruct i as [|i]; simpl in Hi.
  - injection Hi as ->. unfold with_occurrence.
    destruct (cleaned_name record) as [|ch name] eqn:Hname; simpl; [done|].
    do 3 f_equal. simpl. rewrite count_named_cons, Hname.
    rewrite bool_decide_true by done. unfold count_named. simpl. lia.
  - rewrite count_named_cons.
    destruct (cleaned_name first) as [|ch name] eqn:Hfirst; simpl.
    + rewrite (IH _ _ Hi). unfold with_occurrence.
      destruct (cleaned_name record) eqn:Hname; [done|].
      rewrite bool_decide_false by done. done.
    + rewrite (IH _ _ Hi). do 2 f_equal.
      destruct (decide (ch :: name = cleaned_name record)) as [Heq|Hne].
      * rewrite <- Heq, lookup_insert_eq, bool_decide_true by done. simpl. lia.
      * rewrite lookup_insert_ne, bool_decide_false by done. done.
Qed.

Lemma OCCURRENCE_KEY_not_name : OCCURRENCE_KEY ≠ PROJECT_NAME_KEY.
Proof.
  apply (bool_decide_unpack (OCCURRENCE_KEY ≠ PROJECT_NAME_KEY)).
  vm_compute. exact I.
Qed.

Lemma cleaned_name_with_occurrence record k :
  cleaned_name (with_occurrence record k) = cleaned_name record.
Proof.
  unfold with_occurrence.
  destruct (cleaned_name record) eqn:Hname; [exact Hname|].
  rewrite <- Hname. unfold cleaned_name, record_get.
  rewrite (dict_get_set_ne record OCCURRENCE_KEY _ PROJECT_NAME_KEY
             OCCURRENCE_KEY_not_name).
  reflexivity.
Qed.

Lemma enrich_record_with_occurrence original_sheets start metadata record k :
  1 ≤ k →
  enrich_record (build_anchor_map original_sheets start) original_sheets metadata
    (with_occurrence record k)
  = dict_update
      (dict_del
         (dict_update (with_occurrence record k)
            (paired_extended_vars
               (anchors_in_scan_order original_sheets start (cleaned_name record))
               k original_sheets))
         OCCURRENCE_KEY)
      metadata.
Proof.
  intros Hk. unfold enrich_record.
  fold (cleaned_name (with_occurrence record k)).
  rewrite cleaned_name_with_occurrence, build_anchor_map_lookup.
  do 3 f_equal. unfold paired_extended_vars.
  set (anchors := anchors_in_scan_order _ _ _).
  destruct (cleaned_name record) as [|ch name] eqn:Hname.
  - assert (anchors = []) as ->.
    { subst anchors. unfold anchors_in_scan_order. apply anchors_from_empty_name. }
    rewrite !lookup_nil. cbn [length].
    set (o := occurrence_index_of _).
    destruct (Z.leb_spec 1 o), (Z.leb_spec o (Z.of_nat 0)); try lia;
      cbn [andb]; reflexivity.
  - assert (occurrence_index_of (with_occurrence record k) = Z.of_nat k) as ->.
    { unfold with_occurrence, occurrence_index_of.
      rewrite Hname, dict_get_set_eq. reflexivity. }
    replace (Z.to_nat (Z.of_nat k - 1)) with (k - 1) by lia.
    destruct (Z.leb_spec 1 (Z.of_nat k)); [|lia]. cbn [andb].
    destruct (Z.leb_spec (Z.of_nat k) (Z.of_nat (length anchors))).
    + destruct (lookup_lt_is_Some_2 anchors (k - 1)) as [loc ->];
        [lia|reflexivity].
    + rewrite lookup_ge_None_2 by lia. reflexivity.
Qed.

Lemma absent_extended_vars_None key :
  key ∈ EXTENDED_VAR_NAMES ++ [ADDITIONAL_VAR_NAME] →
  dict_get absent_extended_vars key = Some VNone.
Proof.
  revert key. apply Forall_forall.
  apply (bool_decide_unpack
           (Forall (fun key => dict_get absent_extended_vars key = Some VNone)
                   (EXTENDED_VAR_NAMES ++ [ADDITIONAL_VAR_NAME]))).
  vm_compute. exact I.
Qed.

(** C1: the [i]-th base record, being the [k]-th record of its strictly
    normalised name in table row order, is enriched from the [k]-th anchor
    location recorded for that name in scan order; when the name has fewer
    than [k] anchors its extended variables are the absent ones, in which
    every extended field and the additional field is [None].  As [k] never
    exceeds the number of same-named records, anchors beyond that number
    are never used. *)
Theorem records_paired_by_occurrence (consolidated : Worksheet)
    (original_sheets : list Worksheet) (last_sheet_idx : Z) (metadata : Py.dict)
    (i : nat) (record : Py.dict) :
  extract_base_data consolidated !! i = Some record →
  let base := extract_base_data consolidated in
  let name := cleaned_name record in
  let k := count_named name (take (S i) base) in
  let anchors :=
    anchors_in_scan_order original_sheets (Z.to_nat (last_sheet_idx + 1)) name in
  let extended_vars :=
    match anchors !! (k - 1) with
    | Some location => extract_vars_from_anchor (Some location) original_sheets
    | None => absent_extended_vars
    end in
  extract_data_with_extended_vars consolidated original_sheets last_sheet_idx metadata
    !! i
  = Some (dict_update
            (dict_del (dict_update (with_occurrence record k) extended_vars)
                      OCCURRENCE_KEY)
            metadata)
  ∧ 1 ≤ k ≤ count_named name base
  ∧ (∀ key, key ∈ EXTENDED_VAR_NAMES ++ [ADDITIONAL_VAR_NAME] →
            dict_get absent_extended_vars key = Some VNone).
Proof.
  intros Hi base name k anchors extended_vars.
  assert (1 ≤ k) as Hk.
  { unfold k, base. rewrite (take_S_r _ _ _ Hi). unfold count_named.
    rewrite List.filter_app, List.length_app. cbn [List.filter]. unfold name.
    rewrite bool_decide_true by reflexivity. cbn [length]. lia. }
  split_and!; [|exact Hk|apply count_named_take_le|apply absent_extended_vars_None].
  unfold extract_data_with_extended_vars. cbv zeta.
  assert (∀ (l : list Py.dict) (enriched : list Py.dict),
            l !! i = Some record →
            match l with [] => [] | _ :: _ => enriched end = enriched) as Hmatch.
  { intros [|first rest] enriched Hl; [by rewrite lookup_nil in Hl|reflexivity]. }
  rewrite (Hmatch _ _ Hi).
  rewrite list_lookup_fmap.
  rewrite (number_occurrences_lookup _ _ _ _ Hi), lookup_empty.
  cbn [fmap option_fmap option_map default Nat.add]. f_equal.
  fold name. fold k.
  rewrite enrich_record_with_occurrence by exact Hk.
  reflexivity.
Qed.

(* --------------------------------------------------------------------- *)
(** ** Border regions and the choice of the first table *)
(* --------------------------------------------------------------------- *)

Lemma elem_of_iter_rows sheet r c :
  (r, c) ∈ iter_rows sheet
  ↔ (1 ≤ r ≤ sheet_max_row sheet) ∧ (1 ≤ c ≤ sheet_max_column sheet).
Proof.
  unfold iter_rows. rewrite list_elem_of_bind. split.
  - intros (r' & (c' & Hin & Hc)%list_elem_of_bind & Hr).
    apply list_elem_of_singleton in Hin. injection Hin as -> ->.
    apply elem_of_seq in Hr. apply elem_of_seq in Hc. lia.
  - intros [Hr Hc]. exists r. split; [|apply elem_of_seq; lia].
    apply list_elem_of_bind. exists c. split; [|apply elem_of_seq; lia].
    by apply list_elem_of_singleton.
Qed.

Lemma cell_outside sheet r c :
  ¬ ((1 ≤ r ≤ sheet_max_row sheet) ∧ (1 ≤ c ≤ sheet_max_column sheet)) →
  cell sheet r c = blank_cell.
Proof.
  intros Hout. unfold cell.
  destruct (Nat.leb_spec 1 r), (Nat.leb_spec r (sheet_max_row sheet)),
    (Nat.leb_spec 1 c), (Nat.leb_spec c (sheet_max_column sheet));
    simpl; try reflexivity.
  exfalso. apply Hout. lia.
Qed.

Lemma blank_cell_no_border : has_border blank_cell = false.
Proof. reflexivity. Qed.

(** The scan of [find_border_range_in_sheet] over any list of coordinates. *)
Lemma border_scan_None sheet (coordinates : list (nat * nat)) acc :
  fold_left
    (fun acc rc => if has_border (cell sheet rc.1 rc.2)
                   then extend_range acc rc.1 rc.2 else acc)
    coordinates acc = None
  ↔ acc = None
    ∧ ∀ r c, (r, c) ∈ coordinates → has_border (cell sheet r c) = false.
Proof.
  revert acc. induction coordinates as [|[r c] coordinates IH]; intros acc; simpl.
  - split; [intros ->; split; [done|]|by intros [-> _]].
    intros r c Hin. by apply elem_of_nil in Hin.
  - rewrite IH. destruct (has_border (cell sheet r c)) eqn:Hb.
    + split.
      * intros [Hacc _]. by destruct acc.
      * intros [_ Hall]. specialize (Hall r c (list_elem_of_here _ _)). congruence.
    + split; intros [Hacc Hall]; (split; [done|]).
      * intros r' c' [Heq|Hin]%elem_of_cons; [by injection Heq as -> ->|by apply Hall].
      * intros r' c' Hin. apply Hall. by apply list_elem_of_further.
Qed.

(** A sheet has no border range exactly when none of its cells has a border. *)
Lemma find_border_range_None sheet :
  find_border_range_in_sheet sheet = None
  ↔ ∀ r c, has_border (cell sheet r c) = false.
Proof.
  unfold find_border_range_in_sheet. rewrite border_scan_None. split.
  - intros [_ Hall] r c.
    destruct (decide ((1 ≤ r ≤ sheet_max_row sheet)
                      ∧ (1 ≤ c ≤ sheet_max_column sheet))) as [Hin|Hout].
    + apply Hall. by apply elem_of_iter_rows.
    + by rewrite cell_outside.
  - intros Hall. split; [done|]. intros r c _. apply Hall.
Qed.

(** Matched sheets without a border range are passed over. *)
Lemma select_tables_skip all_sheets skipped matched :
  (∀ info, info ∈ skipped → find_border_range_in_sheet info.1 = None) →
  select_tables all_sheets (skipped ++ matched) = select_tables all_sheets matched.
Proof.
  induction skipped as [|[sheet index] skipped IH]; intros Hall; [done|].
  simpl. pose proof (Hall (sheet, index) (list_elem_of_here _ _)) as Hrange.
  simpl in Hrange. rewrite Hrange.
  apply IH. intros info Hin. apply Hall. by apply list_elem_of_further.
Qed.

Lemma select_tables_first all_sheets sheet index border_range matched :
  find_border_range_in_sheet sheet = Some border_range →
  select_tables all_sheets ((sheet, index) :: matched)
  = ((sheet, border_range)
       :: (continuation_walk sheet border_range index
             (drop (S index) all_sheets)).1,
     Z.of_nat (continuation_walk sheet border_range index
                 (drop (S index) all_sheets)).2).
Proof.
  intros Hrange. simpl. rewrite Hrange.
  by destruct (continuation_walk _ _ _ _).
Qed.

Lemma select_tables_nil all_sheets matched :
  (select_tables all_sheets matched).1 = []
  ↔ ∀ info, info ∈ matched → find_border_range_in_sheet info.1 = None.
Proof.
  induction matched as [|[sheet index] matched IH].
  - simpl. split; [|done]. intros _ info Hin. by apply elem_of_nil in Hin.
  - destruct (find_border_range_in_sheet sheet) as [border_range|] eqn:Hrange.
    + rewrite (select_tables_first _ _ _ _ _ Hrange). simpl. split; [done|].
      intros Hall. specialize (Hall (sheet, index) (list_elem_of_here _ _)).
      simpl in Hall. congruence.
    + simpl. rewrite Hrange, IH. split.
      * intros Hall info [->|Hin]%elem_of_cons; [done|by apply Hall].
      * intros Hall info Hin. apply Hall. by apply list_elem_of_further.
Qed.

Lemma select_tables_nil_index all_sheets matched :
  (select_tables all_sheets matched).1 = [] →
  select_tables all_sheets matched = ([], (-1)%Z).
Proof.
  induction matched as [|[sheet index] matched IH]; [done|].
  destruct (find_border_range_in_sheet sheet) as [border_range|] eqn:Hrange.
  - by rewrite (select_tables_first _ _ _ _ _ Hrange).
  - simpl. by rewrite Hrange.
Qed.

(** [consolidate_tables_from_group] in terms of its three steps. *)
Lemma consolidate_tables_from_group_steps file_group compiled_regex scan_row_limit
    loaded_sheets :
  load_group file_group = Some loaded_sheets →
  let all_sheets := map (scanned_sheet compiled_regex scan_row_limit) loaded_sheets in
  consolidate_tables_from_group file_group compiled_regex scan_row_limit
  = match (select_tables all_sheets
             (match_sheets compiled_regex scan_row_limit 0 loaded_sheets)).1 with
    | [] => (None, [], (-1)%Z)
    | final_tables =>
      (Some (write_tables final_tables), all_sheets,
       (select_tables all_sheets
          (match_sheets compiled_regex scan_row_limit 0 loaded_sheets)).2)
    end.
Proof.
  intros Hload all_sheets. unfold consolidate_tables_from_group. rewrite Hload.
  cbv zeta. fold all_sheets.
  destruct (match_sheets _ _ _ _) as [|info matched] eqn:Hmatched; [done|].
  by destruct (select_tables _ _) as [[|table tables] last].
Qed.

(** C2, as the code has it: the consolidation of a loaded group fails exactly
    when no title-matching sheet has a border range.  Title-matching sheets
    without one are passed over, and the first title-matching sheet that has
    a border range starts the consolidated table, whether or not it is the
    first title-matching sheet.  A sheet has no border range exactly when
    none of its cells has a border.  The sheets that are matched, walked and
    returned are the loaded sheets as the title scan leaves them. *)
Theorem consolidation_starts_at_first_bordered_match
    (file_group : list (option (list Worksheet)))
    (compiled_regex : Py.str -> bool) (scan_row_limit : Z)
    (loaded_sheets : list Worksheet) :
  load_group file_group = Some loaded_sheets →
  let all_sheets := map (scanned_sheet compiled_regex scan_row_limit) loaded_sheets in
  let matched := match_sheets compiled_regex scan_row_limit 0 loaded_sheets in
  (consolidate_tables_from_group file_group compiled_regex scan_row_limit
   = (None, [], (-1)%Z)
   ↔ ∀ info, info ∈ matched → find_border_range_in_sheet info.1 = None)
  ∧ (∀ skipped sheet index border_range later,
       matched = skipped ++ (sheet, index) :: later →
       (∀ info, info ∈ skipped → find_border_range_in_sheet info.1 = None) →
       find_border_range_in_sheet sheet = Some border_range →
       let walk :=
         continuation_walk sheet border_range index (drop (S index) all_sheets) in
       consolidate_tables_from_group file_group compiled_regex scan_row_limit
       = (Some (write_tables ((sheet, border_range) :: walk.1)), all_sheets,
          Z.of_nat walk.2))
  ∧ (∀ sheet, find_border_range_in_sheet sheet = None
              ↔ ∀ r c, has_border (cell sheet r c) = false).
Proof.
  intros Hload all_sheets matched.
  rewrite (consolidate_tables_from_group_steps _ _ _ _ Hload).
  cbv zeta. fold all_sheets. subst matched.
  generalize (match_sheets compiled_regex scan_row_limit 0 loaded_sheets).
  intros matched. split_and!.
  - rewrite <- (select_tables_nil all_sheets).
    destruct (select_tables all_sheets matched) as [[|table tables] last];
      simpl; (split; [intros Heq|intros Heq]); try reflexivity; discriminate Heq.
  - intros skipped sheet index border_range later -> Hskipped Hrange.
    rewrite (select_tables_skip _ _ _ Hskipped).
    by rewrite (select_tables_first _ _ _ _ _ Hrange).
  - exact find_border_range_None.
Qed.

(* --------------------------------------------------------------------- *)
(** ** The continuation walk and the stacking of the regions *)
(* --------------------------------------------------------------------- *)

Lemma default_last_cons {A} (x d : A) (l : list A) :
  default d (last (x :: l)) = default x (last l).
Proof. rewrite last_cons. by destruct (last l). Qed.

Lemma border_scan_ordered sheet (coordinates : list (nat * nat)) acc range :
  (∀ b, acc = Some b → ordered b) →
  fold_left
    (fun acc rc => if has_border (cell sheet rc.1 rc.2)
                   then extend_range acc rc.1 rc.2 else acc)
    coordinates acc = Some range →
  ordered range.
Proof.
  revert acc. induction coordinates as [|[r c] coordinates IH]; intros acc Hacc;
    cbn [fold_left fst snd].
  - apply Hacc.
  - apply IH. destruct (has_border (cell sheet r c)); [|exact Hacc].
    intros b. destruct acc as [b0|]; cbn [extend_range]; intros [= <-];
      unfold ordered; cbn [min_row max_row min_col max_col]; [|lia].
    destruct (Hacc b0 eq_refl). lia.
Qed.

(** The bounds of a border range are in order. *)
Lemma find_border_range_ordered sheet range :
  find_border_range_in_sheet sheet = Some range → ordered range.
Proof. apply border_scan_ordered. intros b [=]. Qed.

Lemma are_tables_similar_width sheet1 range1 sheet2 range2 :
  are_tables_similar sheet1 range1 sheet2 range2 = true
  ↔ range_width range1 = range_width range2.
Proof. unfold are_tables_similar, range_width. apply Z.eqb_eq. Qed.

Lemma continuation_walk_spec sheet border_range index following :
  let walk := continuation_walk sheet border_range index following in
  map fst walk.1 = take (length walk.1) following
  ∧ walk.2 = index + length walk.1
  ∧ (∀ j table current,
       walk.1 !! j = Some table →
       (border_range :: map snd walk.1) !! j = Some current →
       find_border_range_in_sheet table.1 = Some table.2
       ∧ range_width table.2 = range_width current)
  ∧ (∀ next_sheet next_range,
       following !! length walk.1 = Some next_sheet →
       find_border_range_in_sheet next_sheet = Some next_range →
       range_width next_range
       ≠ range_width (default border_range (last (map snd walk.1)))).
Proof.
  revert sheet border_range index.
  induction following as [|next_sheet rest IH]; intros sheet border_range index.
  { simpl. split_and!; [done|lia|done|done]. }
  cbn [continuation_walk].
  destruct (find_border_range_in_sheet next_sheet) as [next_range|] eqn:Hrange.
  - destruct (are_tables_similar sheet border_range next_sheet next_range)
      eqn:Hsimilar.
    + apply are_tables_similar_width in Hsimilar.
      specialize (IH next_sheet next_range (S index)).
      destruct (continuation_walk next_sheet next_range (S index) rest)
        as [tables last_index].
      simpl in *. destruct IH as (IH1 & IH2 & IH3 & IH4).
      split_and!.
      * by rewrite IH1.
      * lia.
      * intros [|j] table current Htable Hcurrent; simpl in *.
        -- injection Htable as <-. injection Hcurrent as <-. by simpl.
        -- by apply (IH3 j).
      * intros next next' Hnext Hnext'. rewrite default_last_cons.
        by apply (IH4 next).
    + assert (range_width border_range ≠ range_width next_range) as Hne.
      { intros Heq. apply (are_tables_similar_width sheet _ next_sheet) in Heq.
        congruence. }
      simpl. split_and!; [done|lia|done|].
      intros next next' [= <-] Hnext'. congruence.
  - simpl. split_and!; [done|lia|done|].
    intros next next' [= <-] Hnext'. congruence.
Qed.

Lemma continuation_walk_head sheet border_range index next_sheet rest :
  (continuation_walk sheet border_range index (next_sheet :: rest)).1 ≠ []
  ↔ ∃ next_range,
      find_border_range_in_sheet next_sheet = Some next_range
      ∧ range_width next_range = range_width border_range.
Proof.
  cbn [continuation_walk].
  destruct (find_border_range_in_sheet next_sheet) as [next_range|] eqn:Hrange.
  - destruct (are_tables_similar sheet border_range next_sheet next_range)
      eqn:Hsimilar.
    + apply are_tables_similar_width in Hsimilar.
      destruct (continuation_walk next_sheet next_range (S index) rest). simpl.
      split; [|done]. intros _. by exists next_range.
    + simpl. split; [done|]. intros (next_range' & [= <-] & Heq).
      symmetry in Heq. apply (are_tables_similar_width sheet _ next_sheet) in Heq.
      congruence.
  - simpl. split; [done|]. by intros (next_range' & [=] & _).
Qed.

(** *** Writing a cell *)

Ltac leb_true :=
  match goal with
  | |- context [?a <=? ?b] => rewrite (proj2 (Nat.leb_le a b)) by lia
  end.

Lemma set_cell_cell sheet r c x r' c' :
  1 ≤ r → 1 ≤ c →
  cell (set_cell sheet r c x) r' c'
  = if decide (r' = r ∧ c' = c) then x else cell sheet r' c'.
Proof.
  intros Hr Hc. unfold cell at 1. unfold set_cell.
  cbn [sheet_max_row sheet_max_column sheet_cells].
  destruct (decide (r' = r ∧ c' = c)) as [[-> ->]|Hne].
  - rewrite !Nat.eqb_refl. repeat leb_true. reflexivity.
  - assert ((r' =? r) && (c' =? c) = false) as ->.
    { destruct (Nat.eqb_spec r' r), (Nat.eqb_spec c' c); simpl; try reflexivity.
      exfalso. by apply Hne. }
    destruct (decide ((1 ≤ r' ≤ sheet_max_row sheet `max` r)
                      ∧ (1 ≤ c' ≤ sheet_max_column sheet `max` c))) as [Hin|Hout].
    + repeat leb_true. reflexivity.
    + rewrite (cell_outside sheet r' c') by lia.
      by destruct (_ && _).
Qed.

Lemma copy_cell_idemp src dst : copy_cell src (copy_cell src dst) = copy_cell src dst.
Proof. unfold copy_cell. by destruct (has_style src). Qed.

Lemma copy_cell_blank src :
  value_of (copy_cell src blank_cell) = value_of src
  ∧ has_border (copy_cell src blank_cell) = has_border src.
Proof.
  unfold copy_cell, has_border. destruct src as [v [] b]; simpl; done.
Qed.

(** *** Copying a region *)

Lemma elem_of_grid (height width a b : nat) :
  (a, b) ∈ (r_idx ← seq 0 height; c_idx ← seq 0 width; [(r_idx, c_idx)])
  ↔ a < height ∧ b < width.
Proof.
  rewrite list_elem_of_bind. split.
  - intros (r' & (c' & Hin & Hc)%list_elem_of_bind & Hr).
    apply list_elem_of_singleton in Hin. injection Hin as -> ->.
    apply elem_of_seq in Hr. apply elem_of_seq in Hc. lia.
  - intros [Hr Hc]. exists a. split; [|apply elem_of_seq; lia].
    apply list_elem_of_bind. exists b. split; [|apply elem_of_seq; lia].
    by apply list_elem_of_singleton.
Qed.

Section CopyRange.
Variables (source_sheet : Worksheet) (range : CellRange).
Variables (dest_start_row dest_start_col : nat).
Hypothesis Hstart_row : 1 ≤ dest_start_row.
Hypothesis Hstart_col : 1 ≤ dest_start_col.

(** The body of the loop over the cells of the region. *)
Definition copy_step (dest : Worksheet) (rc : nat * nat) : Worksheet :=
  let r_idx := rc.1 in
  let c_idx := rc.2 in
  let src := cell source_sheet (min_row range + r_idx) (min_col range + c_idx) in
  let r := dest_start_row + r_idx in
  let c := dest_start_col + c_idx in
  set_cell dest r c (copy_cell src (cell dest r c)).

(** The body of the loop over the merged ranges of the source sheet. *)
Definition merge_step (dest : Worksheet) (merged_cell_range : CellRange) : Worksheet :=
  if range_contains range merged_cell_range then
    merge_cells dest
      {| min_row := dest_start_row + min_row merged_cell_range - min_row range;
         max_row := dest_start_row + max_row merged_cell_range - min_row range;
         min_col := dest_start_col + min_col merged_cell_range - min_col range;
         max_col := dest_start_col + max_col merged_cell_range - min_col range |}
  else dest.

Lemma copy_range_steps dest :
  copy_range source_sheet dest range dest_start_row dest_start_col
  = fold_left merge_step (merged_cells source_sheet)
      (fold_left copy_step
         (r_idx ← seq 0 (row_count range);
          c_idx ← seq 0 (column_count range);
          [(r_idx, c_idx)])
         dest).
Proof. reflexivity. Qed.

Lemma copy_cells_cell (l : list (nat * nat)) dest r c :
  cell (fold_left copy_step l dest) r c
  = if decide (dest_start_row ≤ r ∧ dest_start_col ≤ c
               ∧ (r - dest_start_row, c - dest_start_col) ∈ l)
    then copy_cell
           (cell source_sheet (min_row range + (r - dest_start_row))
              (min_col range + (c - dest_start_col)))
           (cell dest r c)
    else cell dest r c.
Proof.
  revert dest. induction l as [|[ri ci] l IH]; intros dest; cbn [fold_left].
  - rewrite decide_False; [done|]. intros (_ & _ & Hin). by apply elem_of_nil in Hin.
  - rewrite IH. clear IH. unfold copy_step. cbn [fst snd].
    rewrite set_cell_cell by lia.
    destruct (decide (r = dest_start_row + ri ∧ c = dest_start_col + ci))
      as [[-> ->]|Hne].
    + replace (dest_start_row + ri - dest_start_row) with ri by lia.
      replace (dest_start_col + ci - dest_start_col) with ci by lia.
      rewrite (decide_True (P := _ ∧ _ ∧ _ ∈ (ri, ci) :: l));
        [|split_and!; [lia|lia|apply list_elem_of_here]].
      destruct (decide (_ ∧ _ ∧ (ri, ci) ∈ l)); [apply copy_cell_idemp|done].
    + apply decide_ext. rewrite elem_of_cons. split.
      * intros (? & ? & ?). split_and!; [done|done|by right].
      * intros (? & ? & [[= Hr' Hc']|Hin]); [|done].
        exfalso. apply Hne. lia.
Qed.

Lemma copy_cells_max_row_ge (l : list (nat * nat)) dest :
  sheet_max_row dest ≤ sheet_max_row (fold_left copy_step l dest)
  ∧ ∀ ri ci, (ri, ci) ∈ l →
      dest_start_row + ri ≤ sheet_max_row (fold_left copy_step l dest).
Proof.
  revert dest. induction l as [|[ri ci] l IH]; intros dest; cbn [fold_left].
  - split; [done|]. intros ri ci Hin. by apply elem_of_nil in Hin.
  - destruct (IH (copy_step dest (ri, ci))) as [IH1 IH2].
    assert (sheet_max_row (copy_step dest (ri, ci))
            = sheet_max_row dest `max` (dest_start_row + ri)) as Hstep
      by reflexivity.
    rewrite Hstep in IH1. split; [lia|].
    intros ri' ci' [[= -> ->]|Hin]%elem_of_cons; [lia|by apply (IH2 ri' ci')].
Qed.

Lemma copy_cells_max_row_le (l : list (nat * nat)) dest bound :
  sheet_max_row dest ≤ bound →
  (∀ ri ci, (ri, ci) ∈ l → dest_start_row + ri ≤ bound) →
  sheet_max_row (fold_left copy_step l dest) ≤ bound.
Proof.
  revert dest. induction l as [|[ri ci] l IH]; intros dest Hdest Hl; cbn [fold_left].
  - done.
  - apply IH.
    + assert (sheet_max_row (copy_step dest (ri, ci))
              = sheet_max_row dest `max` (dest_start_row + ri)) as ->
        by reflexivity.
      specialize (Hl ri ci (list_elem_of_here _ _)). lia.
    + intros ri' ci' Hin. apply (Hl ri' ci'). by apply list_elem_of_further.
Qed.

Lemma merge_steps_keep (ms : list CellRange) dest :
  sheet_max_row (fold_left merge_step ms dest) = sheet_max_row dest
  ∧ sheet_max_column (fold_left merge_step ms dest) = sheet_max_column dest
  ∧ sheet_cells (fold_left merge_step ms dest) = sheet_cells dest.
Proof.
  revert dest. induction ms as [|m ms IH]; intros dest; cbn [fold_left]; [done|].
  destruct (IH (merge_step dest m)) as (-> & -> & ->).
  unfold merge_step. by destruct (range_contains range m).
Qed.

Lemma copy_range_cell dest r c :
  cell (copy_range source_sheet dest range dest_start_row dest_start_col) r c
  = if decide ((dest_start_row ≤ r < dest_start_row + row_count range)
               ∧ (dest_start_col ≤ c < dest_start_col + column_count range))
    then copy_cell
           (cell source_sheet (min_row range + (r - dest_start_row))
              (min_col range + (c - dest_start_col)))
           (cell dest r c)
    else cell dest r c.
Proof.
  rewrite copy_range_steps.
  transitivity
    (cell (fold_left copy_step
             (r_idx ← seq 0 (row_count range);
              c_idx ← seq 0 (column_count range);
              [(r_idx, c_idx)]) dest) r c).
  { unfold cell.
    by destruct (merge_steps_keep (merged_cells source_sheet)
                   (fold_left copy_step
                      (r_idx ← seq 0 (row_count range);
                       c_idx ← seq 0 (column_count range);
                       [(r_idx, c_idx)]) dest)) as (-> & -> & ->). }
  rewrite copy_cells_cell. apply decide_ext. rewrite elem_of_grid. lia.
Qed.

Lemma copy_range_max_row dest :
  ordered range →
  sheet_max_row (copy_range source_sheet dest range dest_start_row dest_start_col)
  = sheet_max_row dest `max` (dest_start_row + row_count range - 1).
Proof.
  intros [Hrows Hcols]. rewrite copy_range_steps.
  destruct (merge_steps_keep (merged_cells source_sheet)
              (fold_left copy_step
                 (r_idx ← seq 0 (row_count range);
                  c_idx ← seq 0 (column_count range);
                  [(r_idx, c_idx)]) dest)) as (-> & _ & _).
  apply Nat.le_antisymm.
  - apply copy_cells_max_row_le; [lia|].
    intros ri ci [Hri Hci]%elem_of_grid. lia.
  - destruct (copy_cells_max_row_ge
                (r_idx ← seq 0 (row_count range);
                 c_idx ← seq 0 (column_count range);
                 [(r_idx, c_idx)]) dest) as [Hge1 Hge2].
    specialize (Hge2 (row_count range - 1) 0).
    unfold row_count, column_count in *.
    apply Nat.max_lub; [done|].
    etrans; [|apply Hge2; apply elem_of_grid; lia]. lia.
Qed.

End CopyRange.

(** *** Stacking the regions *)

Lemma write_tables_steps final_tables :
  write_tables final_tables = (fold_left write_step final_tables (new_sheet, 1)).1.
Proof. reflexivity. Qed.

Lemma region_offset_S table tables j :
  region_offset (table :: tables) (S j) = row_count table.2 + region_offset tables j.
Proof. reflexivity. Qed.

Lemma ordered_counts range :
  ordered range → 1 ≤ row_count range ∧ 1 ≤ column_count range.
Proof. unfold ordered, row_count, column_count. lia. Qed.

Lemma write_steps_cons sheet range tables dest next :
  fold_left write_step ((sheet, range) :: tables) (dest, next)
  = fold_left write_step tables
      (copy_range sheet dest range next 1, next + row_count range).
Proof. reflexivity. Qed.

(** The cells after the regions are written from row [next] on. *)
Lemma write_steps_cells tables dest next :
  1 ≤ next →
  let written := fold_left write_step tables (dest, next) in
  (∀ r c, r < next → cell written.1 r c = cell dest r c)
  ∧ (∀ j table dr dc,
       tables !! j = Some table →
       dr < row_count table.2 → dc < column_count table.2 →
       cell written.1 (next + region_offset tables j + dr) (1 + dc)
       = copy_cell (cell table.1 (min_row table.2 + dr) (min_col table.2 + dc))
           (cell dest (next + region_offset tables j + dr) (1 + dc))).
Proof.
  revert dest next. induction tables as [|[sheet range] tables IH];
    intros dest next Hnext.
  { cbn [fold_left fst snd]. split; [done|].
    intros j ? ? ? Hj. by rewrite lookup_nil in Hj. }
  rewrite write_steps_cons.
  destruct (IH (copy_range sheet dest range next 1) (next + row_count range))
    as (IH3 & IH4); [lia|].
  cbv zeta. split.
  - intros r c Hr. rewrite IH3 by lia. rewrite copy_range_cell by lia.
    rewrite decide_False by lia. done.
  - intros [|j] table dr dc Hj Hdr Hdc.
    + cbn in Hj. injection Hj as <-. cbn [fst snd] in *.
      unfold region_offset. cbn [take map sum_list_with].
      rewrite IH3 by lia. rewrite copy_range_cell by lia.
      rewrite decide_True by lia. do 3 f_equal; lia.
    + cbn in Hj. rewrite region_offset_S. cbn [fst snd].
      replace (next + (row_count range + region_offset tables j) + dr)
        with (next + row_count range + region_offset tables j + dr) by lia.
      rewrite (IH4 j table dr dc Hj Hdr Hdc).
      rewrite copy_range_cell by lia. rewrite decide_False by lia. done.
Qed.

(** The rows of the sheet after regions with bounds in order are written. *)
Lemma write_steps_rows tables dest next :
  1 ≤ next → next - 1 ≤ sheet_max_row dest →
  (∀ table, table ∈ tables → ordered table.2) →
  let written := fold_left write_step tables (dest, next) in
  written.2 = next + region_offset tables (length tables)
  ∧ sheet_max_row written.1 = sheet_max_row dest `max` (written.2 - 1).
Proof.
  revert dest next. induction tables as [|[sheet range] tables IH];
    intros dest next Hnext Hmax Hordered.
  { unfold region_offset. cbn [fold_left fst snd take map sum_list_with length].
    split; lia. }
  rewrite write_steps_cons.
  destruct (ordered_counts range) as [Hrows _].
  { apply (Hordered (sheet, range)), list_elem_of_here. }
  destruct (IH (copy_range sheet dest range next 1) (next + row_count range))
    as (IH1 & IH2); [lia| | |].
  { rewrite copy_range_max_row;
      [lia|lia|lia|apply (Hordered (sheet, range)), list_elem_of_here]. }
  { intros table Htable. apply Hordered. by apply list_elem_of_further. }
  cbv zeta. cbn [length]. rewrite region_offset_S. cbn [fst snd]. split.
  - rewrite IH1. lia.
  - rewrite IH2, copy_range_max_row;
      [|lia|lia|apply (Hordered (sheet, range)), list_elem_of_here].
    rewrite IH1. lia.
Qed.

Lemma cell_new_sheet r c : cell new_sheet r c = blank_cell.
Proof. unfold cell, new_sheet. cbn [sheet_cells]. by destruct (_ && _). Qed.

Lemma write_tables_cell final_tables j table dr dc :
  final_tables !! j = Some table →
  dr < row_count table.2 → dc < column_count table.2 →
  cell (write_tables final_tables) (1 + region_offset final_tables j + dr) (1 + dc)
  = copy_cell (cell table.1 (min_row table.2 + dr) (min_col table.2 + dc)) blank_cell.
Proof.
  intros Hj Hdr Hdc. rewrite write_tables_steps.
  destruct (write_steps_cells final_tables new_sheet 1) as (_ & Hcells); [lia|].
  rewrite (Hcells j table dr dc Hj Hdr Hdc). by rewrite cell_new_sheet.
Qed.

Lemma write_tables_max_row final_tables :
  final_tables ≠ [] →
  (∀ table, table ∈ final_tables → ordered table.2) →
  sheet_max_row (write_tables final_tables)
  = region_offset final_tables (length final_tables).
Proof.
  intros Hne Hordered. rewrite write_tables_steps.
  destruct (write_steps_rows final_tables new_sheet 1) as (Hnext & Hmax);
    [lia|cbn; lia|done|].
  rewrite Hmax, Hnext. destruct final_tables as [|[sheet range] tables]; [done|].
  destruct (ordered_counts range) as [Hrows _].
  { apply (Hordered (sheet, range)), list_elem_of_here. }
  cbn [length]. rewrite region_offset_S.
  cbn [fst snd sheet_max_row new_sheet]. lia.
Qed.

Lemma copy_cell_border src dst :
  has_style src = true → border (copy_cell src dst) = border src.
Proof.
  intros Hstyle. unfold copy_cell. rewrite Hstyle. cbn [border].
  by destruct (border src).
Qed.

(** The tables of a walk that starts from a border range are border ranges. *)
Lemma continuation_walk_ordered sheet border_range index following table :
  find_border_range_in_sheet sheet = Some border_range →
  table ∈ (sheet, border_range)
          :: (continuation_walk sheet border_range index following).1 →
  find_border_range_in_sheet table.1 = Some table.2.
Proof.
  intros Hrange [->|Hin]%elem_of_cons; [done|].
  apply list_elem_of_lookup in Hin as [j Hj].
  destruct (continuation_walk_spec sheet border_range index following)
    as (_ & _ & Hchain & _).
  assert (is_Some ((border_range
                    :: map snd (continuation_walk sheet border_range index
                                  following).1) !! j)) as [current Hcurrent].
  { apply lookup_lt_is_Some. cbn [length]. rewrite length_map.
    apply lookup_lt_Some in Hj. lia. }
  by destruct (Hchain j table current Hj Hcurrent).
Qed.

(** C3: the walk starts from a sheet and its border range.  It appends the
    sheets that follow, in their original order, as long as each has a
    border range whose width [max_col - min_col + 1] equals that of the
    region before it, and stops at the first sheet that has none or whose
    width differs.  The regions are then written one below the other from
    row 1 without gaps: the rows of a region follow those of the regions
    before it, in their order, with the values and borders of the source
    cells, and the table has as many rows as the regions together.  Two
    regions bounded B2:F10 give 18 rows; a next sheet of another width
    leaves the first region alone. *)
Theorem continuation_walk_stacks_regions (sheet : Worksheet)
    (border_range : CellRange) (index : nat) (following : list Worksheet) :
  find_border_range_in_sheet sheet = Some border_range →
  let walk := continuation_walk sheet border_range index following in
  let final_tables := (sheet, border_range) :: walk.1 in
  let width (range : CellRange) : Z :=
    (Z.of_nat (max_col range) - Z.of_nat (min_col range) + 1)%Z in
  let height (range : CellRange) : nat := max_row range + 1 - min_row range in
  let rows_before (j : nat) : nat :=
    sum_list (map (fun table_info => height table_info.2) (take j final_tables)) in
  (∀ next_sheet rest,
     following = next_sheet :: rest →
     (walk.1 ≠ []
      ↔ ∃ next_range,
          find_border_range_in_sheet next_sheet = Some next_range
          ∧ width next_range = width border_range))
  ∧ map fst walk.1 = take (length walk.1) following
  ∧ walk.2 = index + length walk.1
  ∧ (∀ j table current,
       walk.1 !! j = Some table →
       (border_range :: map snd walk.1) !! j = Some current →
       find_border_range_in_sheet table.1 = Some table.2
       ∧ width table.2 = width current)
  ∧ (∀ next_sheet next_range,
       following !! length walk.1 = Some next_sheet →
       find_border_range_in_sheet next_sheet = Some next_range →
       width next_range ≠ width (default border_range (last (map snd walk.1))))
  ∧ (∀ j table dr dc,
       final_tables !! j = Some table →
       min_row table.2 + dr ≤ max_row table.2 →
       min_col table.2 + dc ≤ max_col table.2 →
       let dest :=
         cell (write_tables final_tables) (1 + rows_before j + dr) (1 + dc) in
       let src := cell table.1 (min_row table.2 + dr) (min_col table.2 + dc) in
       value_of dest = value_of src
       ∧ has_border dest = has_border src
       ∧ (has_style src = true → border dest = border src))
  ∧ sheet_max_row (write_tables final_tables) = rows_before (length final_tables)
  ∧ (∀ table, table ∈ final_tables →
       min_row table.2 ≤ max_row table.2 ∧ min_col table.2 ≤ max_col table.2)
  ∧ (∀ next_sheet,
       let B2_F10 := {| min_row := 2; max_row := 10; min_col := 2; max_col := 6 |} in
       border_range = B2_F10 →
       following = [next_sheet] →
       find_border_range_in_sheet next_sheet = Some B2_F10 →
       walk.1 = [(next_sheet, B2_F10)]
       ∧ sheet_max_row (write_tables final_tables) = 18)
  ∧ (∀ next_sheet next_range rest,
       following = next_sheet :: rest →
       find_border_range_in_sheet next_sheet = Some next_range →
       width next_range ≠ width border_range →
       walk = ([], index)
       ∧ sheet_max_row (write_tables final_tables) = height border_range).
Proof.
  intros Hstart walk final_tables width height rows_before.
  destruct (continuation_walk_spec sheet border_range index following)
    as (Hprefix & Hlast & Hchain & Hstop).
  fold walk in Hprefix, Hlast, Hchain, Hstop.
  assert (∀ table, table ∈ final_tables → ordered table.2) as Hordered.
  { intros table Htable. apply (find_border_range_ordered table.1).
    by apply (continuation_walk_ordered sheet border_range index following). }
  assert (sheet_max_row (write_tables final_tables)
          = rows_before (length final_tables)) as Hrows
    by (by apply write_tables_max_row).
  split_and!.
  - intros next_sheet rest ->. apply continuation_walk_head.
  - exact Hprefix.
  - exact Hlast.
  - exact Hchain.
  - exact Hstop.
  - intros j table dr dc Hj Hdr Hdc dest src. subst dest src.
    assert (dr < row_count table.2) as Hdr' by (unfold row_count; lia).
    assert (dc < column_count table.2) as Hdc' by (unfold column_count; lia).
    pose proof (write_tables_cell _ _ _ _ _ Hj Hdr' Hdc') as Hcell.
    change (region_offset final_tables j) with (rows_before j) in Hcell.
    rewrite Hcell.
    destruct (copy_cell_blank
                (cell table.1 (min_row table.2 + dr) (min_col table.2 + dc)))
      as [Hvalue Hborder].
    split_and!; [exact Hvalue|exact Hborder|apply copy_cell_border].
  - exact Hrows.
  - exact Hordered.
  - intros next_sheet B2_F10 -> -> Hnext.
    assert (walk.1 = [(next_sheet, B2_F10)]) as Hwalk.
    { subst walk. cbn [continuation_walk]. rewrite Hnext. reflexivity. }
    split; [done|]. rewrite Hrows. subst rows_before final_tables.
    cbv beta. rewrite Hwalk. reflexivity.
  - intros next_sheet next_range rest -> Hnext Hwidth.
    assert (walk = ([], index)) as Hwalk.
    { subst walk. cbn [continuation_walk]. rewrite Hnext.
      destruct (are_tables_similar sheet border_range next_sheet next_range)
        eqn:Hsimilar; [|reflexivity].
      apply are_tables_similar_width in Hsimilar. exfalso. apply Hwidth.
      symmetry. exact Hsimilar. }
    split; [exact Hwalk|]. rewrite Hrows. subst rows_before final_tables.
    cbv beta. rewrite Hwalk. cbn [fst length take map sum_list_with snd id].
    subst height. cbv beta. lia.
Qed.

(* --------------------------------------------------------------------- *)
(** ** The schema of the committed records *)
(* --------------------------------------------------------------------- *)

Lemma FINAL_COLUMN_ORDER_NoDup : NoDup FINAL_COLUMN_ORDER.
Proof.
  apply (bool_decide_unpack (NoDup FINAL_COLUMN_ORDER)). vm_compute. exact I.
Qed.

Lemma index_of_Some x l j : index_of x l = Some j → l !! j = Some x.
Proof.
  revert j. induction l as [|y l IH]; intros j; cbn [index_of]; [done|].
  destruct (str_eqb y x) eqn:Hy.
  - intros [= <-]. apply str_eqb_eq in Hy. by subst.
  - destruct (index_of x l) as [i|]; [|done]. intros [= <-]. by apply IH.
Qed.

Lemma index_of_NoDup x l j : NoDup l → l !! j = Some x → index_of x l = Some j.
Proof.
  intros Hl. revert j. induction Hl as [|y l Hy Hl IH]; intros j; [done|].
  cbn [index_of]. destruct j as [|j]; cbn.
  - intros [= ->]. by rewrite str_eqb_refl.
  - intros Hj. rewrite str_eqb_ne.
    + by rewrite (IH j Hj).
    + intros ->. apply Hy. by eapply list_elem_of_lookup_2.
Qed.

Lemma frame_value_by (df : DataFrame) (h : Py.str → value) col :
  NoDup (columns df) → col ∈ columns df →
  frame_value df (map h (columns df)) col = h col.
Proof.
  intros Hnd [j Hj]%list_elem_of_lookup_1. unfold frame_value.
  rewrite (index_of_NoDup _ _ _ Hnd Hj). cbn.
  by rewrite list_lookup_fmap, Hj.
Qed.

Lemma frame_value_row (df : DataFrame) (row : list value) :
  NoDup (columns df) → length row = length (columns df) →
  map (frame_value df row) (columns df) = row.
Proof.
  intros Hnd Hlen. apply list_eq. intros j. rewrite list_lookup_fmap.
  destruct (columns df !! j) as [col|] eqn:Hj; cbn.
  - unfold frame_value. rewrite (index_of_NoDup _ _ _ Hnd Hj). cbn.
    destruct (lookup_lt_is_Some_2 row j) as [v Hv].
    { rewrite Hlen. by eapply lookup_lt_Some. }
    by rewrite Hv.
  - symmetry. apply lookup_ge_None_2. rewrite Hlen. by apply lookup_ge_None_1.
Qed.

Lemma add_keys_spec (record : Py.dict) cols :
  NoDup cols →
  NoDup (fold_left add_key record cols)
  ∧ (∀ c, c ∈ cols → c ∈ fold_left add_key record cols)
  ∧ (∀ c v, dict_get record c = Some v → c ∈ fold_left add_key record cols).
Proof.
  revert cols. induction record as [|[k v] record IH]; intros cols Hnd; cbn [fold_left].
  { split_and!; [done|done|]. intros c v' Hget. discriminate Hget. }
  assert (NoDup (add_key cols (k, v)) ∧ k ∈ add_key cols (k, v)
          ∧ ∀ c, c ∈ cols → c ∈ add_key cols (k, v)) as (Hnd' & Hk & Hmono).
  { unfold add_key. cbn [fst]. case_bool_decide as Hin.
    - done.
    - split_and!.
      + apply NoDup_app. split_and!; [done| |apply NoDup_singleton].
        intros c Hc ->%list_elem_of_singleton. done.
      + apply elem_of_app. right. by apply list_elem_of_singleton.
      + intros c Hc. apply elem_of_app. by left. }
  destruct (IH _ Hnd') as (IH1 & IH2 & IH3). split_and!; [done|auto|].
  intros c v' Hget. cbn [dict_get] in Hget.
  destruct (str_eqb k c) eqn:Hkc.
  - apply str_eqb_eq in Hkc. subst c. auto.
  - by apply (IH3 c v').
Qed.

Lemma record_keys_spec (records : list Py.dict) :
  NoDup (record_keys records)
  ∧ ∀ record c v, record ∈ records → dict_get record c = Some v →
                  c ∈ record_keys records.
Proof.
  unfold record_keys, frame_of_records. cbn [columns].
  change (fun cols record =>
            fold_left (fun cols kv =>
                         if bool_decide (kv.1 ∈ cols) then cols else cols ++ [kv.1])
                      record cols)
    with (fun cols record => fold_left add_key record cols).
  assert (∀ cols, NoDup cols →
            NoDup (fold_left (fun cols record => fold_left add_key record cols)
                     records cols)
            ∧ (∀ c, c ∈ cols →
                 c ∈ fold_left (fun cols record => fold_left add_key record cols)
                       records cols)
            ∧ ∀ record c v, record ∈ records → dict_get record c = Some v →
                c ∈ fold_left (fun cols record => fold_left add_key record cols)
                      records cols) as Hgen.
  { induction records as [|first rest IH]; intros cols Hnd; cbn [fold_left].
    - split_and!; [done|done|]. intros record c v Hin. by apply elem_of_nil in Hin.
    - destruct (add_keys_spec first cols Hnd) as (H1 & H2 & H3).
      destruct (IH _ H1) as (IH1 & IH2 & IH3). split_and!; [done|auto|].
      intros record c v [->|Hin]%elem_of_cons Hget; [|by apply (IH3 record c v)].
      apply IH2. by apply (H3 c v). }
  destruct (Hgen [] (NoDup_nil_2)) as (H1 & _ & H3). by split.
Qed.

Lemma committed_value_isna enriched_data record col :
  dict_get record col = None → isna (committed_value enriched_data record col) = true.
Proof. unfold committed_value. intros ->. by case_bool_decide. Qed.

Lemma committed_value_present enriched_data record col v :
  dict_get record col = Some v → committed_value enriched_data record col = v.
Proof. unfold committed_value. by intros ->. Qed.

Lemma frame_by_ext cols records g h :
  (∀ record c, record ∈ records → c ∈ cols → g record c = h record c) →
  frame_by cols records g = frame_by cols records h.
Proof.
  intros Hext. unfold frame_by. f_equal.
  apply map_ext_in. intros record Hrecord%list_elem_of_In.
  apply map_ext_in. intros c Hc%list_elem_of_In. by apply Hext.
Qed.

Lemma frame_of_records_by records :
  frame_of_records records
  = frame_by (record_keys records) records (committed_value records).
Proof.
  transitivity (frame_by (record_keys records) records
                  (fun record c => default VNaN (dict_get record c))); [reflexivity|].
  apply frame_by_ext. intros record c Hrecord Hc. unfold committed_value.
  destruct (dict_get record c); [done|]. by rewrite bool_decide_true.
Qed.

Lemma ensure_column_by records cols col :
  NoDup cols → (∀ c, c ∈ record_keys records → c ∈ cols) →
  ∃ cols',
    ensure_column (frame_by cols records (committed_value records)) col
    = frame_by cols' records (committed_value records)
    ∧ NoDup cols' ∧ col ∈ cols' ∧ (∀ c, c ∈ cols → c ∈ cols').
Proof.
  intros Hnd Hkeys. unfold ensure_column. cbn [columns frame_by].
  case_bool_decide as Hin.
  - exists cols. by split_and!.
  - exists (cols ++ [col]). split_and!.
    + unfold frame_by. cbn [rows]. f_equal. rewrite map_map.
      apply map_ext_in. intros record Hrecord%list_elem_of_In.
      rewrite map_app. cbn [map]. do 2 f_equal.
      unfold committed_value.
      destruct (dict_get record col) as [v|] eqn:Hget.
      * exfalso. apply Hin, Hkeys.
        by apply (proj2 (record_keys_spec records) record col v).
      * rewrite bool_decide_false; [done|]. intros Hc. by apply Hin, Hkeys.
    + apply NoDup_app. split_and!; [done| |apply NoDup_singleton].
      intros c Hc ->%list_elem_of_singleton. done.
    + apply elem_of_app. right. by apply list_elem_of_singleton.
    + intros c Hc. apply elem_of_app. by left.
Qed.

Lemma ensure_columns_by records (wanted : list Py.str) cols :
  NoDup cols → (∀ c, c ∈ record_keys records → c ∈ cols) →
  ∃ cols',
    fold_left ensure_column wanted (frame_by cols records (committed_value records))
    = frame_by cols' records (committed_value records)
    ∧ NoDup cols' ∧ (∀ c, c ∈ wanted → c ∈ cols') ∧ (∀ c, c ∈ cols → c ∈ cols').
Proof.
  revert cols. induction wanted as [|col wanted IH]; intros cols Hnd Hkeys;
    cbn [fold_left].
  - exists cols. split_and!; [done|done| |done].
    intros c Hc. by apply elem_of_nil in Hc.
  - destruct (ensure_column_by records cols col Hnd Hkeys)
      as (cols1 & -> & Hnd1 & Hcol & Hmono).
    destruct (IH cols1 Hnd1) as (cols2 & Heq & Hnd2 & Hwanted & Hmono2);
      [by auto|].
    exists cols2. split_and!; [done|done| |by auto].
    intros c [->|Hc]%elem_of_cons; auto.
Qed.

Lemma select_columns_by records cols (wanted : list Py.str) g :
  NoDup cols → (∀ c, c ∈ wanted → c ∈ cols) →
  select_columns (frame_by cols records g) wanted = frame_by wanted records g.
Proof.
  intros Hnd Hwanted. unfold select_columns, frame_by. cbn [rows columns].
  f_equal. rewrite map_map.
  apply map_ext_in. intros record _.
  apply map_ext_in. intros c Hc%list_elem_of_In.
  apply (frame_value_by {| columns := cols; rows := _ |} (g record) c); [done|].
  by apply Hwanted.
Qed.

(** The frame appended for a group, cell by cell. *)
Lemma frame_to_append_by enriched_data :
  frame_to_append enriched_data
  = frame_by FINAL_COLUMN_ORDER enriched_data (committed_value enriched_data).
Proof.
  unfold frame_to_append. rewrite frame_of_records_by.
  destruct (record_keys_spec enriched_data) as [Hnd _].
  destruct (ensure_columns_by enriched_data FINAL_COLUMN_ORDER
              (record_keys enriched_data) Hnd)
    as (cols & -> & Hnd' & Hwanted & _); [done|].
  by apply select_columns_by.
Qed.

(* --------------------------------------------------------------------- *)
(** ** The output file across the groups and across runs *)
(* --------------------------------------------------------------------- *)

Lemma filter_none {A} (p : A → bool) (l : list A) :
  (∀ x, x ∈ l → p x = false) → List.filter p l = [].
Proof.
  induction l as [|x l IH]; intros Hall; [done|]. cbn [List.filter].
  rewrite (Hall x (list_elem_of_here _ _)). apply IH.
  intros y Hy. apply Hall. by apply list_elem_of_further.
Qed.

Lemma filter_all {A} (p : A → bool) (l : list A) :
  (∀ x, x ∈ l → p x = true) → List.filter p l = l.
Proof.
  induction l as [|x l IH]; intros Hall; [done|]. cbn [List.filter].
  rewrite (Hall x (list_elem_of_here _ _)). f_equal. apply IH.
  intros y Hy. apply Hall. by apply list_elem_of_further.
Qed.

Lemma frame_to_append_schema enriched_data : schema_frame (frame_to_append enriched_data).
Proof.
  rewrite frame_to_append_by. split; [reflexivity|].
  intros row (record & -> & _)%list_elem_of_fmap. apply length_map.
Qed.

Lemma concat_schema existing new_data_df :
  existing = empty_frame ∨ schema_frame existing →
  schema_frame new_data_df →
  concat existing new_data_df
  = {| columns := FINAL_COLUMN_ORDER; rows := rows existing ++ rows new_data_df |}.
Proof.
  intros Hexisting [Hcols Hrows].
  assert (map (fun row => map (frame_value new_data_df row) FINAL_COLUMN_ORDER)
              (rows new_data_df) = rows new_data_df) as Hnew.
  { rewrite <- (map_id (rows new_data_df)) at 2.
    apply map_ext_in. intros row Hrow%list_elem_of_In.
    rewrite <- Hcols. apply frame_value_row.
    - rewrite Hcols. apply FINAL_COLUMN_ORDER_NoDup.
    - rewrite Hcols. by apply Hrows. }
  destruct Hexisting as [->|[Hcols' Hrows']]; unfold concat.
  - cbn [columns rows empty_frame app map]. rewrite Hcols.
    rewrite filter_all.
    + by rewrite Hnew.
    + intros c _. rewrite bool_decide_false; [done|]. apply not_elem_of_nil.
  - rewrite Hcols, Hcols'. rewrite filter_none.
    + rewrite app_nil_r, Hnew. f_equal. f_equal.
      rewrite <- (map_id (rows existing)) at 2.
      apply map_ext_in. intros row Hrow%list_elem_of_In.
      rewrite <- Hcols'. apply frame_value_row.
      * rewrite Hcols'. apply FINAL_COLUMN_ORDER_NoDup.
      * rewrite Hcols'. by apply Hrows'.
    + intros c Hc. by rewrite bool_decide_true.
Qed.

(** What one group adds to the output file. *)
Lemma process_group_commits read_excel processed_groups file file_group :
  keeps_schema read_excel →
  schema_file file →
  group_identifier file_group ∉ processed_groups →
  records_of_group file_group ≠ [] →
  process_group read_excel processed_groups file file_group
  = Some {| Panel_Data :=
              {| columns := FINAL_COLUMN_ORDER;
                 rows := reread_rows read_excel file
                         ++ map (committed_row file_group)
                              (records_of_group file_group) |};
            processing_log := log_of file ++ [group_identifier file_group] |}.
Proof.
  intros Hread Hfile Hnew Hrecords. unfold process_group.
  rewrite bool_decide_false by done.
  destruct (records_of_group file_group) as [|record records] eqn:Hrec; [done|].
  rewrite <- Hrec. unfold append_data_and_log_to_excel. f_equal.
  assert (rows (frame_to_append (records_of_group file_group))
          = map (committed_row file_group) (records_of_group file_group)) as Hrows.
  { by rewrite frame_to_append_by. }
  destruct file as [f|]; cbn [reread_rows log_of]; f_equal.
  - rewrite concat_schema;
      [by rewrite Hrows|right; by apply Hread|apply frame_to_append_schema].
  - rewrite concat_schema; [by rewrite Hrows|by left|apply frame_to_append_schema].
Qed.

Lemma process_group_skips read_excel processed_groups file file_group :
  group_identifier file_group ∈ processed_groups
  ∨ records_of_group file_group = [] →
  process_group read_excel processed_groups file file_group = file.
Proof.
  unfold process_group. intros [Hin|Hnone].
  - by rewrite bool_decide_true.
  - rewrite Hnone. by case_bool_decide.
Qed.

Lemma process_group_cases read_excel processed_groups file file_group :
  (process_group read_excel processed_groups file file_group = file
   ∧ (group_identifier file_group ∈ processed_groups
      ∨ records_of_group file_group = []))
  ∨ ((group_identifier file_group ∉ processed_groups)
     ∧ records_of_group file_group ≠ []).
Proof.
  destruct (decide (group_identifier file_group ∈ processed_groups)) as [Hin|Hout].
  { left. split; [apply process_group_skips|]; by left. }
  destruct (records_of_group file_group) as [|record records] eqn:Hrec.
  { left. split; [apply process_group_skips|]; by right. }
  right. by split.
Qed.

Lemma process_group_schema read_excel processed_groups file file_group :
  keeps_schema read_excel →
  schema_file file →
  schema_file (process_group read_excel processed_groups file file_group).
Proof.
  intros Hread Hfile.
  destruct (process_group_cases read_excel processed_groups file file_group)
    as [[-> _]|[Hnew Hrecords]]; [done|].
  rewrite (process_group_commits _ _ _ _ Hread Hfile Hnew Hrecords).
  cbn [schema_file Panel_Data]. split; [reflexivity|].
  cbn [rows]. intros row [Hrow|Hrow]%elem_of_app.
  - destruct file as [f|]; cbn [reread_rows] in Hrow;
      [|by apply elem_of_nil in Hrow].
    by apply (Hread (Panel_Data f) Hfile).
  - apply list_elem_of_fmap in Hrow as (record & -> & _). apply length_map.
Qed.

(** The loop of [main] over any list of groups keeps the schema. *)
Lemma process_groups_schema read_excel processed_groups (groups : list FileGroup)
    file :
  keeps_schema read_excel →
  schema_file file →
  schema_file (fold_left (process_group read_excel processed_groups) groups file).
Proof.
  intros Hread. revert file. induction groups as [|first rest IH]; intros file Hfile;
    cbn [fold_left]; [done|].
  apply IH. by apply process_group_schema.
Qed.



(** C4: the frame appended for a group has the labels of
    [FINAL_COLUMN_ORDER], in that order, and a row for each record with one
    cell for each label: the record's value under the label, or a missing
    value ([None] or [nan]) when the record has no such key.  The data
    sheet is read back before each append; as long as reading back keeps
    the labels and the width of the rows, the output file after [main],
    started from no file or from one with these labels, has these labels
    and one cell for each label in every data row. *)
Theorem committed_records_have_full_schema :
  (∀ enriched_data,
     frame_to_append enriched_data
     = {| columns := FINAL_COLUMN_ORDER;
          rows := map (fun record =>
                         map (committed_value enriched_data record)
                             FINAL_COLUMN_ORDER)
                      enriched_data |})
  ∧ (∀ enriched_data record col,
       match dict_get record col with
       | Some v => committed_value enriched_data record col = v
       | None => isna (committed_value enriched_data record col) = true
       end)
  ∧ (∀ read_excel file excel_file_groups,
       (∀ df, schema_frame df → schema_frame (read_excel df)) →
       schema_file file →
       schema_file (main read_excel file excel_file_groups)
       ∧ ∀ f, main read_excel file excel_file_groups = Some f →
           columns (Panel_Data f) = FINAL_COLUMN_ORDER
           ∧ ∀ row, row ∈ rows (Panel_Data f) →
               length row = length FINAL_COLUMN_ORDER)
  ∧ FINAL_COLUMN_ORDER
    = map fst COLS_TO_FIND_BY_HEADER ++ HEADERS_TO_FIND ++ DATA_COL_NAMES
      ++ [SPECIAL_COL_NAME] ++ EXTENDED_VAR_NAMES ++ [ADDITIONAL_VAR_NAME]
      ++ [lit "年份"; lit "地区"; lit "数据来源"]
  ∧ NoDup FINAL_COLUMN_ORDER.
Proof.
  split_and!.
  - intros enriched_data. apply frame_to_append_by.
  - intros enriched_data record col.
    destruct (dict_get record col) as [v|] eqn:Hget.
    + by apply committed_value_present.
    + by apply committed_value_isna.
  - intros read_excel file groups Hread Hfile. unfold main.
    pose proof (process_groups_schema read_excel
                  (load_processed_log_from_excel file) groups file Hread Hfile)
      as Hout.
    split; [exact Hout|]. intros f Hf. rewrite Hf in Hout. exact Hout.
  - reflexivity.
  - apply FINAL_COLUMN_ORDER_NoDup.
Qed.


(* --------------------------------------------------------------------- *)
(** ** The properties on the sample workbooks *)
(* --------------------------------------------------------------------- *)

Lemma records_paired_by_occurrence_witness :
  let record := default [] (extract_base_data sample_consolidated !! 1) in
  extract_base_data sample_consolidated !! 1 = Some record
  ∧ count_named (cleaned_name record) (take 2 (extract_base_data sample_consolidated))
    = 2
  ∧ anchors_in_scan_order sample_sheets 1 (cleaned_name record) = [(1, 1, 2); (1, 4, 2)]
  ∧ extract_data_with_extended_vars sample_consolidated sample_sheets 0
      (metadata_of sample_group) !! 1
    = Some (dict_update
              (dict_del
                 (dict_update (with_occurrence record 2)
                    (extract_vars_from_anchor (Some (1, 4, 2)) sample_sheets))
                 OCCURRENCE_KEY)
              (metadata_of sample_group)).
Proof.
  intros record.
  assert (extract_base_data sample_consolidated !! 1 = Some record) as Hrecord
    by (vm_compute; reflexivity).
  assert (count_named (cleaned_name record)
            (take 2 (extract_base_data sample_consolidated)) = 2) as Hk
    by (vm_compute; reflexivity).
  assert (anchors_in_scan_order sample_sheets 1 (cleaned_name record)
          = [(1, 1, 2); (1, 4, 2)]) as Hanchors
    by (vm_compute; reflexivity).
  pose proof (records_paired_by_occurrence sample_consolidated sample_sheets 0
                (metadata_of sample_group) 1 record Hrecord) as Hpaired.
  cbv zeta in Hpaired. destruct Hpaired as (Hpaired & _ & _).
  change (Z.to_nat (0 + 1)) with 1 in Hpaired.
  rewrite Hk, Hanchors in Hpaired.
  split_and!; [exact Hrecord|exact Hk|exact Hanchors|exact Hpaired].
Defined.

Lemma consolidation_starts_at_first_bordered_match_witness :
  let table_range := {| min_row := 2; max_row := 4; min_col := 1; max_col := 7 |} in
  let walk :=
    continuation_walk sample_table table_range 1
      (drop 2 [sample_cover; sample_table]) in
  load_group (group_files sample_cover_group) = Some [sample_cover; sample_table]
  ∧ find_border_range_in_sheet sample_cover = None
  ∧ consolidate_tables_from_group (group_files sample_cover_group)
      PATTERN_TO_FIND_search SCAN_ROW_LIMIT
    = (Some (write_tables ((sample_table, table_range) :: walk.1)),
       [sample_cover; sample_table], Z.of_nat walk.2).
Proof.
  intros table_range walk.
  assert (load_group (group_files sample_cover_group)
          = Some [sample_cover; sample_table]) as Hload by reflexivity.
  assert (find_border_range_in_sheet sample_cover = None) as Hcover
    by (vm_compute; reflexivity).
  split_and!; [exact Hload|exact Hcover|].
  pose proof (consolidation_starts_at_first_bordered_match
                (group_files sample_cover_group) PATTERN_TO_FIND_search
                SCAN_ROW_LIMIT [sample_cover; sample_table] Hload) as Hthm.
  cbv zeta in Hthm. destruct Hthm as (_ & Hfirst & _).
  apply (Hfirst [(sample_cover, 0)] sample_table 1 table_range []).
  - vm_compute. reflexivity.
  - intros info Hinfo%list_elem_of_singleton. subst info. exact Hcover.
  - vm_compute. reflexivity.
Defined.

(** C2, counterexample: in a group whose first titled sheet has no border
    and whose second titled sheet has a bordered table, the consolidation
    succeeds with the table of the second sheet. *)
Lemma later_titled_sheet_is_consolidated :
  map snd (match_sheets PATTERN_TO_FIND_search SCAN_ROW_LIMIT 0
             [sample_cover; sample_table]) = [0; 1]
  ∧ find_border_range_in_sheet sample_cover = None
  ∧ (consolidate_tables_from_group (group_files sample_cover_group)
       PATTERN_TO_FIND_search SCAN_ROW_LIMIT).2 = 1%Z
  ∧ sheet_max_row
      <$> (consolidate_tables_from_group (group_files sample_cover_group)
             PATTERN_TO_FIND_search SCAN_ROW_LIMIT).1.1 = Some 3.
Proof. split_and!; vm_compute; reflexivity. Qed.

Lemma continuation_walk_stacks_regions_witness :
  let table_range := {| min_row := 2; max_row := 4; min_col := 1; max_col := 7 |} in
  let narrow_range := {| min_row := 1; max_row := 1; min_col := 1; max_col := 2 |} in
  let following := [sample_table; sample_narrow; sample_table] in
  let walk := continuation_walk sample_table table_range 0 following in
  find_border_range_in_sheet sample_table = Some table_range
  ∧ find_border_range_in_sheet sample_narrow = Some narrow_range
  ∧ walk = ([(sample_table, table_range)], 1)
  ∧ sheet_max_row (write_tables ((sample_table, table_range) :: walk.1)) = 6.
Proof.
  intros table_range narrow_range following walk.
  assert (find_border_range_in_sheet sample_table = Some table_range) as Hstart
    by (vm_compute; reflexivity).
  pose proof (continuation_walk_stacks_regions sample_table table_range 0 following
                Hstart) as Hthm.
  cbv zeta in Hthm. destruct Hthm as (_ & _ & _ & _ & _ & _ & Hrows & _).
  split_and!; [exact Hstart|vm_compute; reflexivity|vm_compute; reflexivity|].
  subst walk. rewrite Hrows. vm_compute. reflexivity.
Defined.

Lemma committed_records_have_full_schema_witness :
  (∀ df, schema_frame df → schema_frame (sample_read_excel df))
  ∧ schema_file (main sample_read_excel None [sample_group; sample_untitled_group])
  ∧ length (rows_of (main sample_read_excel None
                       [sample_group; sample_untitled_group])) = 2.
Proof.
  assert (∀ df, schema_frame df → schema_frame (sample_read_excel df)) as Hread.
  { intros df [Hcols Hrows]. split; [exact Hcols|].
    unfold sample_read_excel. cbn [rows].
    intros row (row0 & -> & Hrow0)%list_elem_of_fmap.
    rewrite length_map. by apply Hrows. }
  destruct committed_records_have_full_schema as (_ & _ & Hfile & _).
  split_and!; [exact Hread| |vm_compute; reflexivity].
  exact (proj1 (Hfile sample_read_excel None [sample_group; sample_untitled_group]
                  Hread I)).
Defined.


Lemma logical_starts_layout_witness :
  row_merges_disjoint sample_merged_row 1
  ∧ layout_characterised sample_merged_row 1
  ∧ take 3 (get_logical_starts_for_row sample_merged_row 1) = [1; 2; 4].
Proof.
  assert (row_merges_disjoint sample_merged_row 1) as Hdisjoint.
  { intros m1 m2 c Hm1 Hm2 _ _.
    apply list_elem_of_singleton in Hm1, Hm2. congruence. }
  destruct (logical_starts_layout sample_merged_row 1) as [Hlayout Hstarts].
  split_and!; [exact Hdisjoint|exact (Hlayout Hdisjoint)|]. apply Hstarts.
  - eexists. split; [apply list_elem_of_here|]. unfold meets_row; cbn; lia.
  - intros m Hm%list_elem_of_singleton _. subst m. cbn. lia.
  - cbn. lia.
Defined.

(** C6, at the failing input: a row of three columns with the overlapping
    merged ranges A1:B1 and B1:C1.  Column 3 lies inside the range B1:C1,
    which starts at column 2, and is a logical start all the same, in
    whichever order the two ranges are visited. *)
Lemma overlapping_merges_break_layout :
  get_logical_starts_for_row sample_overlap_row 1 = [1; 3]
  ∧ get_logical_starts_for_row
      {| sheet_max_row := sheet_max_row sample_overlap_row;
         sheet_max_column := sheet_max_column sample_overlap_row;
         sheet_cells := sheet_cells sample_overlap_row;
         merged_cells := rev (merged_cells sample_overlap_row) |} 1 = [1; 3]
  ∧ inside_earlier_merge sample_overlap_row 1 3
  ∧ ¬ layout_characterised sample_overlap_row 1.
Proof.
  assert (get_logical_starts_for_row sample_overlap_row 1 = [1; 3]) as Hstarts
    by (vm_compute; reflexivity).
  assert (inside_earlier_merge sample_overlap_row 1 3) as Hinside.
  { exists {| min_row := 1; max_row := 1; min_col := 2; max_col := 3 |}, 2.
    split_and!; [|lia|lia|reflexivity|reflexivity].
    apply list_elem_of_further, list_elem_of_here. }
  split_and!; [exact Hstarts|vm_compute; reflexivity|exact Hinside|].
  intros Hlayout. destruct (Hlayout 3) as [Hthree _].
  destruct Hthree as [_ Hnot]; [|by apply Hnot].
  rewrite Hstarts. apply list_elem_of_further, list_elem_of_here.
Qed.

Lemma manual_ffill_nearest_above_witness :
  2 < length sample_grid
  ∧ (clean_cell (grid_get sample_grid 2 0) ≠ [] →
     grid_get (manual_ffill sample_grid) 2 0 = grid_get sample_grid 2 0)
  ∧ (clean_cell (grid_get sample_grid 2 0) = [] →
     (∃ r', r' < 2
            ∧ clean_cell (grid_get sample_grid r' 0) ≠ []
            ∧ (∀ r'', r' < r'' < 2 → clean_cell (grid_get sample_grid r'' 0) = [])
            ∧ grid_get (manual_ffill sample_grid) 2 0 = grid_get sample_grid r' 0)
     ∨ ((∀ r', r' < 2 → clean_cell (grid_get sample_grid r' 0) = [])
        ∧ grid_get (manual_ffill sample_grid) 2 0 = grid_get sample_grid 2 0)).
Proof.
  assert (2 < length sample_grid) as Hrow by (cbn; lia).
  split; [exact Hrow|]. exact (manual_ffill_nearest_above sample_grid 2 0 Hrow).
Defined.

Lemma special_field_last_bordered_value_witness :
  let data_original := sheet_values sample_consolidated in
  let data_filled := manual_ffill data_original in
  let found_cols_map :=
    find_cols (map clean_cell (default [] (data_filled !! 0))) in
  let record := default [] (extract_base_data sample_consolidated !! 1) in
  find_header data_filled = Some (0, 1)
  ∧ base_row sample_consolidated data_original data_filled 1 found_cols_map 2
    = Some record
  ∧ dict_get record SPECIAL_COL_NAME = Some (VInt 5)
  ∧ dict_get record PROJECT_NAME_KEY = Some (grid_get data_filled 2 1)
  ∧ ((∃ c, 1 ≤ c ≤ sheet_max_column sample_consolidated
           ∧ has_border (cell sample_consolidated (2 + 1) c) = true
           ∧ value_of (cell sample_consolidated (2 + 1) c) ≠ VNone
           ∧ (∀ c', c < c' ≤ sheet_max_column sample_consolidated →
                    has_border (cell sample_consolidated (2 + 1) c') = true →
                    value_of (cell sample_consolidated (2 + 1) c') = VNone)
           ∧ dict_get record SPECIAL_COL_NAME
             = Some (value_of (cell sample_consolidated (2 + 1) c)))
     ∨ ((∀ c, 1 ≤ c ≤ sheet_max_column sample_consolidated →
              has_border (cell sample_consolidated (2 + 1) c) = true →
              value_of (cell sample_consolidated (2 + 1) c) = VNone)
        ∧ dict_get record SPECIAL_COL_NAME = Some VNone)).
Proof.
  intros data_original data_filled found_cols_map record.
  assert (find_header data_filled = Some (0, 1)) as Hheader
    by (vm_compute; reflexivity).
  assert (base_row sample_consolidated data_original data_filled 1 found_cols_map 2
          = Some record) as Hrow by (vm_compute; reflexivity).
  assert (dict_get record SPECIAL_COL_NAME = Some (VInt 5)) as Hspecial
    by (vm_compute; reflexivity).
  destruct (special_field_last_bordered_value sample_consolidated 0 1 Hheader)
    as [_ Hrows].
  destruct (Hrows 2 record Hrow) as [Hname Hscan].
  split_and!; [exact Hheader|exact Hrow|exact Hspecial|exact Hname|exact Hscan].
Defined.

(** C8, counterexample: in the second base row of the sample table the last
    bordered cell, in column 7, is empty; the special field is the value of
    the bordered cell in column 6. *)
Lemma empty_bordered_cell_is_passed_over :
  sheet_max_column sample_consolidated = 7
  ∧ has_border (cell sample_consolidated 3 7) = true
  ∧ value_of (cell sample_consolidated 3 7) = VNone
  ∧ spec_last_bordered_value sample_consolidated 3 = VNone
  ∧ (extract_base_data sample_consolidated !! 1
     ≫= fun record => dict_get record SPECIAL_COL_NAME) = Some (VInt 5).
Proof. split_and!; vm_compute; reflexivity. Qed.

Lemma exhausted_fields_absent_witness :
  EXTENDED_VAR_NAMES !! 5 = Some (lit "运营期")
  ∧ length (bordered_values_from sample_sheets 2 1 (4 + 1)) = 2
  ∧ dict_get (extract_vars_from_anchor (Some (1, 4, 2)) sample_sheets) (lit "运营期")
    = Some VNone.
Proof.
  assert (EXTENDED_VAR_NAMES !! 5 = Some (lit "运营期")) as Hname
    by (vm_compute; reflexivity).
  assert (length (bordered_values_from sample_sheets 2 1 (4 + 1)) = 2) as Hfound
    by (vm_compute; reflexivity).
  split_and!; [exact Hname|exact Hfound|].
  pose proof (exhausted_fields_absent sample_sheets 1 4 2 5 (lit "运营期") Hname)
    as Hthm.
  cbv zeta in Hthm. destruct Hthm as (_ & Habsent & _).
  apply Habsent. rewrite Hfound. lia.
Defined.

(* ===================================================================== *)
(** * Part III: further properties of the program                         *)
(* ===================================================================== *)

(* --------------------------------------------------------------------- *)
(** ** The cleaning helpers *)
(* --------------------------------------------------------------------- *)

Lemma filter_filter_implied {A} (p q : A → bool) (l : list A) :
  (∀ x, p x = true → q x = true) →
  List.filter p (List.filter q l) = List.filter p l.
Proof.
  intros Himp. induction l as [|x l IH]; [done|]. cbn [List.filter].
  destruct (q x) eqn:Hq; cbn [List.filter].
  - by rewrite IH.
  - destruct (p x) eqn:Hp; [|done]. apply Himp in Hp. congruence.
Qed.

Lemma filter_id {A} (p : A → bool) (l : list A) :
  (∀ x, x ∈ l → p x = true) → List.filter p l = l.
Proof.
  induction l as [|x l IH]; intros Hall; [done|]. cbn [List.filter].
  rewrite (Hall x (list_elem_of_here _ _)). f_equal. apply IH.
  intros y Hy. apply Hall. by apply list_elem_of_further.
Qed.

Lemma elem_of_filter_true {A} (p : A → bool) (l : list A) x :
  x ∈ List.filter p l → p x = true ∧ x ∈ l.
Proof.
  intros Hx%list_elem_of_In. apply filter_In in Hx as [Hin Hp].
  split; [done|]. by apply list_elem_of_In.
Qed.

Lemma is_cjk_range c : is_cjk c = true ↔ (0x4E00 ≤ c ≤ 0x9FA5)%N.
Proof.
  unfold is_cjk. rewrite andb_true_iff, !N.leb_le. done.
Qed.

Lemma is_cjk_not_space c : is_cjk c = true → is_space c = false.
Proof.
  intros [Hlo Hhi]%is_cjk_range. unfold is_space.
  repeat match goal with
         | |- context [(?a <=? ?b)%N] => destruct (N.leb_spec a b)
         | |- context [(?a =? ?b)%N] => destruct (N.eqb_spec a b)
         end; try reflexivity; lia.
Qed.

(** [clean_cell] leaves no whitespace character, gives the empty string for
    [None] and [nan], and leaves a text without whitespace as it is; so
    cleaning a cleaned text changes nothing. *)
Theorem clean_cell_strips_whitespace (cell_value : value) :
  (∀ c, c ∈ clean_cell cell_value → is_space c = false)
  ∧ (isna cell_value = true → clean_cell cell_value = [])
  ∧ (∀ s, (∀ c, c ∈ s → is_space c = false) → clean_cell (VStr s) = s)
  ∧ clean_cell (VStr (clean_cell cell_value)) = clean_cell cell_value.
Proof.
  assert (∀ c, c ∈ clean_cell cell_value → is_space c = false) as Hclean.
  { unfold clean_cell. destruct (isna cell_value).
    - intros c Hc. by apply elem_of_nil in Hc.
    - intros c [Hc _]%elem_of_filter_true. by apply negb_true_iff in Hc. }
  assert (∀ s, (∀ c, c ∈ s → is_space c = false) → clean_cell (VStr s) = s)
    as Hfixed.
  { intros s Hs. unfold clean_cell. cbn [isna to_str]. apply filter_id.
    intros c Hc. apply negb_true_iff. by apply Hs. }
  split_and!; [exact Hclean| |exact Hfixed|by apply Hfixed].
  unfold clean_cell. by intros ->.
Qed.

(** [clean_for_matching] keeps exactly the characters from U+4E00 to U+9FA5,
    in their order; it gives the same result on a value and on the text
    [clean_cell] makes of it, and cleaning its result again changes
    nothing. *)
Theorem clean_for_matching_keeps_chinese (cell_value : value) :
  (∀ c, c ∈ clean_for_matching cell_value → (0x4E00 ≤ c ≤ 0x9FA5)%N)
  ∧ (isna cell_value = false →
     clean_for_matching cell_value = List.filter is_cjk (to_str cell_value))
  ∧ clean_for_matching (VStr (clean_cell cell_value))
    = clean_for_matching cell_value
  ∧ clean_for_matching (VStr (clean_for_matching cell_value))
    = clean_for_matching cell_value.
Proof.
  split_and!.
  - unfold clean_for_matching. destruct (isna cell_value).
    + intros c Hc. by apply elem_of_nil in Hc.
    + intros c [Hc _]%elem_of_filter_true. by apply is_cjk_range.
  - unfold clean_for_matching. by intros ->.
  - unfold clean_for_matching, clean_cell. cbn [isna to_str].
    destruct (isna cell_value); [done|].
    apply filter_filter_implied. intros c Hc.
    apply negb_true_iff. by apply is_cjk_not_space.
  - unfold clean_for_matching. cbn [isna to_str].
    destruct (isna cell_value); [done|].
    by apply filter_filter_implied.
Qed.

(* --------------------------------------------------------------------- *)
(** ** Forward fill: the shape of the result and a second pass *)
(* --------------------------------------------------------------------- *)

Lemma manual_ffill_rectangular data :
  rectangular (max_list (map length data)) (manual_ffill data).
Proof.
  destruct data as [|row0 data']; [by apply Forall_nil|].
  unfold manual_ffill. set (data := row0 :: data').
  by destruct (ffill_columns_spec _ _ (max_list (map length data))
                 (padded_rectangular data) (le_n _)) as (Hrect & _ & _).
Qed.

(** [manual_ffill] returns as many rows as it was given, each padded to the
    length of the longest row; the empty grid gives the empty grid. *)
Theorem manual_ffill_shape (data : list (list value)) :
  length (manual_ffill data) = length data
  ∧ (∀ row, row ∈ manual_ffill data → length row = max_list (map length data))
  ∧ (data = [] → manual_ffill data = []).
Proof.
  split_and!.
  - by destruct (manual_ffill_spec data 0 0) as [Hlen _].
  - intros row Hrow. pose proof (manual_ffill_rectangular data) as Hrect.
    unfold rectangular in Hrect. rewrite Forall_forall in Hrect. by apply Hrect.
  - by intros ->.
Qed.

Lemma rectangular_ext n (g g' : list (list value)) :
  length g = length g' → rectangular n g → rectangular n g' →
  (∀ r c, grid_get g r c = grid_get g' r c) → g = g'.
Proof.
  intros Hlen Hg Hg' Hget. apply list_eq. intros r.
  destruct (g !! r) as [row|] eqn:Hrow.
  - destruct (lookup_lt_is_Some_2 g' r) as [row' Hrow'].
    { rewrite <- Hlen. by eapply lookup_lt_Some. }
    rewrite Hrow'. f_equal.
    unfold rectangular in Hg, Hg'. rewrite Forall_forall in Hg, Hg'.
    pose proof (Hg row (list_elem_of_lookup_2 _ _ _ Hrow)) as Hn.
    pose proof (Hg' row' (list_elem_of_lookup_2 _ _ _ Hrow')) as Hn'.
    apply list_eq. intros c. specialize (Hget r c). unfold grid_get in Hget.
    rewrite Hrow, Hrow' in Hget. cbn in Hget.
    destruct (row !! c) as [x|] eqn:Hx, (row' !! c) as [x'|] eqn:Hx'; cbn in Hget.
    + by subst.
    + apply lookup_lt_Some in Hx. apply lookup_ge_None_1 in Hx'. lia.
    + apply lookup_lt_Some in Hx'. apply lookup_ge_None_1 in Hx. lia.
    + done.
  - symmetry. apply lookup_ge_None_2. rewrite <- Hlen. by apply lookup_ge_None_1.
Qed.

Lemma filled_value_filled g c r :
  is_filled (filled_value g c r) = false →
  is_filled (grid_get g r c) = false ∧ is_None (carry g c r) = true.
Proof.
  unfold filled_value. destruct (is_filled (grid_get g r c)) eqn:Hf; [congruence|].
  destruct (carry_nearest g c r) as [[Hn (r' & _ & Hr' & _ & Heq)]|[Hn _]];
    rewrite Hn; cbn; [|done].
  rewrite Heq. congruence.
Qed.

(** A second forward fill changes nothing. *)
Theorem manual_ffill_idempotent (data : list (list value)) :
  manual_ffill (manual_ffill data) = manual_ffill data.
Proof.
  destruct (manual_ffill_spec data 0 0) as [Hlen _].
  pose proof (manual_ffill_rectangular data) as Hrect.
  assert (max_list (map length (manual_ffill data)) = max_list (map length data)
          ∨ manual_ffill data = []) as [Hwidth|Hnil].
  { destruct (manual_ffill data) as [|row rows] eqn:Hfilled; [by right|left].
    unfold rectangular in Hrect. rewrite Forall_forall in Hrect.
    set (n := max_list (map length data)) in *.
    assert (∀ l : list (list value), (∀ x, x ∈ l → length x = n) → l ≠ [] →
              max_list (map length l) = n) as Hmax.
    { clear. intros l Hall Hne. induction l as [|x l IH]; [done|]. cbn.
      rewrite (Hall x (list_elem_of_here _ _)).
      destruct l as [|y l]; [cbn; lia|].
      rewrite IH; [lia| |done]. intros z Hz. apply Hall. by apply list_elem_of_further. }
    apply Hmax; [done|done]. }
  2: { by rewrite Hnil. }
  apply (rectangular_ext (max_list (map length data))).
  - by destruct (manual_ffill_spec (manual_ffill data) 0 0) as [-> _].
  - rewrite <- Hwidth. apply manual_ffill_rectangular.
  - exact Hrect.
  - intros r c. destruct (manual_ffill_spec (manual_ffill data) r c) as [_ ->].
    rewrite Hlen. destruct (decide (r < length data)) as [Hr|]; [|done].
    assert (∀ r', r' < length data →
              grid_get (manual_ffill data) r' c = filled_value data c r') as Hcell.
    { intros r' Hr'. destruct (manual_ffill_spec data r' c) as [_ ->].
      by rewrite decide_True. }
    unfold filled_value at 1.
    destruct (is_filled (grid_get (manual_ffill data) r c)) eqn:Hf; [done|].
    assert (is_None (carry (manual_ffill data) c r) = true) as ->; [|done].
    rewrite Hcell in Hf by done. apply filled_value_filled in Hf as [Hcur Hcarry].
    destruct (carry_nearest (manual_ffill data) c r)
      as [[_ (r' & Hr' & Hfilled & _ & _)]|[Hn _]]; [|done].
    exfalso. rewrite Hcell in Hfilled by lia.
    destruct (carry_nearest data c r) as [[Hn _]|[_ Hall]]; [congruence|].
    unfold filled_value in Hfilled. rewrite (Hall r' Hr') in Hfilled.
    destruct (carry_nearest data c r')
      as [[Hn' (r'' & Hr'' & Hf'' & _ & Heq)]|[Hn' _]];
      rewrite Hn' in Hfilled; cbn in Hfilled.
    + rewrite (Hall r'') in Hf'' by lia. done.
    + rewrite (Hall r' Hr') in Hfilled. done.
Qed.

(* --------------------------------------------------------------------- *)
(** ** The memo table of the row layouts *)
(* --------------------------------------------------------------------- *)

Lemma layouts_with_cache_from (sheet : Worksheet) (row_nums : list nat)
    (done_so_far : list (list nat)) (cache : gmap nat (list nat)) :
  cache_coherent sheet cache →
  let st :=
    fold_left
      (fun st row_num =>
         let '(starts, cache') :=
           get_logical_starts_for_row_cached st.2 sheet row_num in
         (st.1 ++ [starts], cache'))
      row_nums (done_so_far, cache) in
  st.1 = done_so_far ++ map (get_logical_starts_for_row sheet) row_nums
  ∧ cache_coherent sheet st.2.
Proof.
  revert done_so_far cache.
  induction row_nums as [|row_num row_nums IH]; intros done_so_far cache Hcache;
    cbn [fold_left].
  { cbn. by rewrite app_nil_r. }
  destruct (get_logical_starts_for_row_cached_spec cache sheet row_num Hcache)
    as [Hstarts Hcache'].
  cbn [fst snd].
  destruct (get_logical_starts_for_row_cached cache sheet row_num)
    as [starts cache'] eqn:Hcall.
  cbn [fst snd] in *. subst starts.
  destruct (IH (done_so_far ++ [get_logical_starts_for_row sheet row_num]) cache'
              Hcache') as (IH1 & IH2).
  cbv zeta in *. split; [|exact IH2].
  rewrite IH1. cbn [map]. by rewrite <- app_assoc.
Qed.

(** The memo table never changes a result: a sequence of calls that starts
    with an empty table returns, call by call, the layouts computed without
    a table, and every entry it leaves in the table is the layout of its
    row. *)
Theorem memo_table_is_transparent (sheet : Worksheet) (row_nums : list nat) :
  (layouts_with_cache sheet row_nums ∅).1
  = map (get_logical_starts_for_row sheet) row_nums
  ∧ ∀ row_num starts,
      (layouts_with_cache sheet row_nums ∅).2 !! row_num = Some starts →
      starts = get_logical_starts_for_row sheet row_num.
Proof.
  destruct (layouts_with_cache_from sheet row_nums [] ∅ (cache_coherent_empty sheet))
    as [Hresults Hcache].
  split; [exact Hresults|exact Hcache].
Qed.

(* --------------------------------------------------------------------- *)
(** ** The border range is the bounding box of the bordered cells *)
(* --------------------------------------------------------------------- *)

Lemma scan_state_iff (seen seen' : nat → nat → Prop) acc :
  (∀ r c, seen r c ↔ seen' r c) → scan_state seen acc → scan_state seen' acc.
Proof.
  intros Hiff. destruct acc as [range|]; cbn.
  - intros (Hin & [c1 H1] & [c2 H2] & [r3 H3] & [r4 H4]). split_and!.
    + intros r c Hs. apply Hin. by apply Hiff.
    + exists c1. by apply Hiff.
    + exists c2. by apply Hiff.
    + exists r3. by apply Hiff.
    + exists r4. by apply Hiff.
  - intros Hnone r c Hs. apply (Hnone r c). by apply Hiff.
Qed.

Lemma extend_range_state (seen : nat → nat → Prop) acc r0 c0 :
  scan_state seen acc →
  scan_state (fun r c => seen r c ∨ (r = r0 ∧ c = c0)) (extend_range acc r0 c0).
Proof.
  destruct acc as [range|]; cbn.
  - intros (Hin & [c1 H1] & [c2 H2] & [r3 H3] & [r4 H4]).
    unfold bounding_box. cbn [min_row max_row min_col max_col]. split_and!.
    + intros r c [Hs|[-> ->]]; [|lia]. specialize (Hin r c Hs). lia.
    + destruct (Nat.min_spec (min_row range) r0) as [[_ ->]|[_ ->]];
        [exists c1; by left|exists c0; by right].
    + destruct (Nat.max_spec (max_row range) r0) as [[_ ->]|[_ ->]];
        [exists c0; by right|exists c2; by left].
    + destruct (Nat.min_spec (min_col range) c0) as [[_ ->]|[_ ->]];
        [exists r3; by left|exists r0; by right].
    + destruct (Nat.max_spec (max_col range) c0) as [[_ ->]|[_ ->]];
        [exists r0; by right|exists r4; by left].
  - intros Hnone. unfold bounding_box. cbn [min_row max_row min_col max_col].
    split_and!; try (eexists; by right).
    intros r c [Hs|[-> ->]]; [by apply Hnone in Hs|lia].
Qed.

Lemma border_scan_state sheet (coordinates : list (nat * nat)) acc
    (seen : nat → nat → Prop) :
  scan_state seen acc →
  scan_state
    (fun r c => seen r c
                ∨ ((r, c) ∈ coordinates ∧ has_border (cell sheet r c) = true))
    (fold_left
       (fun acc rc => if has_border (cell sheet rc.1 rc.2)
                      then extend_range acc rc.1 rc.2 else acc)
       coordinates acc).
Proof.
  revert acc seen. induction coordinates as [|[r0 c0] coordinates IH];
    intros acc seen Hstate; cbn [fold_left fst snd].
  - eapply scan_state_iff; [|exact Hstate]. intros r c. split; [by left|].
    intros [?|[Hin _]]; [done|by apply elem_of_nil in Hin].
  - destruct (has_border (cell sheet r0 c0)) eqn:Hb.
    + eapply scan_state_iff; [|apply IH, (extend_range_state seen acc r0 c0), Hstate].
      intros r c. cbn. rewrite elem_of_cons. split.
      * intros [[?|[-> ->]]|[? ?]]; [by left|right|right]; split; auto.
      * intros [?|[[[= -> ->]|?] ?]]; [by left; left|by left; right|by right].
    + eapply scan_state_iff; [|apply IH, Hstate].
      intros r c. cbn. rewrite elem_of_cons. split.
      * intros [?|[? ?]]; [by left|right]; split; auto.
      * intros [?|[[[= -> ->]|?] ?]]; [by left|congruence|by right].
Qed.

(** When a sheet has a border range, the range is the smallest rectangle
    that holds every bordered cell: no bordered cell lies outside it, each
    of its four sides passes through a bordered cell, and it lies within the
    used area of the sheet. *)
Theorem border_range_is_bounding_box (sheet : Worksheet) (range : CellRange) :
  find_border_range_in_sheet sheet = Some range →
  bounding_box (fun r c => has_border (cell sheet r c) = true) range
  ∧ (1 ≤ min_row range ≤ max_row range) ∧ max_row range ≤ sheet_max_row sheet
  ∧ (1 ≤ min_col range ≤ max_col range) ∧ max_col range ≤ sheet_max_column sheet.
Proof.
  intros Hrange.
  pose proof (border_scan_state sheet (iter_rows sheet) None (fun _ _ => False)) as Hscan.
  fold (find_border_range_in_sheet sheet) in Hscan. rewrite Hrange in Hscan.
  assert (bounding_box (fun r c => has_border (cell sheet r c) = true) range) as Hbox.
  { apply (scan_state_iff _ _ (Some range)) with (2 := Hscan (fun _ _ H => H)).
    intros r c. split.
    - by intros [[]|[_ ?]].
    - intros Hb. right. split; [|done]. apply elem_of_iter_rows.
      destruct (decide ((1 ≤ r ≤ sheet_max_row sheet)
                        ∧ (1 ≤ c ≤ sheet_max_column sheet))) as [|Hout]; [done|].
      rewrite (cell_outside _ _ _ Hout) in Hb. discriminate Hb. }
  split; [exact Hbox|].
  assert (∀ r c, has_border (cell sheet r c) = true →
            (1 ≤ r ≤ sheet_max_row sheet) ∧ (1 ≤ c ≤ sheet_max_column sheet)) as Hused.
  { intros r c Hb.
    destruct (decide ((1 ≤ r ≤ sheet_max_row sheet)
                      ∧ (1 ≤ c ≤ sheet_max_column sheet))) as [|Hout]; [done|].
    rewrite (cell_outside _ _ _ Hout) in Hb. discriminate Hb. }
  destruct Hbox as (Hin & [c1 H1] & [c2 H2] & [r3 H3] & [r4 H4]).
  pose proof (Hused _ _ H1). pose proof (Hused _ _ H2).
  pose proof (Hused _ _ H3). pose proof (Hused _ _ H4).
  pose proof (Hin _ _ H1). pose proof (Hin _ _ H3). lia.
Qed.

Lemma border_range_is_bounding_box_witness :
  let range := {| min_row := 2; max_row := 4; min_col := 1; max_col := 7 |} in
  find_border_range_in_sheet sample_table = Some range
  ∧ bounding_box (fun r c => has_border (cell sample_table r c) = true) range.
Proof.
  intros range.
  assert (find_border_range_in_sheet sample_table = Some range) as Hrange
    by (vm_compute; reflexivity).
  split; [exact Hrange|].
  exact (proj1 (border_range_is_bounding_box sample_table range Hrange)).
Defined.

(* --------------------------------------------------------------------- *)
(** ** Copying a region into another sheet *)
(* --------------------------------------------------------------------- *)

Lemma copy_steps_merged source_sheet range dest_start_row dest_start_col
    (l : list (nat * nat)) dest :
  merged_cells
    (fold_left (copy_step source_sheet range dest_start_row dest_start_col) l dest)
  = merged_cells dest.
Proof.
  revert dest. induction l as [|rc l IH]; intros dest; cbn [fold_left]; [done|].
  by rewrite IH.
Qed.

Lemma merge_steps_merged range dest_start_row dest_start_col
    (ms : list CellRange) dest :
  merged_cells (fold_left (merge_step range dest_start_row dest_start_col) ms dest)
  = merged_cells dest
    ++ map (moved_range range dest_start_row dest_start_col)
         (List.filter (range_contains range) ms).
Proof.
  revert dest. induction ms as [|m ms IH]; intros dest; cbn [fold_left List.filter].
  { by rewrite app_nil_r. }
  rewrite IH. unfold merge_step.
  destruct (range_contains range m); [|done].
  cbn [merged_cells merge_cells map]. by rewrite <- app_assoc.
Qed.

(** [copy_range], for destination coordinates that start at 1 or later:
    a cell of the destination at an offset within the bounds of the range
    takes the value of the source cell at that offset, and, when the source
    cell is styled, its border; when the source cell is not styled the
    destination cell keeps its own style and border.  Every other cell is
    left as it was, so a range whose bounds are reversed copies nothing.
    The merged ranges of the destination are kept, followed by those merged
    ranges of the source that lie within the range, moved by the same
    offset. *)
Theorem copy_range_copies_region (source_sheet dest_sheet : Worksheet)
    (range : CellRange) (dest_start_row dest_start_col r c : nat) :
  1 ≤ dest_start_row → 1 ≤ dest_start_col →
  let copied :=
    copy_range source_sheet dest_sheet range dest_start_row dest_start_col in
  let src :=
    cell source_sheet (min_row range + (r - dest_start_row))
      (min_col range + (c - dest_start_col)) in
  let inside :=
    (dest_start_row ≤ r ∧ min_row range + (r - dest_start_row) ≤ max_row range)
    ∧ (dest_start_col ≤ c ∧ min_col range + (c - dest_start_col) ≤ max_col range) in
  (inside →
   value_of (cell copied r c) = value_of src
   ∧ (has_style src = true →
      has_style (cell copied r c) = true ∧ border (cell copied r c) = border src)
   ∧ (has_style src = false →
      has_style (cell copied r c) = has_style (cell dest_sheet r c)
      ∧ border (cell copied r c) = border (cell dest_sheet r c)))
  ∧ (¬ inside → cell copied r c = cell dest_sheet r c)
  ∧ (max_row range < min_row range ∨ max_col range < min_col range →
     cell copied r c = cell dest_sheet r c)
  ∧ merged_cells copied
    = merged_cells dest_sheet
      ++ map (moved_range range dest_start_row dest_start_col)
           (List.filter (range_contains range) (merged_cells source_sheet)).
Proof.
  intros Hrow Hcol copied src inside. subst copied.
  rewrite (copy_range_cell source_sheet range dest_start_row dest_start_col Hrow Hcol).
  assert (inside
          ↔ (dest_start_row ≤ r < dest_start_row + row_count range)
            ∧ (dest_start_col ≤ c < dest_start_col + column_count range))
    as Hinside.
  { subst inside. unfold row_count, column_count. lia. }
  split_and!.
  - intros Hin. rewrite decide_True by (by apply Hinside). fold src.
    split_and!.
    + unfold copy_cell. by destruct (has_style src).
    + intros Hstyle. split; [|by apply copy_cell_border].
      unfold copy_cell. by rewrite Hstyle.
    + intros Hstyle. unfold copy_cell. by rewrite Hstyle.
  - intros Hout. rewrite decide_False; [done|]. by rewrite <- Hinside.
  - intros Hreversed. rewrite decide_False; [done|].
    unfold row_count, column_count. lia.
  - rewrite copy_range_steps, merge_steps_merged. by rewrite copy_steps_merged.
Qed.

Lemma copy_range_copies_region_witness :
  let range := {| min_row := 2; max_row := 4; min_col := 1; max_col := 7 |} in
  let copied := copy_range sample_table new_sheet range 1 1 in
  (1 ≤ 1) ∧ (1 ≤ 1)
  ∧ value_of (cell copied 2 5) = VInt 10
  ∧ border (cell copied 2 5) = border (cell sample_table 3 5)
  ∧ cell copied 4 1 = cell new_sheet 4 1.
Proof.
  intros range copied.
  pose proof (copy_range_copies_region sample_table new_sheet range 1 1 2 5
                (le_n 1) (le_n 1)) as Hinside.
  pose proof (copy_range_copies_region sample_table new_sheet range 1 1 4 1
                (le_n 1) (le_n 1)) as Houtside.
  cbv zeta in Hinside, Houtside.
  destruct Hinside as (Hinside & _ & _). destruct Houtside as (_ & Houtside & _).
  destruct Hinside as (Hvalue & Hstyled & _); [vm_compute; lia|].
  split_and!; [lia|lia| | |].
  - subst copied. rewrite Hvalue. vm_compute. reflexivity.
  - subst copied. apply Hstyled. vm_compute. reflexivity.
  - apply Houtside. vm_compute. lia.
Defined.

(* --------------------------------------------------------------------- *)
(** ** Titles, failures and the bounds of a consolidation *)
(* --------------------------------------------------------------------- *)

Lemma existsb_seq_true (p : nat → bool) (start len : nat) :
  existsb p (seq start len) = true ↔ ∃ i, start ≤ i < start + len ∧ p i = true.
Proof.
  rewrite existsb_exists. split.
  - intros (i & Hi%in_seq & Hp). by exists i.
  - intros (i & Hi & Hp). exists i. split; [by apply in_seq|done].
Qed.

(** A sheet matches when one of its cells in the scanned rows has a truthy
    value whose cleaned text the pattern finds: the rows are the first
    [scan_row_limit] rows when the limit is positive, and every row of the
    sheet otherwise.  A title below the scanned rows is not seen. *)
Theorem title_is_sought_in_scanned_rows (compiled_regex : Py.str → bool)
    (scan_row_limit : Z) (sheet : Worksheet) :
  sheet_has_title compiled_regex scan_row_limit sheet = true
  ↔ ∃ r c,
      (1 ≤ r ≤ sheet_max_row sheet) ∧ (1 ≤ c ≤ sheet_max_column sheet)
      ∧ ((0 < scan_row_limit)%Z → r ≤ Z.to_nat scan_row_limit)
      ∧ truthy (value_of (cell sheet r c)) = true
      ∧ compiled_regex (clean_cell (value_of (cell sheet r c))) = true.
Proof.
  unfold sheet_has_title.
  assert (∀ r c, truthy (value_of (cell sheet r c)) = true →
            (1 ≤ r ≤ sheet_max_row sheet) ∧ (1 ≤ c ≤ sheet_max_column sheet)) as Hused.
  { intros r c Ht.
    destruct (decide ((1 ≤ r ≤ sheet_max_row sheet)
                      ∧ (1 ≤ c ≤ sheet_max_column sheet))) as [|Hout]; [done|].
    rewrite (cell_outside _ _ _ Hout) in Ht. discriminate Ht. }
  destruct (Z.ltb_spec 0 scan_row_limit) as [Hpos|Hnonpos];
    rewrite existsb_seq_true; split.
  - intros (r & Hr & (c & Hc & [Ht Hm]%andb_true_iff)%existsb_seq_true).
    exists r, c. destruct (Hused r c Ht). split_and!; try done; lia.
  - intros (r & c & Hr & Hc & Hlimit & Ht & Hm). exists r.
    split; [specialize (Hlimit Hpos); lia|].
    apply existsb_seq_true. exists c. split; [lia|]. by rewrite Ht, Hm.
  - intros (r & Hr & (c & Hc & [Ht Hm]%andb_true_iff)%existsb_seq_true).
    exists r, c. split_and!; try done; lia.
  - intros (r & c & Hr & Hc & Hlimit & Ht & Hm). exists r. split; [lia|].
    apply existsb_seq_true. exists c. split; [lia|]. by rewrite Ht, Hm.
Qed.

Lemma match_sheets_spec compiled_regex scan_row_limit start sheets sheet index :
  (sheet, index) ∈ match_sheets compiled_regex scan_row_limit start sheets →
  start ≤ index
  ∧ ∃ original,
      sheets !! (index - start) = Some original
      ∧ sheet = scanned_sheet compiled_regex scan_row_limit original
      ∧ sheet_has_title compiled_regex scan_row_limit original = true.
Proof.
  revert start. induction sheets as [|first rest IH]; intros start; cbn [match_sheets].
  { by intros ?%elem_of_nil. }
  intros [Hin|Hin]%elem_of_app.
  - destruct (sheet_has_title compiled_regex scan_row_limit first) eqn:Htitle;
      [|by apply elem_of_nil in Hin].
    apply list_elem_of_singleton in Hin. injection Hin as -> ->.
    rewrite Nat.sub_diag. split; [done|]. by exists first.
  - destruct (IH _ Hin) as (Hle & original & Hlook & Hscanned & Htitle).
    split; [lia|]. exists original. split_and!; [|done|done].
    replace (index - start) with (S (index - S start)) by lia. done.
Qed.

Lemma match_sheets_nil compiled_regex scan_row_limit start sheets :
  (∀ sheet, sheet ∈ sheets → sheet_has_title compiled_regex scan_row_limit sheet = false) →
  match_sheets compiled_regex scan_row_limit start sheets = [].
Proof.
  revert start. induction sheets as [|first rest IH]; intros start Hall;
    cbn [match_sheets]; [done|].
  rewrite (Hall first (list_elem_of_here _ _)), IH; [done|].
  intros sheet Hin. apply Hall. by apply list_elem_of_further.
Qed.

Lemma select_tables_first_bordered all_sheets matched tables last :
  select_tables all_sheets matched = (tables, last) → tables ≠ [] →
  ∃ sheet index border_range,
    (sheet, index) ∈ matched
    ∧ find_border_range_in_sheet sheet = Some border_range
    ∧ tables = (sheet, border_range)
               :: (continuation_walk sheet border_range index
                     (drop (S index) all_sheets)).1
    ∧ last = Z.of_nat (continuation_walk sheet border_range index
                         (drop (S index) all_sheets)).2.
Proof.
  induction matched as [|[sheet index] matched IH]; cbn [select_tables].
  { intros [= <- <-]. done. }
  destruct (find_border_range_in_sheet sheet) as [border_range|] eqn:Hrange.
  - destruct (continuation_walk _ _ _ _) as [walked last_index] eqn:Hwalk.
    intros [= <- <-] _. exists sheet, index, border_range.
    rewrite Hwalk. split_and!; [apply list_elem_of_here|done..].
  - intros Hsel Hne. destruct (IH Hsel Hne) as (s & i & b & Hin & Hrest).
    exists s, i, b. split; [by apply list_elem_of_further|done].
Qed.

(** *** The sheets after the title scan *)

Lemma touch_rows_spec sheet n :
  sheet_max_row (touch_rows sheet n) = sheet_max_row sheet `max` n
  ∧ sheet_max_column (touch_rows sheet n) = sheet_max_column sheet
  ∧ merged_cells (touch_rows sheet n) = merged_cells sheet
  ∧ ∀ r c, cell (touch_rows sheet n) r c = cell sheet r c.
Proof.
  unfold touch_rows. destruct (Nat.leb_spec n (sheet_max_row sheet)) as [Hle|Hlt].
  { split_and!; [lia|done|done|done]. }
  cbn [sheet_max_row sheet_max_column merged_cells]. split_and!; [lia|done|done|].
  intros r c. unfold cell at 1. cbn [sheet_max_row sheet_max_column sheet_cells].
  destruct (_ && _) eqn:Hin; [done|]. symmetry. apply cell_outside.
  intros [Hr Hc].
  assert ((1 <=? r) && (r <=? n) && (1 <=? c) && (c <=? sheet_max_column sheet)
          = true); [|congruence].
  rewrite !andb_true_iff, !Nat.leb_le. lia.
Qed.

Lemma rows_yielded_le compiled_regex scan_row_limit sheet :
  rows_yielded compiled_regex scan_row_limit sheet
  ≤ (if (0 <? scan_row_limit)%Z then Z.to_nat scan_row_limit
     else sheet_max_row sheet).
Proof.
  unfold rows_yielded. cbv zeta.
  set (has_title := fun r => existsb _ _).
  assert (∀ n, match List.find has_title (seq 1 n) with
               | Some r => r
               | None => length (seq 1 n)
               end ≤ n) as Hfind.
  { intros n. destruct (List.find has_title (seq 1 n)) as [r|] eqn:Hr.
    - apply find_some in Hr as [Hr _]. apply in_seq in Hr. lia.
    - by rewrite length_seq. }
  destruct (0 <? scan_row_limit)%Z; apply Hfind.
Qed.

Lemma rows_yielded_untitled compiled_regex scan_row_limit sheet :
  sheet_has_title compiled_regex scan_row_limit sheet = false →
  rows_yielded compiled_regex scan_row_limit sheet
  = (if (0 <? scan_row_limit)%Z then Z.to_nat scan_row_limit
     else sheet_max_row sheet).
Proof.
  unfold sheet_has_title, rows_yielded. cbv zeta.
  set (has_title := fun r => existsb _ _).
  assert (∀ n, existsb has_title (seq 1 n) = false →
               match List.find has_title (seq 1 n) with
               | Some r => r
               | None => length (seq 1 n)
               end = n) as Hfind.
  { intros n Hnone. destruct (List.find has_title (seq 1 n)) as [r|] eqn:Hr.
    - apply find_some in Hr as [Hr Htitle]. exfalso.
      assert (existsb has_title (seq 1 n) = true); [|congruence].
      apply existsb_exists. by exists r.
    - by rewrite length_seq. }
  destruct (0 <? scan_row_limit)%Z; apply Hfind.
Qed.

(** [consolidate_tables_from_group] fails, returning [(None, [], -1)], when
    a file of the group cannot be loaded and when no sheet has the title; it
    never fails in another shape.  When it succeeds it returns the sheets
    of the group in file order as the title scan leaves them, the index of
    the last consolidated sheet, which is a valid index of that list, and a
    table whose first rows are the border range of a titled sheet, cell by
    cell from its top left corner.  The title scan leaves the cells, the
    columns and the merged ranges of a sheet as they are; it leaves a sheet
    with at least the rows it had and at most the scanned rows more, and a
    sheet without the title, scanned with a positive row limit, with at
    least that many rows. *)
Theorem consolidation_failures_and_bounds
    (file_group : list (option (list Worksheet)))
    (compiled_regex : Py.str → bool) (scan_row_limit : Z) :
  let result :=
    consolidate_tables_from_group file_group compiled_regex scan_row_limit in
  let scanned := scanned_sheet compiled_regex scan_row_limit in
  (load_group file_group = None → result = (None, [], (-1)%Z))
  ∧ (∀ loaded_sheets,
       load_group file_group = Some loaded_sheets →
       (∀ sheet, sheet ∈ loaded_sheets →
          sheet_has_title compiled_regex scan_row_limit sheet = false) →
       result = (None, [], (-1)%Z))
  ∧ (result.1.1 = None → result = (None, [], (-1)%Z))
  ∧ (∀ consolidated all_sheets last_sheet_index,
       result = (Some consolidated, all_sheets, last_sheet_index) →
       ∃ loaded_sheets,
         load_group file_group = Some loaded_sheets
         ∧ all_sheets = map scanned loaded_sheets
         ∧ (0 ≤ last_sheet_index < Z.of_nat (length all_sheets))%Z
         ∧ ∃ original index border_range,
             loaded_sheets !! index = Some original
             ∧ sheet_has_title compiled_regex scan_row_limit original = true
             ∧ find_border_range_in_sheet (scanned original) = Some border_range
             ∧ (Z.of_nat index ≤ last_sheet_index)%Z
             ∧ max_row border_range + 1 - min_row border_range
               ≤ sheet_max_row consolidated
             ∧ ∀ dr dc,
                 min_row border_range + dr ≤ max_row border_range →
                 min_col border_range + dc ≤ max_col border_range →
                 let dest := cell consolidated (1 + dr) (1 + dc) in
                 let src :=
                   cell original (min_row border_range + dr)
                     (min_col border_range + dc) in
                 value_of dest = value_of src
                 ∧ has_border dest = has_border src)
  ∧ (∀ sheet,
       sheet_max_column (scanned sheet) = sheet_max_column sheet
       ∧ merged_cells (scanned sheet) = merged_cells sheet
       ∧ (∀ r c, cell (scanned sheet) r c = cell sheet r c)
       ∧ sheet_max_row sheet ≤ sheet_max_row (scanned sheet)
       ∧ sheet_max_row (scanned sheet)
         ≤ sheet_max_row sheet `max` Z.to_nat scan_row_limit
       ∧ (sheet_has_title compiled_regex scan_row_limit sheet = false →
          sheet_max_row (scanned sheet)
          = sheet_max_row sheet `max` Z.to_nat scan_row_limit)).
Proof.
  intros result scanned. subst result. split_and!.
  - intros Hload. unfold consolidate_tables_from_group. by rewrite Hload.
  - intros loaded_sheets Hload Hnone. unfold consolidate_tables_from_group.
    rewrite Hload. cbv zeta. by rewrite match_sheets_nil.
  - unfold consolidate_tables_from_group.
    destruct (load_group file_group) as [loaded_sheets|]; [|done]. cbv zeta.
    destruct (match_sheets _ _ _ _) as [|info matched]; [done|].
    by destruct (select_tables _ _) as [[|table tables] last].
  - intros consolidated all_sheets last Hresult.
    destruct (load_group file_group) as [sheets|] eqn:Hload.
    2: { unfold consolidate_tables_from_group in Hresult.
         rewrite Hload in Hresult. discriminate Hresult. }
    rewrite (consolidate_tables_from_group_steps _ _ _ _ Hload) in Hresult.
    cbv zeta in Hresult. fold scanned in Hresult.
    destruct (select_tables (map scanned sheets)
                (match_sheets compiled_regex scan_row_limit 0 sheets))
      as [tables last'] eqn:Hsel.
    cbn [fst snd] in Hresult.
    destruct tables as [|table tables]; [discriminate Hresult|].
    injection Hresult as <- <- <-.
    destruct (select_tables_first_bordered _ _ _ _ Hsel)
      as (sheet & index & border_range & Hin & Hrange & Htables & Hlast); [done|].
    apply match_sheets_spec in Hin as (_ & original & Hlook & -> & Htitle).
    rewrite Nat.sub_0_r in Hlook. fold scanned in Hrange, Htables, Hlast.
    destruct (continuation_walk_spec (scanned original) border_range index
                (drop (S index) (map scanned sheets)))
      as (Hprefix & Hindex & _ & _).
    cbv zeta in Hprefix, Hindex.
    set (walk := continuation_walk (scanned original) border_range index
                   (drop (S index) (map scanned sheets))) in *.
    assert (length walk.1 ≤ length (drop (S index) (map scanned sheets))) as Hwalk.
    { apply (f_equal length) in Hprefix.
      rewrite length_map, length_take in Hprefix. lia. }
    rewrite length_drop, length_map in Hwalk.
    pose proof (lookup_lt_Some _ _ _ Hlook) as Hlt.
    assert (∀ t, t ∈ (scanned original, border_range) :: walk.1 → ordered t.2)
      as Hordered.
    { intros t Ht. apply (find_border_range_ordered t.1).
      by apply (continuation_walk_ordered (scanned original) border_range index
                  (drop (S index) (map scanned sheets))). }
    exists sheets. rewrite length_map. subst last'.
    split_and!; [done|done|lia|lia|].
    exists original, index, border_range.
    split_and!; [done|done|done|lia| |].
    + rewrite Htables, write_tables_max_row by done.
      cbn [length]. rewrite region_offset_S. cbn [fst snd].
      unfold row_count. lia.
    + intros dr dc Hdr Hdc dest src. subst dest src. rewrite Htables.
      pose proof (write_tables_cell ((scanned original, border_range) :: walk.1)
                    0 (scanned original, border_range) dr dc eq_refl) as Hcell.
      cbn [fst snd] in Hcell.
      unfold region_offset in Hcell. cbn [take map sum_list_with] in Hcell.
      rewrite Nat.add_0_r in Hcell.
      rewrite Hcell by (unfold row_count, column_count; lia).
      destruct (touch_rows_spec original
                  (rows_yielded compiled_regex scan_row_limit original))
        as (_ & _ & _ & Hcells).
      fold (scanned_sheet compiled_regex scan_row_limit original) in Hcells.
      fold scanned in Hcells. rewrite Hcells. apply copy_cell_blank.
  - intros sheet. subst scanned. cbv beta. unfold scanned_sheet.
    destruct (touch_rows_spec sheet
                (rows_yielded compiled_regex scan_row_limit sheet))
      as (Hrows & Hcols & Hmerged & Hcells).
    pose proof (rows_yielded_le compiled_regex scan_row_limit sheet) as Hle.
    split_and!; [done|done|done|lia| |].
    + rewrite Hrows. destruct (0 <? scan_row_limit)%Z; lia.
    + intros Htitle. rewrite Hrows.
      rewrite (rows_yielded_untitled _ _ _ Htitle).
      destruct (Z.ltb_spec 0 scan_row_limit); lia.
Qed.

(* --------------------------------------------------------------------- *)
(** ** Logical indices and absolute columns *)
(* --------------------------------------------------------------------- *)

Lemma sorted_lookup_ge (l : list nat) (first k c : nat) :
  StronglySorted lt l → Forall (fun x => first ≤ x) l →
  l !! k = Some c → first + k ≤ c.
Proof.
  intros Hsorted. revert first k.
  induction Hsorted as [|x l Hsorted IH Hall]; intros first k Hbound Hk; [done|].
  apply Forall_cons in Hbound as [Hx Hrest].
  destruct k as [|k]; cbn in Hk.
  - injection Hk as <-. lia.
  - assert (S x + k ≤ c); [|lia]. apply IH; [|done].
    eapply Forall_impl; [exact Hall|]. cbn. lia.
Qed.

(** [get_absolute_col_from_logical_index_for_row] gives no column for the
    index 0 and for an index beyond the number of logical columns of the
    row; for any other index it gives the logical start at that position,
    a column of the sheet that is not less than the index. *)
Theorem absolute_col_bounds (sheet : Worksheet) (row_num logical_index : nat) :
  let logical_starts := get_logical_starts_for_row sheet row_num in
  (logical_index = 0 ∨ length logical_starts < logical_index →
   get_absolute_col_from_logical_index_for_row sheet row_num logical_index = None)
  ∧ (1 ≤ logical_index ≤ length logical_starts →
     ∃ c, get_absolute_col_from_logical_index_for_row sheet row_num logical_index
          = Some c
          ∧ logical_starts !! (logical_index - 1) = Some c
          ∧ logical_index ≤ c ≤ sheet_max_column sheet)
  ∧ length logical_starts ≤ sheet_max_column sheet.
Proof.
  intros logical_starts.
  pose proof (scan_sorted sheet row_num 1) as Hsorted.
  pose proof (scan_bounds sheet row_num 1) as Hbounds.
  fold (get_logical_starts_for_row sheet row_num) in Hsorted, Hbounds.
  fold logical_starts in Hsorted, Hbounds.
  assert (∀ k c, logical_starts !! k = Some c → S k ≤ c ≤ sheet_max_column sheet)
    as Hcol.
  { intros k c Hk. split.
    - apply (sorted_lookup_ge logical_starts 1 k c Hsorted); [|done].
      eapply Forall_impl; [exact Hbounds|]. cbn. lia.
    - rewrite Forall_forall in Hbounds.
      by apply (Hbounds c), list_elem_of_lookup_2 with k. }
  split_and!.
  - intros Hout. unfold get_absolute_col_from_logical_index_for_row.
    fold logical_starts.
    destruct (Nat.leb_spec 1 logical_index),
      (Nat.leb_spec logical_index (length logical_starts)); cbn; try done; lia.
  - intros Hin.
    destruct (lookup_lt_is_Some_2 logical_starts (logical_index - 1)) as [c Hc];
      [lia|].
    exists c. split_and!; [|done|..].
    + replace logical_index with (S (logical_index - 1)) by lia.
      by apply absolute_col_of_lookup.
    + destruct (Hcol _ _ Hc). lia.
    + by destruct (Hcol _ _ Hc).
  - destruct (length logical_starts) as [|n] eqn:Hlen; [lia|].
    destruct (lookup_lt_is_Some_2 logical_starts n) as [c Hc]; [lia|].
    destruct (Hcol _ _ Hc). lia.
Qed.

(* --------------------------------------------------------------------- *)
(** ** The anchor map *)
(* --------------------------------------------------------------------- *)

Lemma elem_of_anchors_from idx sheets name location :
  location ∈ anchors_from idx sheets name
  ↔ ∃ j r sheet,
      location = (idx + j, r, 2) ∧ sheets !! j = Some sheet
      ∧ (1 ≤ r ≤ sheet_max_row sheet) ∧ anchor_name_at sheet r = Some name.
Proof.
  revert idx. induction sheets as [|first rest IH]; intros idx; cbn [anchors_from].
  { split; [by intros ?%elem_of_nil|by intros (j & r & sheet & _ & ? & _)]. }
  rewrite elem_of_app, IH. unfold anchors_in_sheet. split.
  - intros [Hin|(j & r & sheet & -> & Hj & Hr & Hname)].
    + apply list_elem_of_fmap in Hin as (r & -> & Hr).
      apply elem_of_filter_true in Hr as [Hname Hr].
      apply bool_decide_eq_true in Hname. apply elem_of_seq in Hr.
      exists 0, r, first. rewrite Nat.add_0_r. split_and!; try done; lia.
    + exists (S j), r, sheet. split_and!; try done; try lia; f_equal; f_equal; lia.
  - intros ([|j] & r & sheet & -> & Hj & Hr & Hname); cbn in Hj.
    + injection Hj as ->. left. rewrite Nat.add_0_r.
      apply list_elem_of_fmap. exists r. split; [done|].
      apply list_elem_of_In, filter_In. split.
      * apply in_seq. lia.
      * by apply bool_decide_eq_true.
    + right. exists j, r, sheet. split_and!; try done; try lia; f_equal; f_equal; lia.
Qed.

(** The locations [build_anchor_map] records under a name are exactly the
    rows, in the sheets from [start_sheet_idx] on, whose first logical cell
    normalises to the name label and whose second logical cell normalises
    to that name; the logical index of a location is always 2.  No location
    is recorded under the empty name, and nothing is recorded when the
    start index is past the last sheet. *)
Theorem anchor_locations_are_anchor_rows (original_sheets : list Worksheet)
    (start_sheet_idx : nat) (name : Py.str) :
  let locations :=
    default [] (build_anchor_map original_sheets start_sheet_idx !! name) in
  (∀ location,
     location ∈ locations
     ↔ ∃ s r sheet,
         location = (s, r, 2) ∧ start_sheet_idx ≤ s
         ∧ original_sheets !! s = Some sheet
         ∧ (1 ≤ r ≤ sheet_max_row sheet)
         ∧ anchor_name_at sheet r = Some name)
  ∧ (name = [] → locations = [])
  ∧ (length original_sheets ≤ start_sheet_idx → locations = []).
Proof.
  intros locations. subst locations. rewrite build_anchor_map_lookup.
  unfold anchors_in_scan_order. split_and!.
  - intros location. rewrite elem_of_anchors_from. split.
    + intros (j & r & sheet & -> & Hj & Hr & Hname).
      rewrite lookup_drop in Hj.
      exists (start_sheet_idx + j), r, sheet. split_and!; try done; lia.
    + intros (s & r & sheet & -> & Hs & Hlook & Hr & Hname).
      exists (s - start_sheet_idx), r, sheet. rewrite lookup_drop.
      replace (start_sheet_idx + (s - start_sheet_idx)) with s by lia. done.
  - intros ->. apply anchors_from_empty_name.
  - intros Hpast. by rewrite drop_ge.
Qed.

(* --------------------------------------------------------------------- *)
(** ** What a run commits *)
(* --------------------------------------------------------------------- *)

Lemma to_commit_true processed_groups file_group :
  to_commit processed_groups file_group = true
  ↔ (group_identifier file_group ∉ processed_groups)
    ∧ records_of_group file_group ≠ [].
Proof.
  unfold to_commit. rewrite andb_true_iff, negb_true_iff, bool_decide_eq_false.
  destruct (records_of_group file_group);
    (split; intros [Hnew Hrecords]; (split; [exact Hnew|congruence])).
Qed.

Lemma to_commit_false processed_groups file_group :
  to_commit processed_groups file_group = false →
  group_identifier file_group ∈ processed_groups
  ∨ records_of_group file_group = [].
Proof.
  intros Hskip.
  destruct (decide (group_identifier file_group ∈ processed_groups)); [by left|right].
  destruct (records_of_group file_group) as [|record records] eqn:Hrec; [done|].
  exfalso. assert (to_commit processed_groups file_group = true); [|congruence].
  apply to_commit_true. by rewrite Hrec.
Qed.

(** The groups that are not committed leave no trace. *)
Lemma process_groups_committed read_excel processed_groups
    (groups : list FileGroup) file :
  fold_left (process_group read_excel processed_groups) groups file
  = fold_left (process_group read_excel processed_groups)
      (List.filter (to_commit processed_groups) groups) file.
Proof.
  revert file. induction groups as [|first rest IH]; intros file;
    cbn [fold_left List.filter]; [done|].
  destruct (to_commit processed_groups first) eqn:Hfirst; cbn [fold_left].
  - apply IH.
  - rewrite (process_group_skips read_excel processed_groups file first)
      by (by apply to_commit_false).
    apply IH.
Qed.

Lemma process_group_appends read_excel processed_groups file file_group :
  to_commit processed_groups file_group = true →
  process_group read_excel processed_groups file file_group
  = append_data_and_log_to_excel read_excel file
      (frame_to_append (records_of_group file_group)) (group_identifier file_group).
Proof.
  intros [Hnew Hrecords]%to_commit_true. unfold process_group.
  rewrite bool_decide_false by done.
  by destruct (records_of_group file_group).
Qed.

Lemma process_groups_log read_excel processed_groups (groups : list FileGroup) file :
  Forall (fun file_group => to_commit processed_groups file_group = true) groups →
  log_of (fold_left (process_group read_excel processed_groups) groups file)
  = log_of file ++ map group_identifier groups.
Proof.
  intros Hall. revert file. induction Hall as [|first rest Hfirst Hrest IH];
    intros file; cbn [fold_left map]; [by rewrite app_nil_r|].
  rewrite IH, (process_group_appends _ _ _ _ Hfirst).
  unfold append_data_and_log_to_excel. cbn [log_of processing_log].
  rewrite <- app_assoc. by destruct file.
Qed.

(** A run appends to the log, in the order of the groups, the identifier of
    each group that is not in the log read at the start and gives records,
    and nothing else; without such a group it leaves the file as it was.
    The file after the run is the frame of the last such group appended to
    the file as the groups before it left it; when reading back keeps the
    schema, its data rows are the rows of that file as they are read back,
    followed by the rows of the records of the last group. *)
Theorem main_appends_committed_groups (read_excel : DataFrame → DataFrame)
    (file : option PanelFile) (excel_file_groups : list FileGroup) :
  let processed_groups := load_processed_log_from_excel file in
  let committed := List.filter (to_commit processed_groups) excel_file_groups in
  let out := main read_excel file excel_file_groups in
  log_of out = log_of file ++ map group_identifier committed
  ∧ (∀ file_group,
       file_group ∈ committed
       ↔ file_group ∈ excel_file_groups
         ∧ (group_identifier file_group ∉ processed_groups)
         ∧ records_of_group file_group ≠ [])
  ∧ (committed = [] → out = file)
  ∧ (∀ earlier last,
       committed = earlier ++ [last] →
       let before :=
         fold_left (process_group read_excel processed_groups) earlier file in
       out
       = append_data_and_log_to_excel read_excel before
           (frame_to_append (records_of_group last)) (group_identifier last)
       ∧ log_of before = log_of file ++ map group_identifier earlier
       ∧ ((∀ df, schema_frame df → schema_frame (read_excel df)) →
          schema_file file →
          rows_of out
          = match before with
            | Some f => rows (read_excel (Panel_Data f))
            | None => []
            end
            ++ map (fun record =>
                      map (committed_value (records_of_group last) record)
                          FINAL_COLUMN_ORDER)
                   (records_of_group last))).
Proof.
  intros processed_groups committed out.
  assert (Forall (fun file_group => to_commit processed_groups file_group = true)
            committed) as Hall.
  { apply Forall_forall. intros g Hg%list_elem_of_In. subst committed.
    by apply filter_In in Hg as [_ Hg]. }
  assert (out = fold_left (process_group read_excel processed_groups) committed file)
    as Hout.
  { subst out committed. unfold main. apply process_groups_committed. }
  split_and!.
  - rewrite Hout. by apply process_groups_log.
  - intros g. subst committed. rewrite list_elem_of_In, filter_In.
    rewrite <- list_elem_of_In, to_commit_true. tauto.
  - intros Hnone. rewrite Hout, Hnone. reflexivity.
  - intros earlier last Hlast before. rewrite Hlast in Hall, Hout.
    apply Forall_app in Hall as [Hearlier Hcommit].
    apply Forall_inv in Hcommit.
    rewrite fold_left_app in Hout. cbn [fold_left] in Hout. fold before in Hout.
    split_and!.
    + rewrite Hout. by apply process_group_appends.
    + by apply process_groups_log.
    + intros Hread Hfile.
      apply to_commit_true in Hcommit as [Hnew Hrecords].
      assert (schema_file before) as Hbefore
        by (by apply process_groups_schema).
      rewrite Hout, (process_group_commits _ _ _ _ Hread Hbefore Hnew Hrecords).
      reflexivity.
Qed.

Lemma main_appends_committed_groups_witness :
  log_of (main sample_read_excel None [sample_group; sample_untitled_group])
  = [] ++ map group_identifier
            (List.filter (to_commit (load_processed_log_from_excel None))
               [sample_group; sample_untitled_group])
  ∧ map group_identifier
      (List.filter (to_commit (load_processed_log_from_excel None))
         [sample_group; sample_untitled_group])
    = [group_identifier sample_group].
Proof.
  split.
  - exact (proj1 (main_appends_committed_groups sample_read_excel None
                    [sample_group; sample_untitled_group])).
  - vm_compute. reflexivity.
Defined.

(* --------------------------------------------------------------------- *)
(** ** The keys of the extracted dictionaries *)
(* --------------------------------------------------------------------- *)

Lemma dict_set_keys d k v :
  map fst (dict_set d k v)
  = if bool_decide (k ∈ map fst d) then map fst d else map fst d ++ [k].
Proof.
  induction d as [|[k0 v0] d IH]; cbn [dict_set map fst app].
  { rewrite bool_decide_false; [done|]. apply not_elem_of_nil. }
  destruct (str_eqb k0 k) eqn:Hk0; cbn [map fst].
  - apply str_eqb_eq in Hk0 as ->.
    rewrite bool_decide_true; [done|]. apply list_elem_of_here.
  - rewrite IH. assert (k0 ≠ k) as Hne.
    { intros ->. by rewrite str_eqb_refl in Hk0. }
    destruct (decide (k ∈ map fst d)) as [Hin|Hout].
    + rewrite !bool_decide_true; [done| |done]. by apply list_elem_of_further.
    + rewrite !bool_decide_false; [done| |done].
      intros [?|?]%elem_of_cons; [by subst|done].
Qed.

Lemma dict_get_is_Some d k : is_Some (dict_get d k) ↔ k ∈ map fst d.
Proof.
  induction d as [|[k0 v0] d IH]; cbn [dict_get map fst].
  { split; [by intros [? ?]|by intros ?%elem_of_nil]. }
  destruct (str_eqb k0 k) eqn:Hk0.
  - apply str_eqb_eq in Hk0 as ->. split; [intros _; apply list_elem_of_here|by eexists].
  - rewrite IH, elem_of_cons. split; [by right|].
    intros [->|?]; [by rewrite str_eqb_refl in Hk0|done].
Qed.

Lemma add_names_fresh (names keys : list Py.str) :
  NoDup (keys ++ names) → fold_left add_name names keys = keys ++ names.
Proof.
  revert keys. induction names as [|name names IH]; intros keys Hnd; cbn [fold_left].
  { by rewrite app_nil_r. }
  unfold add_name at 2. rewrite bool_decide_false.
  - rewrite IH; [by rewrite <- app_assoc|]. by rewrite <- app_assoc.
  - apply NoDup_app in Hnd as (_ & Hdisj & _). intros Hin.
    apply (Hdisj name Hin). apply list_elem_of_here.
Qed.

Lemma extract_fields_keys sheets k names d s r :
  map fst (extract_fields sheets k names (d, s, r)).1.1
  = fold_left add_name names (map fst d).
Proof.
  unfold extract_fields. revert d s r.
  induction names as [|name names IH]; intros d s r; cbn [fold_left]; [done|].
  destruct (next_bordered sheets k s r) as [[found s'] r'].
  rewrite IH. f_equal. apply dict_set_keys.
Qed.

Lemma scan_additional_keys n sheets s r d :
  ADDITIONAL_VAR_NAME ∈ map fst d →
  map fst (scan_additional n sheets s r d) = map fst d.
Proof.
  intros Hin. revert s r. induction n as [|n IH]; intros s r; cbn [scan_additional];
    [done|].
  destruct (sheets !! s) as [sh|]; [|done].
  destruct (_ <? _); [apply IH|].
  destruct (get_absolute_col_from_logical_index_for_row sh r 1); [|apply IH].
  destruct (get_absolute_col_from_logical_index_for_row sh r 2); [|apply IH].
  destruct (_ && _); [|apply IH].
  rewrite dict_set_keys. by rewrite bool_decide_true.
Qed.

Lemma EXTENDED_then_ADDITIONAL_NoDup :
  NoDup (EXTENDED_VAR_NAMES ++ [ADDITIONAL_VAR_NAME]).
Proof. literals_differ. Qed.

(** The dictionary [extract_vars_from_anchor] returns for an anchor location
    has the extended names as its keys, in their order, followed by the
    additional name, whatever the sheets hold; without a location it has
    the extended names only, each with the value [None]. *)
Theorem extracted_vars_keys (original_sheets : list Worksheet) :
  (∀ anchor_location,
     map fst (extract_vars_from_anchor (Some anchor_location) original_sheets)
     = EXTENDED_VAR_NAMES ++ [ADDITIONAL_VAR_NAME])
  ∧ map fst (extract_vars_from_anchor None original_sheets) = EXTENDED_VAR_NAMES
  ∧ (∀ key, key ∈ EXTENDED_VAR_NAMES →
       dict_get (extract_vars_from_anchor None original_sheets) key = Some VNone)
  ∧ dict_get (extract_vars_from_anchor None original_sheets) ADDITIONAL_VAR_NAME
    = None.
Proof.
  split_and!.
  - intros [[start_s_idx start_r] value_logical_index].
    unfold extract_vars_from_anchor.
    pose proof (extract_fields_keys original_sheets value_logical_index
                  EXTENDED_VAR_NAMES [] start_s_idx (start_r + 1)) as Hkeys.
    destruct (extract_fields _ _ _ _) as [[extracted_vars s] r].
    cbn [fst snd map] in Hkeys.
    rewrite (add_names_fresh EXTENDED_VAR_NAMES []) in Hkeys
      by apply EXTENDED_VAR_NAMES_NoDup.
    cbn [app] in Hkeys.
    rewrite scan_additional_keys; rewrite dict_set_keys, Hkeys.
    + rewrite bool_decide_false; [done|]. apply ADDITIONAL_not_EXTENDED.
    + rewrite bool_decide_false by apply ADDITIONAL_not_EXTENDED.
      apply elem_of_app. right. apply list_elem_of_here.
  - cbn [extract_vars_from_anchor]. vm_compute. reflexivity.
  - cbn [extract_vars_from_anchor]. apply Forall_forall.
    apply (bool_decide_unpack
             (Forall (fun key => dict_get (dict_fromkeys_None EXTENDED_VAR_NAMES) key
                                 = Some VNone) EXTENDED_VAR_NAMES)).
    vm_compute. exact I.
  - cbn [extract_vars_from_anchor]. vm_compute. reflexivity.
Qed.

(* --------------------------------------------------------------------- *)
(** ** The enriched records *)
(* --------------------------------------------------------------------- *)

Lemma number_occurrences_length name_counts records :
  length (number_occurrences name_counts records) = length records.
Proof.
  revert name_counts. induction records as [|record records IH]; intros name_counts;
    cbn [number_occurrences]; [done|].
  destruct (clean_for_matching _); cbn [length]; by rewrite IH.
Qed.

Lemma metadata_update_get file_group (d : Py.dict) :
  dict_get (dict_update d (metadata_of file_group)) (lit "年份")
  = Some (VStr (group_year file_group))
  ∧ dict_get (dict_update d (metadata_of file_group)) (lit "地区")
    = Some (VStr (group_region file_group))
  ∧ dict_get (dict_update d (metadata_of file_group)) (lit "数据来源")
    = Some (VStr (group_source file_group))
  ∧ dict_get (dict_update d (metadata_of file_group)) OCCURRENCE_KEY
    = dict_get d OCCURRENCE_KEY.
Proof.
  unfold dict_update, metadata_of. cbn [fold_left fst snd].
  assert (lit "年份" ≠ lit "地区") as H12 by literals_differ.
  assert (lit "年份" ≠ lit "数据来源") as H13 by literals_differ.
  assert (lit "地区" ≠ lit "数据来源") as H23 by literals_differ.
  assert (lit "年份" ≠ OCCURRENCE_KEY) as H1 by literals_differ.
  assert (lit "地区" ≠ OCCURRENCE_KEY) as H2 by literals_differ.
  assert (lit "数据来源" ≠ OCCURRENCE_KEY) as H3 by literals_differ.
  split_and!.
  - rewrite dict_get_set_ne by congruence. rewrite dict_get_set_ne by congruence.
    apply dict_get_set_eq.
  - rewrite dict_get_set_ne by congruence. apply dict_get_set_eq.
  - apply dict_get_set_eq.
  - by rewrite !dict_get_set_ne by congruence.
Qed.

(** [extract_data_with_extended_vars] returns one record for each base
    record, in the same order; no returned record has the key
    [_occurrence_index], and each holds the year, the region and the source
    of the group under the three metadata keys, whatever the table held
    under them. *)
Theorem enriched_records_carry_metadata (consolidated : Worksheet)
    (original_sheets : list Worksheet) (last_sheet_idx : Z)
    (file_group : FileGroup) :
  let enriched :=
    extract_data_with_extended_vars consolidated original_sheets last_sheet_idx
      (metadata_of file_group) in
  length enriched = length (extract_base_data consolidated)
  ∧ ∀ record, record ∈ enriched →
      dict_get record OCCURRENCE_KEY = None
      ∧ dict_get record (lit "年份") = Some (VStr (group_year file_group))
      ∧ dict_get record (lit "地区") = Some (VStr (group_region file_group))
      ∧ dict_get record (lit "数据来源") = Some (VStr (group_source file_group)).
Proof.
  intros enriched. subst enriched. unfold extract_data_with_extended_vars. cbv zeta.
  destruct (extract_base_data consolidated) as [|first rest] eqn:Hbase.
  { split; [done|]. intros record Hin. by apply elem_of_nil in Hin. }
  split.
  - by rewrite length_map, number_occurrences_length.
  - intros record (numbered & -> & _)%list_elem_of_fmap. unfold enrich_record.
    cbv zeta.
    match goal with
    | |- context [dict_update (dict_del ?x OCCURRENCE_KEY) _] => generalize x
    end.
    intros updated.
    destruct (metadata_update_get file_group (dict_del updated OCCURRENCE_KEY))
      as (Hyear & Hregion & Hsource & Hocc).
    split_and!; [|done|done|done].
    rewrite Hocc, dict_get_del. by rewrite decide_True.
Qed.

(* --------------------------------------------------------------------- *)
(** ** The base records *)
(* --------------------------------------------------------------------- *)

Lemma length_omap_le {A B} (f : A → option B) (l : list A) :
  length (omap f l) ≤ length l.
Proof.
  induction l as [|x l IH]; cbn; [done|]. destruct (f x); cbn; lia.
Qed.

Lemma header_at_headers data_filled r c :
  header_at data_filled r c = true ↔ headers_at data_filled r c.
Proof.
  unfold header_at, headers_at. rewrite bool_decide_eq_true.
  change (length HEADERS_TO_FIND) with 3.
  change HEADERS_TO_FIND with [lit "项目名称"; lit "项目单位"; lit "主管部门"].
  cbn [seq map]. rewrite Nat.add_0_r. split.
  - intros [= H0 H1 H2]. by split_and!.
  - intros (H0 & H1 & H2). by rewrite H0, H1, H2.
Qed.

Lemma grid_get_outside (data : list (list value)) r c :
  ¬ (r < length data ∧ c < length (default [] (data !! r))) →
  grid_get data r c = VNone.
Proof.
  intros Hout. unfold grid_get.
  destruct (data !! r) as [row|] eqn:Hrow; cbn; [|done].
  destruct (row !! c) as [v|] eqn:Hv; cbn; [|done].
  exfalso. apply Hout. split.
  - by apply lookup_lt_Some in Hrow.
  - by apply lookup_lt_Some in Hv.
Qed.

(** The headers lie within the grid. *)
Lemma headers_at_inside data_filled r c :
  headers_at data_filled r c →
  r < length data_filled ∧ c + 2 < length (default [] (data_filled !! r)).
Proof.
  intros (_ & _ & Hlast).
  destruct (decide (r < length data_filled
                    ∧ c + 2 < length (default [] (data_filled !! r))))
    as [Hin|Hout]; [done|].
  rewrite (grid_get_outside _ _ _ Hout) in Hlast. exfalso. revert Hlast.
  literals_differ.
Qed.

Lemma elem_of_header_places (data_filled : list (list value)) r c :
  (r, c) ∈ (r_idx ← seq 0 (min 5 (length data_filled));
            c_idx ← seq 0 (length (default [] (data_filled !! r_idx)) + 1
                           - length HEADERS_TO_FIND);
            [(r_idx, c_idx)])
  ↔ r < 5 ∧ r < length data_filled
    ∧ c + 2 < length (default [] (data_filled !! r)).
Proof.
  change (length HEADERS_TO_FIND) with 3.
  rewrite list_elem_of_bind. split.
  - intros (r' & (c' & Hin & Hc)%list_elem_of_bind & Hr).
    apply list_elem_of_singleton in Hin. injection Hin as -> ->.
    apply elem_of_seq in Hr. apply elem_of_seq in Hc. lia.
  - intros (Hr & Hlen & Hc). exists r. split; [|apply elem_of_seq; lia].
    apply list_elem_of_bind. exists c. split; [|apply elem_of_seq; lia].
    by apply list_elem_of_singleton.
Qed.

Lemma find_header_None data_filled :
  find_header data_filled = None
  ↔ ∀ r c, r < 5 → ¬ headers_at data_filled r c.
Proof.
  unfold find_header. split.
  - intros Hnone r c Hr Hheaders.
    destruct (headers_at_inside _ _ _ Hheaders) as [Hlen Hc].
    pose proof (find_none _ _ Hnone (r, c)) as Hfalse. cbn [fst snd] in Hfalse.
    apply header_at_headers in Hheaders.
    rewrite Hfalse in Hheaders; [done|].
    apply list_elem_of_In, elem_of_header_places. done.
  - intros Hall.
    destruct (List.find _ _) as [[r c]|] eqn:Hfind; [|done].
    apply find_some in Hfind as [Hin Hheaders]. cbn [fst snd] in Hheaders.
    apply list_elem_of_In, elem_of_header_places in Hin as (Hr & _ & _).
    apply header_at_headers in Hheaders. by destruct (Hall r c Hr).
Qed.

Lemma find_header_Some data_filled r c :
  find_header data_filled = Some (r, c) → r < 5 ∧ headers_at data_filled r c.
Proof.
  unfold find_header. intros Hfind.
  apply find_some in Hfind as [Hin Hheaders]. cbn [fst snd] in Hheaders.
  apply list_elem_of_In, elem_of_header_places in Hin as (Hr & _ & _).
  split; [done|]. by apply header_at_headers.
Qed.

(** There is no base record when the three name headers do not stand side
    by side anywhere in the first five rows of the filled grid.  When they
    do, the header search finds such a place, and there is at most one base
    record for each row below the header row it finds.  Every base record
    has a name that is not blank and has a value, which may be [None],
    under each of the name-block keys, the data keys and the special key. *)
Theorem base_records_have_names (sheet : Worksheet) :
  let data_filled := manual_ffill (sheet_values sheet) in
  let headers (r c : nat) : Prop :=
    clean_cell (grid_get data_filled r c) = lit "项目名称"
    ∧ clean_cell (grid_get data_filled r (c + 1)) = lit "项目单位"
    ∧ clean_cell (grid_get data_filled r (c + 2)) = lit "主管部门" in
  ((∀ r c, r < 5 → ¬ headers r c) → extract_base_data sheet = [])
  ∧ ((∃ r c, r < 5 ∧ headers r c) →
     ∃ header_row_idx header_col_start_idx,
       find_header data_filled = Some (header_row_idx, header_col_start_idx))
  ∧ (∀ header_row_idx header_col_start_idx,
       find_header data_filled = Some (header_row_idx, header_col_start_idx) →
       header_row_idx < 5
       ∧ headers header_row_idx header_col_start_idx
       ∧ length (extract_base_data sheet)
         ≤ sheet_max_row sheet - (header_row_idx + 1))
  ∧ ∀ record, record ∈ extract_base_data sheet →
      (∃ v, dict_get record PROJECT_NAME_KEY = Some v ∧ clean_cell v ≠ [])
      ∧ ∀ key, key ∈ HEADERS_TO_FIND ++ DATA_COL_NAMES ++ [SPECIAL_COL_NAME] →
               is_Some (dict_get record key).
Proof.
  intros data_filled headers.
  change headers with (headers_at data_filled).
  split_and!.
  - intros Hnone%find_header_None. unfold extract_base_data. cbv zeta.
    fold data_filled. by rewrite Hnone.
  - intros (r & c & Hr & Hheaders).
    destruct (find_header data_filled) as [[h s]|] eqn:Hfind; [by exists h, s|].
    exfalso. by apply (proj1 (find_header_None data_filled) Hfind r c Hr).
  - intros h s Hfind. destruct (find_header_Some _ _ _ Hfind) as [Hh Hheaders].
    split_and!; [done|done|].
    unfold extract_base_data. cbv zeta. fold data_filled. rewrite Hfind.
    etrans; [apply length_omap_le|]. by rewrite length_seq.
  - intros record (filled & start & cols & i & _ & Hrow)%extract_base_data_rows.
    destruct (base_row_fields _ _ _ _ _ _ _ Hrow) as (Hname & Hblank & Hkeys).
    split; [|exact Hkeys]. by eexists.
Qed.
